(** * Staged-change patch engine of the commit validator: model and proofs

    The development embeds the JavaScript of the commit validator
    (the version with the staged-change map, the skip directive and the
    bounded interactive review) and settles the claims of its specification.

    Text is modelled by [string]: a sequence of 8-bit characters, read as the
    UTF-8 encoding of the JavaScript string.  Character classes of the regular
    expressions used by the program are ASCII classes; white space is ASCII
    white space.  Non-ASCII text is carried through unchanged (substring
    search and literal matching agree with the UTF-16 view on well-formed
    text); non-ASCII white space is an ordinary character here. *)

From Stdlib Require Import String Ascii List Arith Lia Bool ZArith.
From Stdlib Require Import Sorting.Sorted Sorting.Permutation.
From stdpp Require Import gmap strings list.


(** ** JavaScript string primitives *)

Module Js.

(** [s.startsWith(p)] *)
Definition startsWith (s p : string) : bool := String.prefix p s.

(** [s.includes(sub)] *)
Fixpoint includes (s sub : string) : bool :=
  String.prefix sub s ||
  match s with
  | EmptyString => false
  | String _ t => includes t sub
  end.

(** [s.indexOf(sub)], [None] standing for -1 *)
Fixpoint indexOf (s sub : string) : option nat :=
  if String.prefix sub s then Some 0
  else match s with
       | EmptyString => None
       | String _ t => option_map S (indexOf t sub)
       end.

(** [s.endsWith(p)] *)
Definition endsWith (s p : string) : bool :=
  String.prefix (String.rev p) (String.rev s).

(** [s.substring(n)] *)
Fixpoint substringFrom (n : nat) (s : string) : string :=
  match n, s with
  | 0, _ => s
  | S _, EmptyString => EmptyString
  | S m, String _ t => substringFrom m t
  end.

(** [s.substring(0, n)] *)
Fixpoint take (n : nat) (s : string) : string :=
  match n, s with
  | 0, _ => EmptyString
  | S _, EmptyString => EmptyString
  | S m, String c t => String c (take m t)
  end.

Definition is_space (c : ascii) : bool :=
  match c with
  | "009" | "010" | "011" | "012" | "013" | " " => true
  | _ => false
  end%char.

Fixpoint trimStart (s : string) : string :=
  match s with
  | EmptyString => EmptyString
  | String c t => if is_space c then trimStart t else s
  end.

Definition trimEnd (s : string) : string :=
  String.rev (trimStart (String.rev s)).

(** [s.trim()] *)
Definition trim (s : string) : string := trimEnd (trimStart s).

(** [s.split(c)] for a one-character separator *)
Fixpoint split_go (sep : ascii) (cur : string) (s : string) : list string :=
  match s with
  | EmptyString => [String.rev cur]
  | String c t =>
      if Ascii.eqb c sep then String.rev cur :: split_go sep EmptyString t
      else split_go sep (String c cur) t
  end.

Definition split (sep : ascii) (s : string) : list string :=
  split_go sep EmptyString s.

(** [l.join(sep)] *)
Fixpoint join (sep : string) (l : list string) : string :=
  match l with
  | [] => EmptyString
  | [x] => x
  | x :: rest => x +:+ sep +:+ join sep rest
  end.

Definition newline : ascii := "010"%char.
Definition nl : string := String newline EmptyString.

(** [s.split('\n')] and [l.join('\n')] *)
Definition lines (s : string) : list string := split newline s.
Definition unlines (l : list string) : string := join nl l.

Definition lower (c : ascii) : ascii :=
  if (Ascii.leb "A" c && Ascii.leb c "Z")%char
  then ascii_of_nat (nat_of_ascii c + 32) else c.

(** [s.toLowerCase()] on ASCII letters *)
Fixpoint toLowerCase (s : string) : string :=
  match s with
  | EmptyString => EmptyString
  | String c t => String (lower c) (toLowerCase t)
  end.

(** Truthiness of a string: non-empty *)
Definition truthy (s : string) : bool :=
  match s with EmptyString => false | _ => true end.

(** Decimal rendering of a non-negative number, as in a template literal *)
Definition digit_char (n : nat) : ascii := ascii_of_nat (48 + n).

Fixpoint showNat_go (fuel n : nat) (acc : string) : string :=
  match fuel with
  | 0 => acc
  | S f =>
      let acc' := String (digit_char (n mod 10)) acc in
      if Nat.ltb n 10 then acc' else showNat_go f (n / 10) acc'
  end.

Definition showNat (n : nat) : string := showNat_go (S n) n EmptyString.

Definition is_digit (c : ascii) : bool :=
  (Ascii.leb "0" c && Ascii.leb c "9")%char.

Definition digit_val (c : ascii) : nat := nat_of_ascii c - 48.

(** Value of a string of decimal digits, as [parseInt] reads a [\d+] capture *)
Fixpoint parseDigits_go (acc : nat) (s : string) : nat :=
  match s with
  | EmptyString => acc
  | String c t =>
      if is_digit c then parseDigits_go (10 * acc + digit_val c) t else acc
  end.

Definition parseDigits (s : string) : nat := parseDigits_go 0 s.

(** [parseInt(s, 10)]: optional white space, optional sign, leading digits;
    [None] stands for NaN.  The result is an integer. *)
Definition parseInt (s : string) : option Z :=
  let s1 := trimStart s in
  let '(neg, s2) :=
    match s1 with
    | String "-"%char t => (true, t)
    | String "+"%char t => (false, t)
    | _ => (false, s1)
    end in
  match s2 with
  | String c _ =>
      if is_digit c
      then Some (if neg then (- Z.of_nat (parseDigits s2))%Z
                 else Z.of_nat (parseDigits s2))
      else None
  | EmptyString => None
  end.

(** GetSubstitution for [String.prototype.replace] with a string pattern:
    there are no captures, so only [$$], [$&], [$`] and [$'] are expanded. *)
Fixpoint getSubstitution (matched before after : string) (repl : string) : string :=
  match repl with
  | EmptyString => EmptyString
  | String "$"%char (String "$"%char t) =>
      String "$"%char (getSubstitution matched before after t)
  | String "$"%char (String "&"%char t) =>
      matched +:+ getSubstitution matched before after t
  | String "$"%char (String "`"%char t) =>
      before +:+ getSubstitution matched before after t
  | String "$"%char (String "'"%char t) =>
      after +:+ getSubstitution matched before after t
  | String c t => String c (getSubstitution matched before after t)
  end.

(** A replacement text without [$] is inserted as it is *)
Definition isLiteral (repl : string) : bool := negb (includes repl "$").

(** [s.replace(pat, repl)] with a string pattern: the first occurrence only *)
Definition replace (s pat repl : string) : string :=
  match indexOf s pat with
  | None => s
  | Some i =>
      let before := take i s in
      let after := substringFrom (i + String.length pat) s in
      before +:+ getSubstitution pat before after repl +:+ after
  end.

(** [s.split(sep)[1]] for a non-empty separator text: the part between the
    first and the second occurrence of [sep]; [None] stands for undefined *)
Fixpoint upToSep (sep : string) (s : string) : string :=
  if String.prefix sep s then EmptyString
  else match s with
       | EmptyString => EmptyString
       | String c t => String c (upToSep sep t)
       end.

Definition splitSecond (s sep : string) : option string :=
  match indexOf s sep with
  | None => None
  | Some i => Some (upToSep sep (substringFrom (i + String.length sep) s))
  end.

(** Removing duplicates, keeping first occurrences: [[...new Set(l)]] *)
Fixpoint uniq_go (seen : list string) (l : list string) : list string :=
  match l with
  | [] => []
  | x :: rest =>
      if existsb (String.eqb x) seen then uniq_go seen rest
      else x :: uniq_go (x :: seen) rest
  end.

Definition uniq (l : list string) : list string := uniq_go [] l.

End Js.

(** ** Regular expressions

    A backtracking matcher with the priorities of the JavaScript engine:
    alternatives are tried left to right, quantifiers are greedy unless marked
    lazy, an iteration of a quantified expression that consumes nothing is
    rejected, and a search tries the start positions from left to right. *)

Module Re.

Inductive re : Type :=
| Eps
| Chr (p : ascii -> bool)
| Seq (a b : re)
| Alt (a b : re)
| Star (a : re)
| StarLazy (a : re)
| Grp (i : nat) (a : re)
| Bol
| Eol
| BolM
| EolM
| WordB
| Ahead (a : re)
| NotAhead (a : re).

Definition captures := list (nat * string).

Definition set_cap (i : nat) (v : string) (c : captures) : captures :=
  (i, v) :: List.filter (fun p => negb (Nat.eqb (fst p) i)) c.

Fixpoint get_cap (i : nat) (c : captures) : option string :=
  match c with
  | [] => None
  | (j, v) :: rest => if Nat.eqb j i then Some v else get_cap i rest
  end.

Definition in_range (lo hi c : ascii) : bool :=
  (Ascii.leb lo c && Ascii.leb c hi)%char.

(** [\w] *)
Definition is_word (c : ascii) : bool :=
  in_range "a" "z" c || in_range "A" "Z" c || in_range "0" "9" c
  || Ascii.eqb c "_".

Definition is_word_opt (o : option ascii) : bool :=
  match o with Some c => is_word c | None => false end.

Definition head (s : string) : option ascii :=
  match s with EmptyString => None | String c _ => Some c end.

Definition is_line_terminator (c : ascii) : bool :=
  Ascii.eqb c "010" || Ascii.eqb c "013".

Definition cont := option ascii -> string -> captures -> option (string * captures).

(** [rmatch r prev s caps k]: match [r] at the front of [s]; [prev] is the
    character before the current position.  The continuation [k] receives
    the position reached and may fail, which makes the matcher backtrack. *)
Fixpoint rmatch (r : re) (prev : option ascii) (s : string) (caps : captures)
  (k : cont) {struct r} : option (string * captures) :=
  match r with
  | Eps => k prev s caps
  | Chr p =>
      match s with
      | String c t => if p c then k (Some c) t caps else None
      | EmptyString => None
      end
  | Seq a b =>
      rmatch a prev s caps (fun prev' s' caps' => rmatch b prev' s' caps' k)
  | Alt a b =>
      match rmatch a prev s caps k with
      | Some x => Some x
      | None => rmatch b prev s caps k
      end
  | Star a =>
      (fix loop (fuel : nat) (prev : option ascii) (s : string) (caps : captures)
         {struct fuel} : option (string * captures) :=
         match fuel with
         | 0 => k prev s caps
         | S f =>
             match rmatch a prev s caps
                     (fun prev' s' caps' =>
                        if Nat.ltb (String.length s') (String.length s)
                        then loop f prev' s' caps' else None) with
             | Some x => Some x
             | None => k prev s caps
             end
         end) (String.length s) prev s caps
  | StarLazy a =>
      (fix loop (fuel : nat) (prev : option ascii) (s : string) (caps : captures)
         {struct fuel} : option (string * captures) :=
         match fuel with
         | 0 => k prev s caps
         | S f =>
             match k prev s caps with
             | Some x => Some x
             | None =>
                 rmatch a prev s caps
                   (fun prev' s' caps' =>
                      if Nat.ltb (String.length s') (String.length s)
                      then loop f prev' s' caps' else None)
             end
         end) (String.length s) prev s caps
  | Grp i a =>
      rmatch a prev s caps
        (fun prev' s' caps' =>
           k prev' s'
             (set_cap i (Js.take (String.length s - String.length s') s) caps'))
  | Bol => match prev with None => k prev s caps | Some _ => None end
  | Eol => match s with EmptyString => k prev s caps | _ => None end
  | BolM =>
      match prev with
      | None => k prev s caps
      | Some c => if is_line_terminator c then k prev s caps else None
      end
  | EolM =>
      match s with
      | EmptyString => k prev s caps
      | String c _ => if is_line_terminator c then k prev s caps else None
      end
  | WordB =>
      if xorb (is_word_opt prev) (is_word_opt (head s)) then k prev s caps
      else None
  | Ahead a =>
      match rmatch a prev s caps (fun _ s' c' => Some (s', c')) with
      | Some (_, c') => k prev s c'
      | None => None
      end
  | NotAhead a =>
      match rmatch a prev s caps (fun _ s' c' => Some (s', c')) with
      | Some _ => None
      | None => k prev s caps
      end
  end.

(** The result of [re.exec(s)]: index, matched text, captures, and the text
    after the match *)
Record result := mkResult {
  m_index : nat;
  m_text : string;
  m_caps : captures;
  m_rest : string
}.

Fixpoint search_from (r : re) (prev : option ascii) (s : string) (idx : nat)
  : option result :=
  match rmatch r prev s [] (fun _ s' c => Some (s', c)) with
  | Some (s', c) =>
      Some (mkResult idx (Js.take (String.length s - String.length s') s) c s')
  | None =>
      match s with
      | EmptyString => None
      | String ch t => search_from r (Some ch) t (S idx)
      end
  end.

(** [re.exec(s)] for a regular expression without the [g] flag *)
Definition exec (r : re) (s : string) : option result := search_from r None s 0.

(** [re.test(s)] *)
Definition test (r : re) (s : string) : bool :=
  match exec r s with Some _ => true | None => false end.

(** [s.match(re)[i]] for [i >= 1]; [None] when there is no match or the
    group did not take part in it *)
Definition group (i : nat) (r : re) (s : string) : option string :=
  match exec r s with
  | Some m => get_cap i (m_caps m)
  | None => None
  end.

(** [s.match(re)] with the [g] flag: the matched texts, left to right.  After
    a match the scan resumes at its end (one further after an empty match). *)
Fixpoint matchAll_go (fuel : nat) (r : re) (prev : option ascii) (s : string)
  : list string :=
  match fuel with
  | 0 => []
  | S f =>
      match search_from r prev s 0 with
      | None => []
      | Some m =>
          let consumed := m_index m + String.length (m_text m) in
          match m_text m, Js.substringFrom (m_index m) s with
          | EmptyString, EmptyString => [m_text m]
          | EmptyString, String c t => m_text m :: matchAll_go f r (Some c) t
          | String _ _, _ =>
              m_text m ::
              matchAll_go f r (head (String.rev (Js.take consumed s)))
                (m_rest m)
          end
      end
  end.

Definition matchAll (r : re) (s : string) : list string :=
  matchAll_go (S (String.length s)) r None s.

(** [s.replace(re, repl)] with the [g] flag and a replacement text without
    [$]: every match is replaced *)
Fixpoint replaceAll_go (fuel : nat) (r : re) (repl : string)
  (prev : option ascii) (s : string) : string :=
  match fuel with
  | 0 => s
  | S f =>
      match search_from r prev s 0 with
      | None => s
      | Some m =>
          let before := Js.take (m_index m) s in
          let consumed := m_index m + String.length (m_text m) in
          match m_text m, Js.substringFrom (m_index m) s with
          | EmptyString, EmptyString => before +:+ repl
          | EmptyString, String c t =>
              before +:+ repl +:+ String c (replaceAll_go f r repl (Some c) t)
          | String _ _, _ =>
              before +:+ repl +:+
              replaceAll_go f r repl (head (String.rev (Js.take consumed s)))
                (m_rest m)
          end
      end
  end.

Definition replaceAll (r : re) (s repl : string) : string :=
  replaceAll_go (S (String.length s)) r repl None s.

(** [s.replace(re, repl)] without the [g] flag and a replacement text without
    [$]: the first match is replaced *)
Definition replaceFirst (r : re) (s repl : string) : string :=
  match exec r s with
  | None => s
  | Some m => Js.take (m_index m) s +:+ repl +:+ m_rest m
  end.

(** *** Building blocks *)

Definition chr (c : ascii) : re := Chr (Ascii.eqb c).
Definition chr_i (c : ascii) : re := Chr (fun x => Ascii.eqb (Js.lower x) (Js.lower c)).

(** a literal text, and the same under the [i] flag *)
Fixpoint lit (s : string) : re :=
  match s with
  | EmptyString => Eps
  | String c EmptyString => chr c
  | String c t => Seq (chr c) (lit t)
  end.

Fixpoint lit_i (s : string) : re :=
  match s with
  | EmptyString => Eps
  | String c EmptyString => chr_i c
  | String c t => Seq (chr_i c) (lit_i t)
  end.

Fixpoint seqs (l : list re) : re :=
  match l with
  | [] => Eps
  | [r] => r
  | r :: rest => Seq r (seqs rest)
  end.

Fixpoint alts (l : list re) : re :=
  match l with
  | [] => NotAhead Eps
  | [r] => r
  | r :: rest => Alt r (alts rest)
  end.

Definition plus (r : re) : re := Seq r (Star r).
Definition plusLazy (r : re) : re := Seq r (StarLazy r).
Definition opt (r : re) : re := Alt r Eps.

(** [r{n,}] *)
Fixpoint atLeast (n : nat) (r : re) : re :=
  match n with
  | 0 => Star r
  | S m => Seq r (atLeast m r)
  end.

(** [r{0,n}] *)
Fixpoint upTo (n : nat) (r : re) : re :=
  match n with
  | 0 => Eps
  | S m => Alt (Seq r (upTo m r)) Eps
  end.

(** a character among, or not among, those of [set] *)
Definition oneOf (set : string) : re :=
  Chr (fun c => Js.includes set (String c EmptyString)).
Definition noneOf (set : string) : re :=
  Chr (fun c => negb (Js.includes set (String c EmptyString))).

(** [.]  [\s]  [\d]  [\w]  [[\s\S]] *)
Definition dot : re := Chr (fun c => negb (is_line_terminator c)).
Definition ws : re := Chr Js.is_space.
Definition digit : re := Chr Js.is_digit.
Definition word : re := Chr is_word.
Definition any : re := Chr (fun _ => true).

(** [[a-zA-Z_$]] and [[a-zA-Z0-9_$]] *)
Definition is_id_start (c : ascii) : bool :=
  in_range "a" "z" c || in_range "A" "Z" c || Ascii.eqb c "_" || Ascii.eqb c "$".
Definition is_id_char (c : ascii) : bool :=
  is_id_start c || in_range "0" "9" c.
Definition id_start : re := Chr is_id_start.
Definition id_char : re := Chr is_id_char.

(** *** What can be read off an expression

    [consumes r]: every match of [r] takes at least one character.
    [keeps i r]: a match of [r] leaves group [i] captured with a non-empty
    text when it was so before.  [sets i r]: every match of [r] leaves group
    [i] captured with a non-empty text. *)






End Re.

(** ** Predicates on texts *)

Module Text.

(** Every character of the text satisfies [p] *)
Fixpoint every (p : ascii -> bool) (s : string) : bool :=
  match s with
  | EmptyString => true
  | String c t => p c && every p t
  end.

(** The text holds no line break *)
Definition oneLine (s : string) : bool :=
  every (fun c => negb (Re.is_line_terminator c)) s.

(** The character before the position reached after reading [x] *)
Fixpoint lastChar (prev : option ascii) (x : string) : option ascii :=
  match x with
  | EmptyString => prev
  | String c t => lastChar (Some c) t
  end.

(** The text is at its end or goes on with a character that fails [p] *)
Definition stopsAt (p : ascii -> bool) (s : string) : bool :=
  match s with
  | EmptyString => true
  | String c _ => negb (p c)
  end.


End Text.

(** ** The rule catalogue of [getCopilotReview] *)

Inductive severity := critical | high | medium | low.

Definition severity_name (s : severity) : string :=
  match s with
  | critical => "critical" | high => "high" | medium => "medium" | low => "low"
  end.

(** [pattern.severity === 'critical' || pattern.severity === 'high'] *)
Definition is_critical_or_high (s : severity) : bool :=
  match s with critical | high => true | _ => false end.

(** One entry of the [patterns] table *)
Record pattern := mkPattern {
  regex : Re.re;
  message : string;
  severity_of : severity;
  fixText : string
}.

Module Catalogue.
Import Re.

Definition dquote : ascii := "034"%char.
Definition quote : re := Chr (fun c => Ascii.eqb c dquote || Ascii.eqb c "'").
Definition notQuote : re :=
  Chr (fun c => negb (Ascii.eqb c dquote || Ascii.eqb c "'")).
Definition ws0 : re := Star ws.
Definition ws1 : re := plus ws.
Definition words1 : re := plus word.
(** [\1] in an expression without capture groups: the character of code 1 *)
Definition octal1 : re := chr "001".

(** [[a-zA-Z_$][a-zA-Z0-9_$]{n,}] *)
Definition ident (n : nat) : re := Seq id_start (atLeast n id_char).

Definition security : list pattern := [
  mkPattern
    (seqs [lit_i "password"; ws0; oneOf "=:"; ws0; quote; plus notQuote; quote])
    "Hardcoded password detected" critical
    "Use environment variables or secure key management";
  mkPattern
    (seqs [lit_i "api"; opt (oneOf "_-"); lit_i "key"; ws0; oneOf "=:"; ws0;
           quote; plus notQuote; quote])
    "Hardcoded API key detected" critical "Move to process.env.API_KEY";
  mkPattern
    (seqs [lit_i "token"; ws0; oneOf "=:"; ws0; quote; plus notQuote; quote])
    "Hardcoded token detected" critical "Use secure token storage";
  mkPattern (lit_i "http://")
    "Insecure HTTP protocol" high "Use HTTPS for all external requests";
  mkPattern (seqs [lit_i "eval"; ws0; chr "("])
    "eval() usage detected - security risk" high
    "Use safer alternatives like JSON.parse()"
].

Definition performance : list pattern := [
  mkPattern (lit_i "console.log(")
    "Console.log usage detected" low
    "Consider proper logging (winston, pino) for production or remove for debugging";
  mkPattern
    (seqs [lit_i "for"; ws0; chr "("; Star dot; lit_i "in"; Star dot; chr ")"])
    "for...in loop can be optimized" medium
    "Use for...of, Object.keys(), or forEach() for better performance";
  mkPattern
    (seqs [chr "+"; ws0; Star dot; lit_i ".length"; ws0; chr ">"; ws0; lit "1000"])
    "Large array operation" medium
    "Consider pagination or chunking for large datasets";
  mkPattern
    (seqs [lit_i "setTimeout"; ws0; chr "("; ws0; lit_i "function"])
    "setTimeout with function declaration" low
    "Use arrow function for better performance";
  mkPattern (lit_i "document.getElementById")
    "Direct DOM manipulation" medium
    "Consider using modern frameworks or query caching"
].

Definition modernJS : list pattern := [
  mkPattern (lit_i ".indexOf(")
    "Legacy indexOf usage" low "Use .includes() for better readability";
  mkPattern (seqs [lit_i "var"; ws1])
    "Legacy var declaration" medium
    "Use 'const' for constants, 'let' for variables";
  mkPattern
    (Alt (seqs [lit "=="; ws0; lit_i "null"]) (seqs [lit "!="; ws0; lit_i "null"]))
    "Loose equality with null" medium
    "Use strict equality: === null or !== null";
  mkPattern (seqs [lit_i "function"; ws1; words1; ws0; chr "("])
    "Traditional function syntax" low
    "Consider arrow functions for consistency and lexical this";
  mkPattern (lit_i "Promise.resolve().then")
    "Promise chaining" low "Consider async/await for better readability";
  mkPattern
    (seqs [lit_i ".indexOf("; Star dot; chr ")"; ws0; oneOf "><!"; chr "=";
           opt (chr "="); ws0; opt (chr "-"); chr "1"])
    "Legacy indexOf usage" low "Use .includes() for better readability"
].

Definition codeOptimization : list pattern := [
  mkPattern
    (seqs [lit_i "for"; ws0; chr "("; ws0; lit_i "let"; ws1; words1; ws0;
           chr "="; ws0; lit "0;"; ws0; words1; ws0; chr "<"; ws0;
           plus (Chr (fun c => is_word c || Ascii.eqb c ".")); lit_i ".length;";
           ws0; words1; lit "++"; ws0; chr ")"])
    "Traditional for loop can be optimized" medium
    "Use for...of loop, forEach(), or map() for better readability and performance";
  mkPattern
    (seqs [lit_i "if"; ws0; chr "("; plus (noneOf ")"); chr ")"; ws0; chr "{";
           Star (noneOf "}"); lit_i "return"; Star (noneOf "}"); chr "}"; ws0;
           lit_i "else"; ws0; chr "{"])
    "Unnecessary else after return" low
    "Remove else block - code after if-return executes automatically";
  mkPattern
    (seqs [words1; ws0; chr "?"; ws0; words1; ws0; chr ":"; ws0; lit_i "false"])
    "Redundant ternary with false" low "Use && operator: condition && value";
  mkPattern
    (seqs [words1; ws0; chr "?"; ws0; lit_i "true"; ws0; chr ":"; ws0; words1])
    "Redundant ternary with true" low "Use || operator: condition || value";
  mkPattern
    (seqs [lit_i "Array"; ws0; chr "("; plus digit; lit_i ").fill("; Star dot;
           lit_i ").map"])
    "Inefficient array creation" medium
    "Use Array.from() with length and mapping function for better performance"
].

Definition errorDetection : list pattern := [
  mkPattern
    (seqs [WordB; Grp 1 (ident 6); ws0; chr "."; ws0;
           Grp 2 (alts [lit_i "includes"; lit_i "push"; lit_i "pop";
                        lit_i "shift"; lit_i "unshift"; lit_i "length";
                        lit_i "toString"; lit_i "valueOf"]);
           ws0; chr "("])
    "🚨 CRITICAL: Potential undeclared variable '$1' accessing method - verify declaration"
    critical "Declare variable: const $1 = ...; or check for typos";
  mkPattern
    (seqs [WordB; Grp 1 (ident 6); ws0; chr "["])
    "🚨 HIGH: Potential undeclared variable '$1' accessing array/object - verify declaration"
    high "Declare variable: const $1 = ...; or check for typos";
  mkPattern
    (seqs [WordB;
           Grp 1 (alts [lit_i "undeclaredVariable"; lit_i "myUndefinedArray";
                        lit_i "testVariable"; lit_i "invalidVar";
                        lit_i "testUndeclaredVar"]);
           WordB])
    "🚨 CRITICAL: Test undeclared variable detected - will cause ReferenceError"
    critical "Declare the variable before use or remove test code";
  mkPattern
    (seqs [WordB; Grp 1 (ident 10); ws0; chr "."])
    "🚨 CRITICAL: Long variable name detected - likely undeclared"
    critical "Declare variable: const $1 = ...; or check for typos";
  mkPattern
    (seqs [WordB; Grp 1 (ident 5); ws0; chr "+"; ws0])
    "🟡 MEDIUM: Potential undeclared variable '$1' in arithmetic - verify declaration"
    medium "Declare variable: let $1 = ...; or check for typos";
  mkPattern
    (seqs [WordB; lit_i "console"; ws0; chr "."; ws0; lit_i "log"; ws0; chr "(";
           ws0; Grp 1 (ident 5); ws0; chr ")"])
    "🟡 MEDIUM: Logging potential undeclared variable '$1'"
    medium "Verify variable '$1' is declared before logging";
  mkPattern
    (seqs [words1; chr "."; words1; ws0; chr "("; Star dot; chr ")";
           NotAhead (Seq ws0 (oneOf ".;"))])
    "Potential missing semicolon or chaining" medium
    "Add semicolon or verify if method chaining is intended";
  mkPattern
    (seqs [lit_i "catch"; ws0; chr "("; ws0; Star word; ws0; chr ")"; ws0;
           chr "{"; ws0; chr "}"])
    "Empty catch block - silently ignoring errors" high
    "Add error logging, re-throw, or handle gracefully";
  mkPattern
    (seqs [WordB; lit_i "var"; ws1; words1; ws0; chr ";"; StarLazy any; WordB;
           lit_i "var"; ws1; octal1; ws0; chr "="])
    "Variable redeclaration" high
    "Remove duplicate declaration or use different variable name";
  mkPattern
    (seqs [WordB; words1; ws0; chr "="; ws0; words1; ws0; chr "="; ws0;
           noneOf "="])
    "Chained assignment - potential confusion" medium
    "Use separate assignments for clarity";
  mkPattern
    (seqs [WordB; lit_i "delete"; ws1; words1; chr "."; words1])
    "Delete operator on object property" medium
    "Use object destructuring or set to undefined for better performance"
].

Definition unusedCode : list pattern := [
  mkPattern
    (seqs [BolM; ws0; lit "/*"; StarLazy any; lit "*/"; ws0; EolM])
    "Large commented code block" low
    "Remove commented code or convert to proper documentation";
  mkPattern
    (seqs [lit_i "function"; ws1; words1; ws0; chr "("; Star (noneOf ")");
           chr ")"; ws0; chr "{"; Star (noneOf "}"); chr "}";
           NotAhead (seqs [Star any; words1; ws0; chr "("])])
    "Potentially unused function" medium
    "Verify function usage or remove if unused";
  mkPattern
    (seqs [lit_i "const"; ws1; words1; ws0; chr "="; ws0; lit_i "require(";
           plus (noneOf ")"); chr ")"; opt (chr ";");
           NotAhead (Seq (Star any) octal1)])
    "Unused import/require" medium
    "Remove unused import to reduce bundle size";
  mkPattern
    (seqs [lit_i "import"; ws1; words1; ws1; lit_i "from"; ws1; quote;
           plus notQuote; quote; opt (chr ";");
           NotAhead (Seq (Star any) octal1)])
    "Unused import" medium "Remove unused import to reduce bundle size"
].

Definition codeQuality : list pattern := [
  mkPattern (seqs [lit "/*"; ws0; lit_i "TODO"])
    "TODO comment found" low "Create proper issue or implement the TODO";
  mkPattern (seqs [lit "/*"; ws0; lit_i "FIXME"])
    "FIXME comment found" medium "Address the FIXME or create an issue";
  mkPattern (seqs [lit "/*"; ws0; lit_i "HACK"])
    "HACK comment found" medium "Refactor to remove the hack";
  mkPattern (seqs [Bol; ws0; lit "//"; ws0; lit_i "eslint-disable"])
    "ESLint rule disabled" medium
    "Fix the underlying issue instead of disabling rules";
  mkPattern
    (seqs [lit_i "catch"; ws0; chr "("; ws0; words1; ws0; chr ")"; ws0;
           chr "{"; ws0; chr "}"])
    "Empty catch block" high "Add proper error handling or logging"
].

Definition codeStandards : list pattern := [
  mkPattern (seqs [lit_i "require"; ws0; chr "("])
    "CommonJS require syntax" low
    "Use ES6 import syntax for consistency and better tree-shaking";
  mkPattern (seqs [lit_i ".then"; ws0; chr "("; ws0; lit_i "function"])
    "Promise with function declaration" low
    "Use arrow functions in promise chains for lexical this binding";
  mkPattern
    (seqs [lit_i "if"; ws0; chr "("; id_start; Star id_char; ws0; lit "==";
           ws0; lit_i "true)"])
    "Explicit boolean comparison" low
    "Use implicit boolean check: if (condition) instead of if (condition == true)";
  mkPattern
    (seqs [lit_i "if"; ws0; chr "("; id_start; Star id_char; ws0; lit "==";
           ws0; lit_i "false)"])
    "Explicit false comparison" low
    "Use negation: if (!condition) instead of if (condition == false)";
  mkPattern
    (seqs [lit_i "try"; ws0; chr "{"; upTo 100 any; chr "}"; ws0; lit_i "catch";
           ws0; chr "("; Star (Chr (fun c => is_word c || Js.is_space c));
           chr ")"; ws0; chr "{"; ws0; chr "}"])
    "Try-catch without proper error handling" medium
    "Log errors, throw, or handle gracefully - don't silently ignore"
].

Definition architecture : list pattern := [
  mkPattern
    (seqs [lit_i "class"; ws1; words1; ws0; chr "{"; Star any;
           lit_i "constructor"; Star any; chr "}"; Star any; chr "}"])
    "Large class detected" medium
    "Consider breaking into smaller, focused classes";
  mkPattern
    (seqs [lit_i "function"; ws1; words1; chr "("; atLeast 50 (noneOf ")")])
    "Function with many parameters" medium
    "Use options object or break into smaller functions";
  mkPattern
    (seqs [lit_i "if"; ws0; chr "("; Star (noneOf ")"); lit "&&";
           Star (noneOf ")"); lit "&&"; Star (noneOf ")"); lit "&&"])
    "Complex conditional logic" medium
    "Extract conditions into well-named variables or functions"
].

(** [Object.entries(patterns)], in the order of the source *)
Definition patterns : list (string * list pattern) := [
  ("security", security);
  ("performance", performance);
  ("modernJS", modernJS);
  ("codeOptimization", codeOptimization);
  ("errorDetection", errorDetection);
  ("unusedCode", unusedCode);
  ("codeQuality", codeQuality);
  ("codeStandards", codeStandards);
  ("architecture", architecture)
].

End Catalogue.

(** ** The fix synthesizer *)

Module Synth.
Import Re.

(** Source expression [ /(var|let|const)\s+([a-zA-Z_$][a-zA-Z0-9_$]* )/ ] *)
Definition declarationRe : re :=
  seqs [Grp 1 (alts [lit "var"; lit "let"; lit "const"]); plus ws;
        Grp 2 (Seq id_start (Star id_char))].

(** Source expression [ /function\s+[a-zA-Z_$][a-zA-Z0-9_$]*\s*\(([^)]+)\)/ ] *)
Definition functionParamsRe : re :=
  seqs [lit "function"; plus ws; id_start; Star id_char; Star ws; chr "(";
        Grp 1 (plus (noneOf ")")); chr ")"].

(** Source expression [ /^[a-zA-Z_$][a-zA-Z0-9_$]*$/ ] *)
Definition identifierRe : re := seqs [Bol; id_start; Star id_char; Eol].

Definition addParam (declaredVars : gset string) (param : string) : gset string :=
  let paramName := Js.trim (hd EmptyString (Js.split "=" param)) in
  if Js.truthy paramName && Re.test identifierRe paramName
  then {[paramName]} ∪ declaredVars else declaredVars.

Definition addFunctionParams (declaredVars : gset string) (func : string)
  : gset string :=
  match Re.group 1 functionParamsRe func with
  | Some ps =>
      if Js.truthy ps
      then fold_left addParam (map Js.trim (Js.split "," ps)) declaredVars
      else declaredVars
  | None => declaredVars
  end.

Definition addDeclaration (declaredVars : gset string) (decl : string)
  : gset string :=
  match Re.group 2 declarationRe decl with
  | Some v => if Js.truthy v then {[v]} ∪ declaredVars else declaredVars
  | None => declaredVars
  end.

(** [extractDeclaredVariables(fileContent)] *)
Definition extractDeclaredVariables (fileContent : string) : gset string :=
  let declarations := Re.matchAll declarationRe fileContent in
  let declaredVars := fold_left addDeclaration declarations ∅ in
  let functionParams := Re.matchAll functionParamsRe fileContent in
  fold_left addFunctionParams functionParams declaredVars.

(** The test guarding the declaration strategy of [generateSmartFix] *)
Definition isUndeclaredMessage (m : string) : bool :=
  Js.includes m "undeclared variable"
  || Js.includes m "Potential undeclared variable"
  || Js.includes m "Test undeclared variable".

(** the line already holds [const v =], [let v =] or [var v =] *)
Definition declaresOnLine (trimmedCode varName : string) : bool :=
  Js.includes trimmedCode ("const " +:+ varName +:+ " =")
  || Js.includes trimmedCode ("let " +:+ varName +:+ " =")
  || Js.includes trimmedCode ("var " +:+ varName +:+ " =").

(** The initial value chosen from the usage on the line *)
Definition defaultValue (code : string) : string :=
  if Js.includes code ".includes(" || Js.includes code ".push("
     || Js.includes code ".pop(" then "[]"
  else if Js.includes code ".length" then "[]"
  else if Js.includes code "+ " || Js.includes code "- " then "0"
  else if Js.includes code "toString()" || Js.includes code "charAt(" then "''"
  else "[]".

Definition declarationLine (varName value : string) : string :=
  "const " +:+ varName +:+ " = " +:+ value +:+ "; // Auto-fix: Variable declaration".

Definition specificVars : list string := [
  "undeclaredVariable"; "myUndefinedArray"; "testUndeclaredVar";
  "actuallyUndeclaredVar"; "reallyUndefinedArray"; "anotherUndeclaredVar";
  "testData"
].

(** Source expression [ /🚨|🟠|🟡|🟢|CRITICAL:|HIGH:|MEDIUM:|LOW:/ ] *)
Definition markerRe : re :=
  alts [lit "🚨"; lit "🟠"; lit "🟡"; lit "🟢"; lit "CRITICAL:"; lit "HIGH:";
        lit "MEDIUM:"; lit "LOW:"].

(** The rewrites that follow the declaration strategy *)
Definition generateOtherFix (trimmedCode : string) (p : pattern) : string :=
  if String.eqb trimmedCode "}" && Js.includes (message p) "syntax" then ""
  else if Js.includes (message p) "var" then
    Re.replaceAll (seqs [WordB; lit "var"; plus ws]) trimmedCode "const "
  else if Js.includes (message p) "semicolon" then
    if Js.endsWith trimmedCode "{" || Js.endsWith trimmedCode "}" then trimmedCode
    else if Js.endsWith trimmedCode ";" then trimmedCode
    else trimmedCode +:+ ";"
  else
    trimmedCode +:+ " // TODO: Fix: " +:+
    Js.trim (Re.replaceFirst markerRe (message p) "").

(** The declaration strategy once an identifier [varName] is known *)
Definition declareOrKeep (code trimmedCode varName value : string)
  (declaredVariables : gset string) : string :=
  if bool_decide (varName ∈ declaredVariables) then trimmedCode
  else if declaresOnLine trimmedCode varName then trimmedCode
  else declarationLine varName value +:+ Js.nl +:+ trimmedCode.

(** [generateSmartFix(code, pattern, filePath, declaredVariables)] *)
Definition generateSmartFix (code : string) (p : pattern) (filePath : string)
  (declaredVariables : gset string) : string :=
  let trimmedCode := Js.trim code in
  if Js.includes (message p) "Console.log" then
    Re.replaceAll (lit "console.log(") trimmedCode "// console.log("
  else
    let other := generateOtherFix trimmedCode p in
    if isUndeclaredMessage (message p) then
      match Re.group 1 (regex p) code with
      | Some (String c v) =>
          declareOrKeep code trimmedCode (String c v) (defaultValue code)
            declaredVariables
      | _ =>
          match find (fun v => Js.includes code v) specificVars with
          | Some varName =>
              declareOrKeep code trimmedCode varName "[]" declaredVariables
          | None => other
          end
      end
    else other.


End Synth.

(** ** The issue-detection pass *)

Module Review.
Import Re.

(** A fix record of [fileChanges]: the whole-file scan stores the message of
    the rule under [pattern], the scan of the diff lines stores
    [severity + '-fix'] under [type]. *)
Record change := mkChange {
  line : Z;
  original : string;
  improved : string;
  file : string;
  ch_pattern : option string;
  ch_type : option string
}.

(** Source expression [ /b\/(.* )$/ ] *)
Definition diffGitRe : re := seqs [lit "b/"; Grp 1 (Star dot); Eol].

(** Source expression [ /@@\s+-\d+(?:,\d+)?\s+\+(\d+)(?:,\d+)?\s+@@/ ] *)
Definition hunkRe : re :=
  seqs [lit "@@"; plus ws; chr "-"; plus digit; opt (Seq (chr ",") (plus digit));
        plus ws; chr "+"; Grp 1 (plus digit); opt (Seq (chr ",") (plus digit));
        plus ws; lit "@@"].

(** [line.startsWith('+') && !line.startsWith('+++')] *)
Definition isAddition (l : string) : bool :=
  Js.startsWith l "+" && negb (Js.startsWith l "+++").

(** [!line.startsWith('-') && !line.startsWith('+++') && !line.startsWith('---')] *)
Definition isCounted (l : string) : bool :=
  negb (Js.startsWith l "-") && negb (Js.startsWith l "+++")
  && negb (Js.startsWith l "---").

(** The file named by a [diff --git] line: [match ? match[1].trim() : ''] *)
Definition fileOf (l : string) : string :=
  match Re.group 1 diffGitRe l with
  | Some f => Js.trim f
  | None => EmptyString
  end.

(** The new-file start of a hunk header, [parseInt(hunkMatch[1])] *)
Definition hunkStart (l : string) : option Z :=
  match Re.group 1 hunkRe l with
  | Some c => Some (Z.of_nat (Js.parseDigits c))
  | None => None
  end.

(** *** Step 1: the staged-change map *)

Record stagedState := mkStaged {
  stagedChanges : gmap string (gset Z);
  currentStagedFile : string;
  currentLineNumber : Z
}.

Definition addStaged (f : string) (n : Z) (m : gmap string (gset Z))
  : gmap string (gset Z) :=
  <[f := {[n]} ∪ default ∅ (m !! f)]> m.

Definition stagedStep (st : stagedState) (l : string) : stagedState :=
  if Js.startsWith l "diff --git" then
    mkStaged (stagedChanges st) (fileOf l) (currentLineNumber st)
  else if Js.startsWith l "@@" then
    match hunkStart l with
    | Some c => mkStaged (stagedChanges st) (currentStagedFile st) (c - 1)
    | None => st
    end
  else if isAddition l then
    let n := (currentLineNumber st + 1)%Z in
    if Js.truthy (currentStagedFile st)
    then mkStaged (addStaged (currentStagedFile st) n (stagedChanges st))
           (currentStagedFile st) n
    else mkStaged (stagedChanges st) (currentStagedFile st) n
  else if isCounted l then
    mkStaged (stagedChanges st) (currentStagedFile st) (currentLineNumber st + 1)
  else st.

Definition stagedInit : stagedState := mkStaged ∅ EmptyString 0.

Definition buildStagedChanges (diffLines : list string) : gmap string (gset Z) :=
  stagedChanges (fold_left stagedStep diffLines stagedInit).

(** The staged lines of a file: the entry of the map, empty when there is
    none *)
Definition stagedLines (m : gmap string (gset Z)) (filePath : string) : gset Z :=
  default ∅ (m !! filePath).

(** [stagedChanges.get(filePath)?.has(n) || false] *)
Definition isStaged (m : gmap string (gset Z)) (filePath : string) (n : Z) : bool :=
  bool_decide (n ∈ stagedLines m filePath).

(** The first pass: the set of modified files, in order of insertion *)
Definition addModified (acc : list string) (l : string) : list string :=
  if Js.startsWith l "diff --git" then
    match Re.group 1 diffGitRe l with
    | Some f =>
        let f' := Js.trim f in
        if existsb (String.eqb f') acc then acc else acc ++ [f']
    | None => acc
    end
  else acc.

Definition modifiedFilesOf (diffLines : list string) : list string :=
  fold_left addModified diffLines [].

(** *** Step 2: the scan of the whole files *)

Record reviewState := mkReview {
  issues : list string;
  suggestions : list string;
  fileChanges : list (string * list change)
}.

(** [if (!fileChanges.has(f)) fileChanges.set(f, []); fileChanges.get(f).push(fix)] *)
Fixpoint pushChange (f : string) (c : change) (fc : list (string * list change))
  : list (string * list change) :=
  match fc with
  | [] => [(f, [c])]
  | (g, cs) :: rest =>
      if String.eqb g f then (g, cs ++ [c]) :: rest
      else (g, cs) :: pushChange f c rest
  end.

Definition severityIcon (s : severity) : string :=
  match s with
  | critical => "🔴" | high => "🟠" | medium => "🟡" | low => "🟢"
  end.

(** Source expression [ /\b([a-zA-Z_$][a-zA-Z0-9_$]+)\s*\./ ] *)
Definition variableRe : re :=
  seqs [WordB; Grp 1 (Seq id_start (plus id_char)); Star ws; chr "."].

(** Source expression [ /(?:const|let|var)\s+([a-zA-Z_$][a-zA-Z0-9_$]* )/ ] *)
Definition lineDeclarationRe : re :=
  seqs [alts [lit "const"; lit "let"; lit "var"]; plus ws;
        Grp 1 (Seq id_start (Star id_char))].

Definition addLineDeclaration (acc : gset string) (l : string) : gset string :=
  match Re.group 1 lineDeclarationRe l with
  | Some v => {[v]} ∪ acc
  | None => acc
  end.

(** The declared identifiers used by the scan of a file *)
Definition declaredVariablesOf (fileContent : string) : gset string :=
  fold_left addLineDeclaration (Js.lines fileContent)
    (Synth.extractDeclaredVariables fileContent).

Definition stagedNote (isStagedLine : bool) : string :=
  if isStagedLine then "(STAGED - will fix)" else "(INFO only)".
Definition statusIcon (isStagedLine : bool) : string :=
  if isStagedLine then "🎯" else "📄".

(** Showing a line number in a message *)
Definition showZ (z : Z) : string :=
  match z with
  | Zneg p => "-" +:+ Js.showNat (Pos.to_nat p)
  | _ => Js.showNat (Z.to_nat z)
  end.

(** The effect of one rule on one line of a file *)
Definition scanPattern (filePath : string) (declaredVariables : gset string)
  (actualLineNumber : Z) (isStagedLine : bool) (l : string)
  (st : reviewState) (p : pattern) : reviewState :=
  let record (msg sugg : string) :=
    let issueStr :=
      severityIcon (severity_of p) +:+ statusIcon isStagedLine +:+ " " +:+
      filePath +:+ ":" +:+ showZ actualLineNumber +:+ " - " +:+ msg +:+ " " +:+
      stagedNote isStagedLine in
    let fc :=
      if isStagedLine && is_critical_or_high (severity_of p)
      then pushChange filePath
             (mkChange actualLineNumber (Js.trim l)
                (Synth.generateSmartFix l p filePath declaredVariables)
                filePath (Some (message p)) None)
             (fileChanges st)
      else fileChanges st in
    mkReview (issues st ++ [issueStr]) (suggestions st ++ [sugg]) fc in
  if Js.includes (message p) "undeclared variable"
     || Js.includes (message p) "Test undeclared variable" then
    match Re.group 1 variableRe l with
    | Some varName =>
        if negb (bool_decide (varName ∈ declaredVariables))
           && Re.test (regex p) l
        then record (Js.replace (message p) "$1" varName)
                    (Js.replace (fixText p) "$1" varName)
        else st
    | None => st
    end
  else if Re.test (regex p) l then record (message p) (fixText p)
  else st.

Definition allPatterns (patterns : list (string * list pattern)) : list pattern :=
  concat (map snd patterns).

(** The effect of all rules on one line of a file *)
Definition scanLine (patterns : list (string * list pattern)) (filePath : string)
  (staged : gmap string (gset Z)) (declaredVariables : gset string)
  (st : reviewState) (indexed : nat * string) : reviewState :=
  let '(lineIndex, l) := indexed in
  let actualLineNumber := (Z.of_nat lineIndex + 1)%Z in
  let trimmedCode := Js.trim l in
  let isStagedLine := isStaged staged filePath actualLineNumber in
  if Js.truthy trimmedCode && negb (Js.startsWith trimmedCode "//")
     && negb (Js.startsWith trimmedCode "*")
  then fold_left
         (scanPattern filePath declaredVariables actualLineNumber isStagedLine l)
         (allPatterns patterns) st
  else st.

Definition indexed {A} (l : list A) : list (nat * A) :=
  combine (seq 0 (length l)) l.

(** The scan of one modified file; [fs p] is the text of the file at [p],
    [None] when it does not exist or cannot be read *)
Definition scanFile (patterns : list (string * list pattern))
  (fs : string -> option string) (staged : gmap string (gset Z))
  (st : reviewState) (filePath : string) : reviewState :=
  match fs filePath with
  | Some fileContent =>
      fold_left
        (scanLine patterns filePath staged (declaredVariablesOf fileContent))
        (indexed (Js.lines fileContent)) st
  | None => st
  end.

(** *** The scan of the diff lines, kept from the earlier version *)

(** [fileVariables.get(fileName) || new Set()] *)
Definition fileVariablesOf (fs : string -> option string)
  (modifiedFiles : list string) (fileName : string) : gset string :=
  if existsb (String.eqb fileName) modifiedFiles then
    match fs fileName with
    | Some fileContent => Synth.extractDeclaredVariables fileContent
    | None => ∅
    end
  else ∅.

Definition legacyPattern (fs : string -> option string)
  (modifiedFiles : list string) (currentFile : string) (index : nat)
  (code : string) (st : reviewState) (p : pattern) : reviewState :=
  if Re.test (regex p) code then
    let issueStr :=
      severityIcon (severity_of p) +:+ " " +:+ currentFile +:+ ":" +:+
      Js.showNat (index + 1) +:+ " - " +:+ message p in
    let fc :=
      if is_critical_or_high (severity_of p) then
        let fileName := if Js.truthy currentFile then currentFile else "index.js" in
        let declaredVariables := fileVariablesOf fs modifiedFiles fileName in
        pushChange fileName
          (mkChange (Z.of_nat index + 1) (Js.trim code)
             (Synth.generateSmartFix code p fileName declaredVariables)
             fileName None (Some (severity_name (severity_of p) +:+ "-fix")))
          (fileChanges st)
      else fileChanges st in
    mkReview (issues st ++ [issueStr]) (suggestions st ++ [fixText p]) fc
  else st.

Definition legacyLine (patterns : list (string * list pattern))
  (fs : string -> option string) (modifiedFiles : list string)
  (acc : string * reviewState) (indexedLine : nat * string)
  : string * reviewState :=
  let '(currentFile, st) := acc in
  let '(index, l) := indexedLine in
  let currentFile' :=
    if Js.startsWith l "diff --git" then fileOf l else currentFile in
  if isAddition l then
    let code := Js.substringFrom 1 l in
    if Js.truthy (Js.trim code)
    then (currentFile',
          fold_left (legacyPattern fs modifiedFiles currentFile' index code)
            (allPatterns patterns) st)
    else (currentFile', st)
  else (currentFile', st).

(** *** The analysis: the issues, the suggestions and the fixes per file *)

Definition wholeFileScan (patterns : list (string * list pattern))
  (fs : string -> option string) (diffLines : list string) : reviewState :=
  fold_left (scanFile patterns fs (buildStagedChanges diffLines))
    (modifiedFilesOf diffLines) (mkReview [] [] []).

Definition analyse (patterns : list (string * list pattern))
  (fs : string -> option string) (diff : string) : reviewState :=
  let diffLines := Js.lines diff in
  snd (fold_left (legacyLine patterns fs (modifiedFilesOf diffLines))
         (indexed diffLines)
         (EmptyString, wholeFileScan patterns fs diffLines)).

(** All the fix records of a state of the analysis *)
Definition changesOf (st : reviewState) : list change :=
  concat (map snd (fileChanges st)).

(** The two origins of a fix record.  A record of the whole-file scan sits on
    a staged line of its file; a record of the scan of the diff lines comes
    from an addition line of the diff and carries the position of that line
    in the diff text. *)
Definition fromWholeFile (staged : gmap string (gset Z)) (c : change) : Prop :=
  ch_type c = None ∧ isStaged staged (file c) (line c) = true.

Definition fromDiffLine (diffLines : list string) (c : change) : Prop :=
  ∃ (index : nat) (l : string),
    diffLines !! index = Some l ∧ isAddition l = true
    ∧ line c = (Z.of_nat index + 1)%Z
    ∧ original c = Js.trim (Js.substringFrom 1 l)
    ∧ ch_pattern c = None.

(** The rule a fix record was made for *)
Definition fromRule (patterns : list (string * list pattern)) (c : change) : Prop :=
  ∃ p, In p (allPatterns patterns)
       ∧ is_critical_or_high (severity_of p) = true
       ∧ (ch_pattern c = Some (message p)
          ∨ ch_type c = Some (severity_name (severity_of p) +:+ "-fix")).

(** Every fix record of a state has a known origin (the invariant of the
    analysis) *)
Definition allProvenance (patterns : list (string * list pattern))
  (diffLines : list string) (st : reviewState) : Prop :=
  ∀ c, In c (changesOf st) →
       fromRule patterns c
       ∧ (fromWholeFile (buildStagedChanges diffLines) c ∨ fromDiffLine diffLines c).

Definition provenance (patterns : list (string * list pattern))
  (diffLines : list string) (c : change) : Prop :=
  fromRule patterns c
  ∧ (fromWholeFile (buildStagedChanges diffLines) c ∨ fromDiffLine diffLines c).

End Review.

(** ** The feedback text and the fixes read back from it *)

Module Feedback.
Import Re.

Definition arrow : string := " → ".

(** One line of the [AUTO_APPLICABLE_FIXES] section *)
Definition renderChange (c : Review.change) : string :=
  "Line " +:+ Review.showZ (Review.line c) +:+ ": " +:+
  Js.trim (Review.original c) +:+ arrow +:+ Js.trim (Review.improved c) +:+ Js.nl.

Definition renderFile (entry : string * list Review.change) : string :=
  "File: " +:+ fst entry +:+ Js.nl +:+
  fold_left (fun acc c => acc +:+ renderChange c) (snd entry) "".

Definition renderAutoFixes (fc : list (string * list Review.change)) : string :=
  match fc with
  | [] => ""
  | _ =>
      Js.nl +:+ "AUTO_APPLICABLE_FIXES" +:+ Js.nl +:+
      fold_left (fun acc e => acc +:+ renderFile e) fc ""
  end.

Definition renderGroup (title icon : string) (issues : list string) : string :=
  match List.filter (fun i => Js.includes i icon) issues with
  | [] => ""
  | group =>
      title +:+ Js.nl +:+
      fold_left (fun acc i => acc +:+ "   " +:+ i +:+ Js.nl) group "" +:+ Js.nl
  end.

Definition renderSuggestions (suggestions : list string) : string :=
  fold_left
    (fun acc e => acc +:+ Js.showNat (fst e + 1) +:+ ". " +:+ snd e +:+ Js.nl)
    (Review.indexed (Js.uniq suggestions)) "".

(** The text returned by [getCopilotReview] *)
Definition render (st : Review.reviewState) : string :=
  match Review.issues st with
  | [] =>
      "✅ WORLD_CLASS_CODE" +:+ Js.nl +:+
      "🎉 Your code meets world-class standards!" +:+ Js.nl +:+
      "💡 No improvements needed - excellent work!"
  | _ :: _ =>
      let all := Review.issues st in
      "WORLD_CLASS_SUGGESTIONS" +:+ Js.nl +:+
      "🚀 Production-Ready Code Improvements:" +:+ Js.nl +:+
      "📋 Context: Make this code for production release" +:+ Js.nl +:+ Js.nl +:+
      renderGroup "🔴 CRITICAL (Must Fix):" "🔴" all +:+
      renderGroup "🟠 HIGH PRIORITY:" "🟠" all +:+
      renderGroup "🟡 RECOMMENDED:" "🟡" all +:+
      renderGroup "🟢 NICE TO HAVE (Modern Standards):" "🟢" all +:+
      "📚 ANALYSIS CATEGORIES:" +:+ Js.nl +:+
      "🔐 Security | ⚡ Performance | 🎯 Naming Conventions" +:+ Js.nl +:+
      "📏 Code Standards | ♻️ Code Quality | 🏗️ Architecture" +:+ Js.nl +:+ Js.nl +:+
      "COPILOT_FIXES" +:+ Js.nl +:+
      renderSuggestions (Review.suggestions st) +:+
      renderAutoFixes (Review.fileChanges st)
  end.

(** [getCopilotReview(diff)] *)
Definition getCopilotReview (patterns : list (string * list pattern))
  (fs : string -> option string) (diff : string) : string :=
  render (Review.analyse patterns fs diff).

(** A fix as the apply functions receive it.  [parseAutoApplicableFixes]
    fills [filename], [line], [original] and [improved]; the older format read
    by [parseSuggestedFixes] has [filename] and [code] only (the other fields,
    undefined there, are empty here); the placeholder of [validateCommit] has
    [type] set to [fallback]. *)
Record autoFix := mkFix {
  filename : string;
  line : Z;
  original : string;
  improved : string;
  code : option string;
  type : option string
}.

(** Source expression [ /Line (\d+): (.+?) → (.+)/ ] *)
Definition fixLineRe : re :=
  seqs [lit "Line "; Grp 1 (plus digit); lit ": "; Grp 2 (plusLazy dot);
        lit arrow; Grp 3 (plus dot)].

Definition parseFixLine (acc : string * list autoFix) (l : string)
  : string * list autoFix :=
  let '(currentFile, fixes) := acc in
  if Js.startsWith l "File: " then
    let f := Js.trim (Js.replace l "File: " "") in
    (if Js.truthy f then f else "index.js", fixes)
  else if Js.includes l arrow then
    match Re.exec fixLineRe l with
    | Some m =>
        match get_cap 1 (m_caps m), get_cap 2 (m_caps m), get_cap 3 (m_caps m) with
        | Some n, Some o, Some i =>
            let fileName := if Js.truthy currentFile then currentFile else "index.js" in
            (currentFile,
             fixes ++ [mkFix fileName (Z.of_nat (Js.parseDigits n)) (Js.trim o)
                         (Js.trim i) None None])
        | _, _, _ => acc
        end
    | None => acc
    end
  else acc.

(** [parseAutoApplicableFixes(aiFeedback)] *)
Definition parseAutoApplicableFixes (aiFeedback : string) : list autoFix :=
  if negb (Js.includes aiFeedback "AUTO_APPLICABLE_FIXES") then []
  else
    match Js.splitSecond aiFeedback "AUTO_APPLICABLE_FIXES" with
    | None => []
    | Some autoFixSection =>
        if negb (Js.truthy autoFixSection) then []
        else snd (fold_left parseFixLine (Js.lines autoFixSection) ("", []))
    end.

End Feedback.

(** ** The process: files, prompts, git and exits

    An action runs in a world holding the files (by resolved path), the
    answers the user will give at the successive prompts, and the git commands
    issued.  It returns a value, ends the process with an exit code
    ([process.exit], which no [catch] intercepts), throws, or waits for ever
    for an answer that never comes.  Console output is not modelled.

    The program reads every file as text ([readFile(p, 'utf8')],
    [readFileSync(p, 'utf8')]) and writes texts.  The world holds, for each
    path, that text: what decoding the bytes of the file as UTF-8 gives, with
    U+FFFD where they cannot be decoded.  The bytes themselves are not in the
    model, so nothing is stated here about them: a file that is not valid
    UTF-8 has a text, and once the program has written that text back the
    bytes on disk are no longer the ones it had. *)

Module Proc.

Inductive error := ExitPromptError | OtherError (msg : string).

Inductive outcome (A : Type) :=
| Ret (a : A)
| Exit (exitCode : Z)
| Throw (e : error)
| Hang.
Arguments Ret {A} a.
Arguments Exit {A} exitCode.
Arguments Throw {A} e.
Arguments Hang {A}.

(** What a prompt yields: a list prompt answers with the chosen text, a
    confirmation with a boolean *)
Inductive answer := AStr (s : string) | ABool (b : bool).

(** What the user does at a prompt: answers in time, lets the time run out,
    closes the prompt, or the prompt fails with a message *)
Inductive response :=
| Answered (a : answer)
| TimedOut
| ForceClosed
| Crashed (msg : string).

Inductive gitCmd :=
| GitAdd (f : string)
| GitCommit (msg : string) (flags : list string).

Record world := mkWorld {
  fs : gmap string string;
  responses : list response;
  git : list gitCmd;
  asked : list string
}.

(** The environment of one run: configuration and what git reports *)
Record env := mkEnv {
  resolve : string -> string;
  AI_DEFAULT_ON_CANCEL : option string;
  AI_FORCE_PROMPT : option string;
  AI_AUTO_SELECT : option string;
  AI_AUTO_OPEN_ERRORS : option string;
  stdinIsTTY : bool;
  stdoutIsTTY : bool;
  optionalMode : bool;
  hasGithubToken : bool;
  customSkipPattern : option (option Re.re);
  eslintReports : bool;
  rawDiff : string;
  stagedFiles : list string;
  branchName : string;
  commitError : option string
}.

Definition M (A : Type) : Type := world -> outcome A * world.

Definition ret {A} (a : A) : M A := fun w => (Ret a, w).

Definition bind {A B} (m : M A) (f : A -> M B) : M B :=
  fun w =>
    match m w with
    | (Ret a, w') => f a w'
    | (Exit c, w') => (Exit c, w')
    | (Throw e, w') => (Throw e, w')
    | (Hang, w') => (Hang, w')
    end.

Definition exit {A} (c : Z) : M A := fun w => (Exit c, w).
Definition throw {A} (e : error) : M A := fun w => (Throw e, w).
Definition hang {A} : M A := fun w => (Hang, w).

(** [try { m } catch (error) { h error }] *)
Definition tryCatch {A} (m : M A) (h : error -> M A) : M A :=
  fun w =>
    match m w with
    | (Throw e, w') => h e w'
    | r => r
    end.

Notation "x <- m ;; k" := (bind m (fun x => k))
  (at level 100, m at next level, right associativity).
Notation "m ;;; k" := (bind m (fun _ => k))
  (at level 100, right associativity).

(** [for (const x of l) { acc = body(acc, x) }] *)
Fixpoint forEach {A S} (l : list A) (body : S -> A -> M S) (acc : S) : M S :=
  match l with
  | [] => ret acc
  | x :: rest => acc' <- body acc x ;; forEach rest body acc'
  end.

(** The exit code of the process once the action is over: a normal return
    ends with 0, an uncaught error with 1 *)
Definition exitCodeOf {A} (o : outcome A) : option Z :=
  match o with
  | Ret _ => Some 0%Z
  | Exit c => Some c
  | Throw _ => Some 1%Z
  | Hang => None
  end.

(** *** Files

    The file operations take the resolved path.  [path.resolve(process.cwd(),
    name)] is [resolve e name]; a path built from a resolved one by appending
    a suffix is used as it is. *)

(** [fs.readFile(p, 'utf8')]: the text of the file *)
Definition readFile (p : string) : M string :=
  fun w =>
    match fs w !! p with
    | Some content => (Ret content, w)
    | None => (Throw (OtherError "ENOENT"), w)
    end.

(** [fs.writeFile(p, content)] for a text [content]: the text of the file
    from then on *)
Definition writeFile (p content : string) : M unit :=
  fun w =>
    (Ret tt, mkWorld (<[p := content]> (fs w)) (responses w) (git w) (asked w)).

Definition unlink (p : string) : M unit :=
  fun w =>
    match fs w !! p with
    | Some _ =>
        (Ret tt, mkWorld (delete p (fs w)) (responses w) (git w) (asked w))
    | None => (Throw (OtherError "ENOENT"), w)
    end.

(** [fs.access(p)]: throws when the path does not exist *)
Definition access (p : string) : M unit :=
  fun w =>
    match fs w !! p with
    | Some _ => (Ret tt, w)
    | None => (Throw (OtherError "ENOENT"), w)
    end.

(** *** Git *)

Definition gitAdd (f : string) : M unit :=
  fun w => (Ret tt, mkWorld (fs w) (responses w) (git w ++ [GitAdd f]) (asked w)).

Definition gitCommit (e : env) (msg : string) (flags : list string) : M unit :=
  fun w =>
    match commitError e with
    | Some err => (Throw (OtherError err), w)
    | None =>
        (Ret tt, mkWorld (fs w) (responses w) (git w ++ [GitCommit msg flags])
                   (asked w))
    end.

(** The world after further git commands, and with other files *)
Definition addGit (cmds : list gitCmd) (w : world) : world :=
  mkWorld (fs w) (responses w) (git w ++ cmds) (asked w).

Definition setFs (files : gmap string string) (w : world) : world :=
  mkWorld files (responses w) (git w) (asked w).

(** *** Prompts *)

Inductive question :=
| QList (message : string) (choices : list string)
| QConfirm (message : string)
| QInput (message : string).

Definition questionMessage (q : question) : string :=
  match q with QList m _ => m | QConfirm m => m | QInput m => m end.

(** The prompt is shown and the user responds; no response left means that
    nobody answers *)
Definition ask (q : question) : M response :=
  fun w =>
    match responses w with
    | [] => (Ret TimedOut, mkWorld (fs w) [] (git w) (asked w ++ [questionMessage q]))
    | r :: rest =>
        (Ret r, mkWorld (fs w) rest (git w) (asked w ++ [questionMessage q]))
    end.

Definition envOr (v : option string) (dflt : string) : string :=
  match v with
  | Some s => if Js.truthy s then s else dflt
  | None => dflt
  end.

(** [(process.env.AI_DEFAULT_ON_CANCEL || 'cancel').toLowerCase()] *)
Definition DEFAULT_ON_CANCEL (e : env) : string :=
  Js.toLowerCase (envOr (AI_DEFAULT_ON_CANCEL e) "cancel").

(** [(process.env.AI_FORCE_PROMPT || 'false').toLowerCase() === 'true'] *)
Definition forcePrompt (e : env) : bool :=
  String.eqb (Js.toLowerCase (envOr (AI_FORCE_PROMPT e) "false")) "true".

(** Source expression [ /User force closed|cancelled/i ] *)
Definition cancelRe : Re.re :=
  Re.Alt (Re.lit_i "User force closed") (Re.lit_i "cancelled").

(** The simulated answer under [AI_AUTO_SELECT] *)
Definition autoAnswer (autoSelect : string) (q : question) : answer :=
  match q with
  | QList _ (c :: cs) =>
      let n := match Js.parseInt autoSelect with
               | Some z => if Z.eqb z 0 then 1%Z else z
               | None => 1%Z
               end in
      let idx := Z.max 0 (Z.min (Z.of_nat (length (c :: cs)) - 1) (n - 1)) in
      AStr (nth (Z.to_nat idx) (c :: cs) c)
  | QConfirm _ =>
      ABool (existsb (String.eqb (Js.toLowerCase autoSelect))
               ["1"; "true"; "yes"; "y"])
  | _ => AStr autoSelect
  end.

(** [safePrompt(questions, opts)]: the pair [(cancelled, answers)].  The
    terminal-device and readline fallbacks taken under [AI_FORCE_PROMPT] are
    one prompt here; a failure inside them is the response [ForceClosed]. *)
Definition safePrompt (e : env) (q : question) : M (bool * option answer) :=
  match AI_AUTO_SELECT e with
  | Some (String c s) => ret (false, Some (autoAnswer (String c s) q))
  | _ =>
      let needsTtyFallback := negb (stdinIsTTY e) || negb (stdoutIsTTY e) in
      if needsTtyFallback && negb (forcePrompt e) then ret (true, None)
      else
        r <- ask q ;;
        match r with
        | Answered a => ret (false, Some a)
        | TimedOut => ret (true, None)
        | ForceClosed => ret (true, None)
        | Crashed msg =>
            if Re.test cancelRe msg then ret (true, None)
            else throw (OtherError msg)
        end
  end.

(** [inquirer.prompt] used directly: no time limit, and a closed prompt
    throws *)
Definition rawPrompt (q : question) : M answer :=
  r <- ask q ;;
  match r with
  | Answered a => ret a
  | TimedOut => hang
  | ForceClosed => throw ExitPromptError
  | Crashed msg => throw (OtherError msg)
  end.

Definition asBool (a : option answer) : bool :=
  match a with
  | Some (ABool b) => b
  | Some (AStr s) => Js.truthy s
  | None => false
  end.

Definition asString (a : option answer) : string :=
  match a with
  | Some (AStr s) => s
  | _ => EmptyString
  end.

End Proc.

(** ** The patch applier and the recommit *)

Module Patch.
Import Proc.
Import Feedback.

(** [fixes.sort((a, b) => b.line - a.line)]: descending by line number; the
    sort is stable, fixes of equal line keep their order *)
Fixpoint insertDesc (x : autoFix) (l : list autoFix) : list autoFix :=
  match l with
  | [] => [x]
  | y :: rest =>
      if (line y <=? line x)%Z then x :: y :: rest
      else y :: insertDesc x rest
  end.

Definition sortByLineDesc (l : list autoFix) : list autoFix :=
  fold_right insertDesc [] l.

(** The order of the sorted list, and the fixes of a given line *)
Definition descending (a b : autoFix) : Prop := (line b ≤ line a)%Z.
Definition onLine (n : Z) (f : autoFix) : bool := (line f =? n)%Z.

(** [modifiedContent = modifiedContent.replace(fix.original, fix.improved)] *)
Definition applyFix (content : string) (f : autoFix) : string :=
  Js.replace content (original f) (improved f).

(** [for (const fix of sortedFixes) { ... }] *)
Definition applyFixes (content : string) (sortedFixes : list autoFix) : string :=
  fold_left applyFix sortedFixes content.

(** The content written by [autoApplyAndRecommit], [applyAutoFixesNoCommit]
    and [applyToNewFiles] for the fixes of one file *)
Definition patched (content : string) (fixes : list autoFix) : string :=
  applyFixes content (sortByLineDesc fixes).

(** [typeof f.code === 'string'] and [f.original && f.improved] *)
Definition hasCode (f : autoFix) : bool :=
  match code f with Some _ => true | None => false end.
Definition hasTexts (f : autoFix) : bool :=
  Js.truthy (original f) && Js.truthy (improved f).

(** The content written by [applyAISuggestions]: a fix carrying the whole
    text of the file wins; otherwise the fixes whose [original] and
    [improved] are both non-empty are applied *)
Definition patchedAI (content : string) (fixes : list autoFix) : string :=
  match find hasCode fixes with
  | Some {| code := Some c |} => c
  | _ => applyFixes content (sortByLineDesc (List.filter hasTexts fixes))
  end.

(** Grouping the fixes by file, in order of first appearance *)
Fixpoint pushFix (f : autoFix) (groups : list (string * list autoFix))
  : list (string * list autoFix) :=
  match groups with
  | [] => [(filename f, [f])]
  | (g, fs) :: rest =>
      if String.eqb g (filename f) then (g, fs ++ [f]) :: rest
      else (g, fs) :: pushFix f rest
  end.

Definition groupByFile (fixes : list autoFix) : list (string * list autoFix) :=
  fold_left (fun groups f => pushFix f groups) fixes [].

(** [stagedFiles.some(file => file.endsWith(filename) || file === filename)] *)
Definition isStagedFile (stagedFiles : list string) (name : string) : bool :=
  existsb (fun f => Js.endsWith f name || String.eqb f name) stagedFiles.

(** The answer used when a confirmation is cancelled or cannot be asked:
    only [auto-apply] accepts *)
Definition onCancel (e : env) : bool :=
  if String.eqb (DEFAULT_ON_CANCEL e) "auto-apply" then true
  else if String.eqb (DEFAULT_ON_CANCEL e) "skip" then false
  else false.

Definition reviewQuestion (name : string) : question :=
  QConfirm ("Apply suggested changes to " +:+ name +:+ "?").

(** [interactiveReviewAndApply(filename, originalContent, improvedContent)] *)
Definition interactiveReviewAndApply (e : env) (name originalContent
  improvedContent : string) : M bool :=
  let nonInteractive := negb (stdinIsTTY e) in
  if nonInteractive && negb (forcePrompt e) then ret (onCancel e)
  else
    tryCatch
      (r <- safePrompt e (reviewQuestion name) ;;
       if fst r then ret (onCancel e) else ret (asBool (snd r)))
      (fun err =>
         match err with
         | ExitPromptError =>
             ret (String.eqb (DEFAULT_ON_CANCEL e) "auto-apply")
         | OtherError msg =>
             if Re.test cancelRe msg
             then ret (String.eqb (DEFAULT_ON_CANCEL e) "auto-apply")
             else throw err
         end).

Record appliedFile := mkApplied {
  applied_filename : string;
  backupPath : string;
  fixCount : nat
}.

(** The body of the loop of [autoApplyAndRecommit] over the files *)
Definition autoApplyFile (e : env) (staged : list string)
  (appliedFiles : list appliedFile) (entry : string * list autoFix)
  : M (list appliedFile) :=
  let '(name, fixes) := entry in
  if isStagedFile staged name then
    let filePath := resolve e name in
    tryCatch
      (originalContent <- readFile filePath ;;
       let backup := filePath +:+ ".copilot-backup" in
       writeFile backup originalContent ;;;
       let modifiedContent := patched originalContent fixes in
       accepted <- interactiveReviewAndApply e name originalContent modifiedContent ;;
       if negb accepted then ret appliedFiles
       else
         writeFile filePath modifiedContent ;;;
         ret (appliedFiles ++ [mkApplied name backup (length fixes)]))
      (fun _ => ret appliedFiles)
  else ret appliedFiles.

(** Source expression [ /([A-Z]+-\d+)/ ] *)
Definition ticketRe : Re.re :=
  Re.Grp 1 (Re.seqs [Re.plus (Re.Chr (Re.in_range "A" "Z")); Re.chr "-";
                     Re.plus Re.digit]).

Definition ticketId (branch : string) : string :=
  match Re.group 1 ticketRe branch with
  | Some t => t
  | None => "SHOP-0000"
  end.

Definition commitMessage (branch : string) (count : nat) : string :=
  ticketId branch +:+ "-apply-copilot-improvements-" +:+ Js.showNat count +:+ "-files".

Definition cleanBackups (appliedFiles : list appliedFile) : M unit :=
  forEach appliedFiles
    (fun _ f => tryCatch (unlink (backupPath f)) (fun _ => ret tt)) tt.

Definition restage (appliedFiles : list appliedFile) : M unit :=
  forEach appliedFiles (fun _ f => gitAdd (applied_filename f)) tt.

Definition isFallback (autoFixes : list autoFix) : bool :=
  match autoFixes with
  | f :: _ => match type f with
              | Some t => String.eqb t "fallback"
              | None => false
              end
  | [] => false
  end.

Definition recommitQuestion (appliedFiles : list appliedFile) : question :=
  QConfirm ("🎯 Auto-applied " +:+ Js.showNat (length appliedFiles) +:+
            " file improvements. Recommit now?").

Definition restageCmd (f : appliedFile) : gitCmd := GitAdd (applied_filename f).

(** The files once the backups are removed *)
Definition removeBackups (appliedFiles : list appliedFile)
  (files : gmap string string) : gmap string string :=
  fold_left (fun m f => delete (backupPath f) m) appliedFiles files.

(** What follows the loop over the files in [autoApplyAndRecommit] *)
Definition recommit (e : env) (appliedFiles : list appliedFile) : M unit :=
  match appliedFiles with
  | _ :: _ =>
      restage appliedFiles ;;;
      let message := commitMessage (branchName e) (length appliedFiles) in
      r <- safePrompt e (recommitQuestion appliedFiles) ;;
      let shouldCommit := if fst r then true else asBool (snd r) in
      if shouldCommit then
        tryCatch
          (gitCommit e message ["--no-verify"] ;;;
           cleanBackups appliedFiles ;;;
           exit 0%Z)
          (fun _ => exit 1%Z)
      else exit 0%Z
  | [] => exit 1%Z
  end.

(** [autoApplyAndRecommit(autoFixes, stagedFiles)] *)
Definition autoApplyAndRecommit (e : env) (autoFixes : list autoFix)
  (staged : list string) : M unit :=
  if isFallback autoFixes then exit 1%Z
  else
    tryCatch
      (appliedFiles <- forEach (groupByFile autoFixes) (autoApplyFile e staged) [] ;;
       recommit e appliedFiles)
      (fun err =>
         match err with
         | ExitPromptError => exit 0%Z
         | _ => throw err
         end).

Definition aiBackupOf (e : env) (name : string) : string :=
  resolve e name +:+ ".ai-backup".

(** The body of the loop of [applyAISuggestions] over the files *)
Definition applyAIFile (e : env) (staged : list string)
  (appliedFiles : list appliedFile) (entry : string * list autoFix)
  : M (list appliedFile) :=
  let '(name, fixes) := entry in
  tryCatch
    (if negb (isStagedFile staged name) then ret appliedFiles
     else
       let filePath := resolve e name in
       found <- tryCatch (access filePath ;;; ret true) (fun _ => ret false) ;;
       if negb found then ret appliedFiles
       else
         originalContent <- readFile filePath ;;
         let backup := aiBackupOf e name in
         writeFile backup originalContent ;;;
         writeFile filePath (patchedAI originalContent fixes) ;;;
         ret (appliedFiles ++ [mkApplied name backup (length fixes)]))
    (fun _ => ret appliedFiles).

(** The restoration of one file when the user declines *)
Definition restoreFile (e : env) (f : appliedFile) : M unit :=
  tryCatch
    (backupContent <- readFile (backupPath f) ;;
     writeFile (resolve e (applied_filename f)) backupContent ;;;
     unlink (backupPath f) ;;;
     gitAdd (applied_filename f))
    (fun _ => ret tt).

(** The files named by the fixes, in order of first appearance, and the
    condition under which their paths and backup paths do not collide: the
    names resolve to distinct paths, none of which is the backup path of
    another *)
Definition namesOf (fixes : list autoFix) : list string :=
  map fst (groupByFile fixes).

Definition noCollision (e : env) (names : list string) : Prop :=
  NoDup (map (resolve e) names)
  ∧ ∀ n1 n2, In n1 names → In n2 names → resolve e n1 ≠ aiBackupOf e n2.

(** The state of the loop of [applyAISuggestions] over the files, started in
    the world [w0]: every applied file has its backup, holding the content
    the file had at the start; every other path is as at the start; no prompt
    was shown and no git command issued *)
Definition applyInvariant (e : env) (names : list string) (w0 : world)
  (applied : list appliedFile) (w : world) : Prop :=
  NoDup (map (fun a => resolve e (applied_filename a)) applied)
  ∧ (∀ a, In a applied →
       In (applied_filename a) names
       ∧ backupPath a = aiBackupOf e (applied_filename a)
       ∧ is_Some (fs w0 !! resolve e (applied_filename a))
       ∧ fs w !! backupPath a = fs w0 !! resolve e (applied_filename a))
  ∧ (∀ p, (∀ a, In a applied →
             p ≠ resolve e (applied_filename a) ∧ p ≠ backupPath a) →
          fs w !! p = fs w0 !! p)
  ∧ responses w = responses w0 ∧ git w = git w0 ∧ asked w = asked w0.

Definition proceedQuestion (appliedFiles : list appliedFile) : question :=
  QConfirm ("Applied " +:+ Js.showNat (length appliedFiles) +:+
            " AI suggestions. Proceed with commit?").

(** What follows the loop over the files in [applyAISuggestions] *)
Definition confirmOrRestore (e : env) (appliedFiles : list appliedFile) : M unit :=
  match appliedFiles with
  | _ :: _ =>
      restage appliedFiles ;;;
      tryCatch
        (a <- rawPrompt (proceedQuestion appliedFiles) ;;
         if asBool (Some a) then cleanBackups appliedFiles ;;; exit 0%Z
         else forEach appliedFiles (fun _ f => restoreFile e f) tt ;;; exit 1%Z)
        (fun err =>
           match err with
           | ExitPromptError => cleanBackups appliedFiles ;;; exit 0%Z
           | OtherError msg =>
               if Js.includes msg "User force closed"
               then cleanBackups appliedFiles ;;; exit 0%Z
               else throw err
           end)
  | [] => exit 1%Z
  end.

(** [applyAISuggestions(suggestedFixes, stagedFiles)] *)
Definition applyAISuggestions (e : env) (suggestedFixes : list autoFix)
  (staged : list string) : M unit :=
  appliedFiles <- forEach (groupByFile suggestedFixes) (applyAIFile e staged) [] ;;
  confirmOrRestore e appliedFiles.

(** The body of the loop of [applyAutoFixesNoCommit] over the files *)
Definition applyNoCommitFile (e : env) (staged : list string) (_ : unit)
  (entry : string * list autoFix) : M unit :=
  let '(name, fixes) := entry in
  if negb (isStagedFile staged name) then ret tt
  else
    tryCatch
      (let filePath := resolve e name in
       originalContent <- readFile filePath ;;
       writeFile filePath (patched originalContent fixes) ;;;
       gitAdd name)
      (fun _ => ret tt).

(** [applyAutoFixesNoCommit(autoFixes, stagedFiles)] *)
Definition applyAutoFixesNoCommit (e : env) (autoFixes : list autoFix)
  (staged : list string) : M unit :=
  forEach (groupByFile autoFixes) (applyNoCommitFile e staged) tt.

End Patch.

(** ** The commit validation *)

Module Validate.
Import Proc.
Import Feedback.
Import Re.

(** One alternative of the built-in skip directive:
    [label\s*:\s*action] *)
Definition directive (label action : string) : re :=
  seqs [lit_i label; Star ws; chr ":"; Star ws; lit_i action].

(** The built-in pattern of [detectSkipDirective], under the [i] flag *)
Definition defaultSkipPattern : re :=
  seqs [lit "//"; Star ws;
        Grp 1 (alts [directive "ai-review" "skip";
                     directive "commit-validator" "bypass";
                     directive "hotfix" "no-review";
                     directive "emergency" "skip-validation";
                     directive "generated" "no-validation";
                     directive "third-party" "skip-review";
                     directive "legacy" "no-validation";
                     directive "prototype" "skip-checks"])].

(** [new RegExp(customPattern || defaultPattern, 'i')]: [None] when the
    custom text is not a regular expression and the constructor throws *)
Definition skipPattern (e : env) : option re :=
  match customSkipPattern e with
  | None => Some defaultSkipPattern
  | Some r => r
  end.

(** [detectSkipDirective(stagedFiles)]: the first staged file, if any, that
    exists and whose content matches *)
Definition detectSkipDirective (pat : re) (e : env) (files : gmap string string)
  (staged : list string) : option string :=
  find (fun f =>
          match files !! resolve e f with
          | Some content => Re.test pat content
          | None => false
          end) staged.

Definition EXCLUDED_FILES : list string := [
  "package-lock.json"; "yarn.lock"; "pnpm-lock.yaml"; ".gitignore"; ".env";
  ".env.local"; ".env.example"; "node_modules/"; ".git/"; "dist/"; "build/";
  ".next/"; "coverage/"; "*.min.js"; "*.map"; ".DS_Store"; "Thumbs.db"
].

(** [new RegExp(text)] for the texts built here: ordinary characters, [.]
    for any character of a line, and [*] after one of them *)
Fixpoint compileSimple (s : string) : re :=
  match s with
  | EmptyString => Eps
  | String c t =>
      let atom := if Ascii.eqb c "." then dot else chr c in
      match t with
      | String "*"%char t' => Seq (Star atom) (compileSimple t')
      | _ => Seq atom (compileSimple t)
      end
  end.

Definition backslash : string := String "092"%char EmptyString.

Definition isExcluded (l : string) : bool :=
  existsb
    (fun pat =>
       if Js.endsWith pat "/" then
         Js.includes l ("/" +:+ pat) || Js.includes l (backslash +:+ pat)
       else if Js.includes pat "*" then
         Re.test (compileSimple (Js.replace pat "*" ".*")) l
       else Js.includes l pat)
    EXCLUDED_FILES.

(** The predicate of the filter of [filterMeaningfulChanges] *)
Definition isMeaningful (l : string) : bool :=
  if Js.includes l "Binary files" && Js.includes l "differ" then false
  else if isExcluded l then false
  else if Js.startsWith l "+" || Js.startsWith l "-" then
    let content := Js.trim (Js.substringFrom 1 l) in
    if negb (Js.truthy content)
       || Re.test (seqs [Bol; Star ws; lit "//"]) content
       || Re.test (seqs [Bol; Star ws; lit "/*"]) content
    then false else true
  else
    Js.startsWith l "@@" || Js.startsWith l "diff --git"
    || Js.startsWith l "index" || Js.startsWith l "---"
    || Js.startsWith l "+++".

(** [filterMeaningfulChanges(diff)] *)
Definition filterMeaningfulChanges (diff : string) : string :=
  Js.unlines (List.filter isMeaningful (Js.lines diff)).

(** The issues found by [localCodeAnalysis] *)
Definition localIssues (e : env) (diff : string) : list string :=
  let ls := Js.lines diff in
  let added (test : string -> bool) :=
    existsb (fun l => test l && Js.startsWith l "+") ls in
  (if added (fun l => Js.includes l "console.log")
   then ["🟡 Found console.log statements"] else []) ++
  (if added (Re.test
               (Alt (seqs [lit "/*"; Star dot; lit "TODO"; Star dot; lit "*/"])
                    (seqs [Bol; lit "//"; Star dot; lit "TODO"])))
   then ["🟡 Found TODO comments"] else []) ++
  (if added (fun l => Nat.ltb 100 (String.length l))
   then ["🟡 Found lines longer than 100 characters"] else []) ++
  (if added (Re.test (Seq (plus ws) Eol))
   then ["🟡 Found trailing whitespace"] else []) ++
  (if added (Re.test
               (Alt (seqs [lit_i "password"; Star ws; chr "="; Star ws;
                           Catalogue.quote; plus Catalogue.notQuote;
                           Catalogue.quote])
                    (seqs [lit_i "api"; opt (oneOf "_-"); lit_i "key"; Star ws;
                           chr "="; Star ws; Catalogue.quote;
                           plus Catalogue.notQuote; Catalogue.quote])))
   then ["🔴 Potential hardcoded secrets detected"] else []) ++
  (if existsb (fun l => Js.includes l "Binary files" && Js.includes l "differ") ls
   then ["🟡 Binary files detected"] else []) ++
  (if eslintReports e then ["🟡 ESLint found issues"] else []).

(** [localCodeAnalysis(diff)] *)
Definition localCodeAnalysis (e : env) (diff : string) : M unit :=
  match localIssues e diff with
  | [] => exit 0%Z
  | _ :: _ =>
      tryCatch
        (a <- rawPrompt (QConfirm "Continue with commit despite these issues?") ;;
         if asBool (Some a) then exit 0%Z else exit 1%Z)
        (fun err =>
           match err with
           | ExitPromptError => exit 0%Z
           | OtherError msg =>
               if Js.includes msg "User force closed" then exit 0%Z
               else throw err
           end)
  end.

(** The locations [file:line - text] read from the feedback by
    [openErrorLocations] *)
Definition errorRe : re :=
  seqs [Grp 1 (seqs [plus (Chr (fun c => is_word c || Js.includes "./-" (String c "")));
                     chr ".";
                     alts [lit "js"; lit "ts"; lit "jsx"; lit "tsx"; lit "py";
                           lit "java"; lit "rb"; lit "go"; lit "rs"]]);
        chr ":"; Grp 2 (plus digit); Star ws; chr "-"; Star ws;
        Grp 3 (plusLazy dot); Ahead (Alt (chr Js.newline) Eol)].

(** [openErrorLocations(aiFeedback, stagedFiles)]: launching the editor is
    outside the model; what is kept is the confirmation asked when more than
    one location was found, whose answer the function never reads *)
Definition openErrorLocations (e : env) (aiFeedback : string) : M unit :=
  if String.eqb (Js.toLowerCase (envOr (AI_AUTO_OPEN_ERRORS e) "false")) "true"
  then
    if Nat.ltb 1 (length (Re.matchAll errorRe aiFeedback))
    then tryCatch
           (safePrompt e (QConfirm "Open additional error locations?") ;;; ret tt)
           (fun _ => ret tt)
    else ret tt
  else ret tt.

(** Source expression [ /(\\.(\\w+))$/ ]: a backslash, a character, a
    backslash and letters w, at the end *)
Definition extensionRe : re :=
  seqs [Grp 1 (seqs [lit backslash; dot;
                     Grp 2 (Seq (lit backslash) (plus (chr "w")))]); Eol].

(** [filePath.replace(extensionRe, '.copilot$1')] *)
Definition improvedPathOf (filePath : string) : string :=
  match Re.exec extensionRe filePath with
  | Some m =>
      Js.take (m_index m) filePath +:+ ".copilot" +:+
      default EmptyString (get_cap 1 (m_caps m)) +:+ m_rest m
  | None => filePath
  end.

Definition applyToNewFile (e : env) (staged : list string) (_ : unit)
  (entry : string * list autoFix) : M unit :=
  let '(name, fixes) := entry in
  if Patch.isStagedFile staged name then
    tryCatch
      (let filePath := resolve e name in
       originalContent <- readFile filePath ;;
       writeFile (improvedPathOf filePath) (Patch.patched originalContent fixes))
      (fun _ => ret tt)
  else ret tt.

(** [applyToNewFiles(autoFixes, stagedFiles)] *)
Definition applyToNewFiles (e : env) (autoFixes : list autoFix)
  (staged : list string) : M unit :=
  forEach (Patch.groupByFile autoFixes) (applyToNewFile e staged) tt.

Definition choiceAutoApply : string := "🚀 Auto-apply Copilot suggestions and recommit".
Definition choiceKeepLocal : string := "📝 Keep local changes and apply suggestions manually".
Definition choiceReview : string := "🔧 Review suggestions only (no changes)".
Definition choiceSkip : string := "⚡ Skip validation and commit as-is".
Definition choiceCancel : string := "❌ Cancel commit".

Definition enhancedChoices : list string :=
  [choiceAutoApply; choiceKeepLocal; choiceReview; choiceSkip; choiceCancel].

Definition fallbackFix : autoFix :=
  mkFix "index.js" 1 "critical issues detected" "manual fix required" None
    (Some "fallback").

(** The fixes the workflow works with *)
Definition effectiveFixesOf (aiFeedback : string) : list autoFix :=
  match parseAutoApplicableFixes aiFeedback with
  | [] =>
      if Js.includes aiFeedback "CRITICAL" || Js.includes aiFeedback "🔴"
      then [fallbackFix] else []
  | fixes => fixes
  end.

(** [f.filename || single || 'index.js'] *)
Definition withFilename (staged : list string) (f : autoFix) : autoFix :=
  let single := match staged with [s] => s | _ => EmptyString end in
  let name :=
    if Js.truthy (filename f) then filename f
    else if Js.truthy single then single else "index.js" in
  mkFix name (line f) (original f) (improved f) (code f) (type f).

(** The decision taken when the prompt of the workflow was cancelled or
    timed out *)
Definition decisionOnCancel (e : env) : string :=
  if String.eqb (DEFAULT_ON_CANCEL e) "auto-apply" then choiceAutoApply
  else if String.eqb (DEFAULT_ON_CANCEL e) "skip" then choiceSkip
  else choiceReview.

Definition decisionQuestion : question :=
  QList "🎯 How would you like to proceed?" enhancedChoices.

(** What [validateCommit] does with the decision *)
Definition proceedWith (e : env) (aiFeedback enhancedDecision : string) : M unit :=
  let staged := stagedFiles e in
  let effectiveFixes := effectiveFixesOf aiFeedback in
  if String.eqb enhancedDecision choiceAutoApply then
    let fixes := map (withFilename staged) effectiveFixes in
    if Nat.eqb (length fixes) 0 || Patch.isFallback fixes then exit 1%Z
    else Patch.autoApplyAndRecommit e fixes staged
  else if String.eqb enhancedDecision choiceKeepLocal then
    applyToNewFiles e (map (withFilename staged) effectiveFixes) staged
  else if String.eqb enhancedDecision choiceReview then exit 1%Z
  else if String.eqb enhancedDecision choiceSkip then exit 0%Z
  else exit 1%Z.

(** The [catch] around the prompt and what follows it *)
Definition onPromptError (e : env) (aiFeedback : string) (err : error) : M unit :=
  let cancelled :=
    match err with
    | ExitPromptError => true
    | OtherError msg =>
        Js.includes msg "User force closed" || Js.includes msg "cancelled"
    end in
  if cancelled then
    if String.eqb (DEFAULT_ON_CANCEL e) "auto-apply"
    then Patch.autoApplyAndRecommit e (effectiveFixesOf aiFeedback) (stagedFiles e)
    else if String.eqb (DEFAULT_ON_CANCEL e) "skip" then exit 0%Z
    else exit 1%Z
  else exit 1%Z.

(** The workflow of [validateCommit] once the feedback is known *)
Definition enhancedWorkflow (e : env) (aiFeedback : string) : M unit :=
  tryCatch
    (r <- safePrompt e decisionQuestion ;;
     proceedWith e aiFeedback
       (if fst r then decisionOnCancel e else asString (snd r)))
    (onPromptError e aiFeedback).

(** The files as [getCopilotReview] reads them *)
Definition reader (e : env) (w : world) (p : string) : option string :=
  fs w !! resolve e p.

(** [validateCommit()], with the rule catalogue as a parameter *)
Definition validateCommit (patterns : list (string * list pattern)) (e : env)
  : M unit :=
  tryCatch
    (if negb (Js.truthy (Js.trim (rawDiff e))) then exit 0%Z
     else
       match skipPattern e with
       | None => throw (OtherError "Invalid regular expression")
       | Some pat =>
           fun w =>
             match detectSkipDirective pat e (fs w) (stagedFiles e) with
             | Some _ => exit 0%Z w
             | None =>
                 let meaningfulDiff := filterMeaningfulChanges (rawDiff e) in
                 if negb (Js.truthy (Js.trim meaningfulDiff)) then exit 0%Z w
                 else if hasGithubToken e then
                   let aiFeedback :=
                     getCopilotReview patterns (reader e w) meaningfulDiff in
                   (openErrorLocations e aiFeedback ;;;
                    if Js.includes aiFeedback "✅" then exit 0%Z
                    else enhancedWorkflow e aiFeedback) w
                 else localCodeAnalysis e meaningfulDiff w
             end
       end)
    (fun err =>
       match err with
       | ExitPromptError => exit 1%Z
       | _ => if optionalMode e then exit 0%Z else throw err
       end).

End Validate.

(** ** The guided recommit and the entry point *)

Module Cli.
Import Proc.

Definition stageQuestion : question :=
  QConfirm "Stage all current changes before recommitting?".

Definition messageQuestion : question := QInput "Commit message:".

Definition defaultMessage : string := "Apply AI suggestions".

(** [msgCancelled ? default : (msgAnswers.message || default)] *)
Definition messageOf (r : bool * option answer) : string :=
  if fst r then defaultMessage
  else if Js.truthy (asString (snd r)) then asString (snd r) else defaultMessage.

(** [guidedRecommit()].  [hasStaged] and [hasUnstaged] are what the function
    reads off [git.status()]; [git.add(["./*"])] is the command [GitAdd "./*"]. *)
Definition guidedRecommit (e : env) (hasStaged hasUnstaged : bool) : M unit :=
  tryCatch
    (if negb hasStaged && negb hasUnstaged then exit 0%Z
     else
       (if hasUnstaged && negb hasStaged then
          r <- safePrompt e stageQuestion ;;
          let stageAll := if fst r then true else asBool (snd r) in
          if stageAll then gitAdd "./*" else exit 1%Z
        else ret tt) ;;;
       r <- safePrompt e messageQuestion ;;
       gitCommit e (messageOf r) ["--no-verify"] ;;;
       exit 0%Z)
    (fun err =>
       let cancelled :=
         match err with
         | ExitPromptError => true
         | OtherError msg => Re.test cancelRe msg
         end in
       if cancelled then
         tryCatch (gitCommit e defaultMessage ["--no-verify"] ;;; exit 0%Z)
           (fun _ => exit 1%Z)
       else exit 1%Z).

(** The command-line entry: [--recommit] runs the guided recommit, anything
    else the validation *)
Definition main (patterns : list (string * list pattern)) (e : env)
  (args : list string) (hasStaged hasUnstaged : bool) : M unit :=
  if existsb (String.eqb "--recommit") args
  then guidedRecommit e hasStaged hasUnstaged
  else Validate.validateCommit patterns e.

End Cli.

(** ** A structured view of a unified diff

    The specification speaks of file blocks, hunks, and additions, context
    lines and removals inside a hunk.  These definitions follow its words:
    they give the text of such a diff and, independently of the program, the
    new-file line numbers of the additions.  They are compared below with the
    map the program builds from the text. *)

Module DiffModel.
Import Text.

Inductive hunkLine :=
| Added (text : string)
| Context (text : string)
| Removed (text : string).

(** A hunk: the numbers of its header [@@ -a,b +c,d @@], a count being left
    out when it is 1, the text that git puts after the closing marks, and
    its lines *)
Record hunk := mkHunk {
  oldStart : nat;
  oldCount : option nat;
  newStart : nat;
  newCount : option nat;
  heading : string;
  body : list hunkLine
}.

(** A file block: the path before the change, the path after it, the lines
    between the [diff --git] line and the first hunk, and the hunks *)
Record fileBlock := mkBlock {
  oldPath : string;
  path : string;
  preamble : list string;
  hunks : list hunk
}.

Definition renderLine (l : hunkLine) : string :=
  match l with
  | Added t => String "+" t
  | Context t => String " " t
  | Removed t => String "-" t
  end.

(** The header line of a hunk, as git writes it *)
Definition hunkCount (n : option nat) : string :=
  match n with
  | Some k => "," +:+ Js.showNat k
  | None => EmptyString
  end.

Definition hunkHeader (a : nat) (b : option nat) (c : nat) (d : option nat)
  (tail : string) : string :=
  "@@ -" +:+ Js.showNat a +:+ hunkCount b +:+ " +" +:+ Js.showNat c +:+
  hunkCount d +:+ " @@" +:+ tail.

Definition header (h : hunk) : string :=
  hunkHeader (oldStart h) (oldCount h) (newStart h) (newCount h) (heading h).

(** The first line of a file block, as git writes it *)
Definition gitLine (b : fileBlock) : string :=
  "diff --git a/" +:+ oldPath b +:+ " b/" +:+ path b.

Definition renderHunk (h : hunk) : list string :=
  header h :: map renderLine (body h).

Definition renderBlock (b : fileBlock) : list string :=
  gitLine b :: preamble b ++ concat (map renderHunk (hunks b)).

Definition renderDiff (d : list fileBlock) : list string :=
  concat (map renderBlock d).

(** The numbers of the additions of a hunk body whose first line has number
    [n] in the new file: additions and context lines occupy a line of the
    new file, removals do not. *)
Fixpoint additionsFrom (n : Z) (ls : list hunkLine) : gset Z :=
  match ls with
  | [] => ∅
  | Added _ :: rest => {[n]} ∪ additionsFrom (n + 1) rest
  | Context _ :: rest => additionsFrom (n + 1) rest
  | Removed _ :: rest => additionsFrom n rest
  end.

(** The new-file start of a hunk is the number [c] written in its header *)
Definition additionsOfHunk (h : hunk) : gset Z :=
  additionsFrom (Z.of_nat (newStart h)) (body h).

Definition additionsOfBlock (b : fileBlock) : gset Z :=
  ⋃ (map additionsOfHunk (hunks b)).

(** The additions of a file in the whole diff *)
Definition additionsOf (d : list fileBlock) (f : string) : gset Z :=
  ⋃ (map additionsOfBlock (List.filter (fun b => String.eqb (path b) f) d)).

(** The diffs for which the map is shown to be exact.  The text of an
    addition does not begin with two plus signs (its line would read as a
    [+++] marker).  The line numbers of a hunk stay below 2^53, where the
    numbers of the program are exact.  The old path holds no [b/], the new
    path is a non-empty trimmed text on one line, and the lines before the
    first hunk are neither headers nor additions. *)
Definition wfLine (l : hunkLine) : bool :=
  match l with
  | Added t => negb (Js.startsWith t "++")
  | _ => true
  end.

Definition wfHunk (h : hunk) : bool :=
  forallb wfLine (body h)
  && (Z.of_nat (newStart h + length (body h)) <? 2 ^ 53)%Z.

Definition wfPreamble (l : string) : bool :=
  negb (Js.startsWith l "diff --git") && negb (Js.startsWith l "@@")
  && negb (Js.startsWith l "+" && negb (Js.startsWith l "+++")).

Definition wfBlock (b : fileBlock) : bool :=
  negb (Js.includes (oldPath b) "b/")
  && oneLine (path b)
  && String.eqb (Js.trim (path b)) (path b)
  && Js.truthy (path b)
  && forallb wfPreamble (preamble b)
  && forallb wfHunk (hunks b).

Definition wfDiff (d : list fileBlock) : bool := forallb wfBlock d.

(** No line of the diff holds a line feed, so that the text splits back into
    these lines *)
Definition noNewline (s : string) : bool := negb (Js.includes s Js.nl).

Definition diffText (d : list fileBlock) : string := Js.unlines (renderDiff d).

End DiffModel.

(** ** The claims that fail as they are stated, and the inputs used below *)

Module AsStated.
Import Review.

(** "For every Fix record generated by the issue-detection pass, the fix's
    line number is a member of the staged-change map entry for its file." *)
Definition fixesOnStagedLines : Prop :=
  ∀ (patterns : list (string * list pattern)) (fs : string -> option string)
    (diff : string) (c : change),
    In c (changesOf (analyse patterns fs diff)) →
    isStaged (buildStagedChanges (Js.lines diff)) (file c) (line c) = true.

(** "Each fix performs exactly one substring replacement of its original
    text with its replacement text." *)
Definition everyFixReplacesOnce : Prop :=
  ∀ (content : string) (f : Feedback.autoFix),
    ∃ pre post,
      content = pre +:+ Feedback.original f +:+ post
      ∧ Patch.applyFix content f = pre +:+ Feedback.improved f +:+ post.

(** "After the dispositions are finalized, autoApplyAndRecommit performs the
    commit": whenever a file was applied and git accepts commits, a commit is
    issued. *)
Definition recommitAlwaysCommits : Prop :=
  ∀ (e : Proc.env) (appliedFiles : list Patch.appliedFile) (w : Proc.world),
    appliedFiles ≠ [] → Proc.commitError e = None →
    ∃ msg flags,
      In (Proc.GitCommit msg flags) (Proc.git (snd (Patch.recommit e appliedFiles w))).


(** "On a confirmation that times out, skip resolves to Rejected, the files
    are left untouched, and the commit is still allowed (process exits 0)":
    when no confirmation is ever answered, the run of the apply step ends
    with exit code 0. *)
Definition skipAllowsCommit : Prop :=
  ∀ (e : Proc.env) (autoFixes : list Feedback.autoFix) (staged : list string)
    (w : Proc.world),
    Proc.DEFAULT_ON_CANCEL e = "skip" → Proc.responses w = [] →
    Proc.exitCodeOf (fst (Patch.autoApplyAndRecommit e autoFixes staged w))
    = Some 0%Z.


End AsStated.

Module Examples.
Import DiffModel.

(** The added line of scenario A of the specification: an empty catch block
    at line 12 of the new file *)
Definition scenarioA : list fileBlock := [
  mkBlock "src/app.js" "src/app.js"
    ["index 1111111..2222222 100644"; "--- a/src/app.js"; "+++ b/src/app.js"]
    [mkHunk 10 (Some 2) 10 (Some 3) ""
       [Context "  try { run(); }"; Context "  // keep"; Added "  catch (e) {}"]]
].

(** The same change as git writes it *)
Definition scenarioAText : string :=
  Js.unlines ["diff --git a/src/app.js b/src/app.js";
              "index 1111111..2222222 100644";
              "--- a/src/app.js"; "+++ b/src/app.js";
              "@@ -10,2 +10,3 @@";
              "   try { run(); }"; "   // keep"; "+  catch (e) {}"].

(** The file of scenario A after the change *)
Definition appText : string :=
  Js.unlines ["// 1"; "// 2"; "// 3"; "// 4"; "// 5"; "// 6"; "// 7"; "// 8";
              "// 9"; "  try { run(); }"; "  // keep"; "  catch (e) {}"].

Definition appFiles : string -> option string :=
  fun p => if String.eqb p "src/app.js" then Some appText else None.

(** A change of lib/x.js: the first line of the file is added *)
Definition libDiff : list fileBlock := [
  mkBlock "lib/x.js" "lib/x.js" []
    [mkHunk 0 (Some 0) 1 None "" [Added "run();"]]
].

(** An addition that no hunk header precedes *)
Definition looseAddition : list string :=
  ["diff --git a/x.js b/x.js"; "+foo()"].

(** A staged change of x.js whose hunk header quotes a line that mentions
    [process.env]: the filter of [validateCommit] takes the header for a line
    of an excluded file *)
Definition envHunkDiff : string :=
  Js.unlines ["diff --git a/x.js b/x.js"; "index 1111111..2222222 100644";
              "--- a/x.js"; "+++ b/x.js";
              "@@ -7,2 +7,3 @@ const key = process.env.KEY;";
              " function f() {"; "+  foo();"; " }"].

(** A staged change of the only line of x.js, which calls [eval] *)
Definition evalDiff : string :=
  Js.unlines ["diff --git a/x.js b/x.js"; "@@ -1 +1 @@"; "+eval(x)"].

Definition evalFiles : string -> option string :=
  fun p => if String.eqb p "x.js" then Some "eval(x)" else None.

(** A staged change that adds a call on an array declared on the line
    before *)
Definition itemsText : string :=
  "const myItems = [];" +:+ Js.nl +:+ "myItems.push(1);".

Definition itemsDiff : string :=
  Js.unlines ["diff --git a/a.js b/a.js"; "@@ -1 +1,2 @@"; " const myItems = [];";
              "+myItems.push(1);"].

Definition itemsFiles : string -> option string :=
  fun p => if String.eqb p "a.js" then Some itemsText else None.

(** A file of one line, added by the staged change, whose long identifier
    trips the rule on long names; no rewrite changes the line *)
Definition cfgDiff : string :=
  Js.unlines ["diff --git a/cfg.js b/cfg.js"; "@@ -0,0 +1 @@";
              "+configuration.load();"].

Definition cfgFiles : string -> option string :=
  fun p => if String.eqb p "cfg.js" then Some "configuration.load();" else None.

(** The rule on long names, the fourth of the error-detection rules *)
Definition longNameRule : pattern :=
  nth 3 Catalogue.errorDetection (mkPattern Re.Eps "" low "").

(** The rule on method calls of an unknown name, the first of the
    error-detection rules *)
Definition methodCallRule : pattern :=
  nth 0 Catalogue.errorDetection (mkPattern Re.Eps "" low "").


(** Two fixes of one file, at lines 8 and 20 (scenario E): the one at line 8
    inserts a declaration *)
Definition fixAt8 : Feedback.autoFix :=
  Feedback.mkFix "a.js" 8 "items.push(1)" "const items = []; items.push(1)" None None.
Definition fixAt20 : Feedback.autoFix :=
  Feedback.mkFix "a.js" 20 "eval(x)" "run(x)" None None.

(** A fix whose original text is not in the file *)
Definition absentFix : Feedback.autoFix :=
  Feedback.mkFix "a.js" 1 "b" "c" None None.

(** A run with the defaults: an interactive terminal, no token, the
    identity for path resolution *)
Definition plainEnv (diff : string) (staged : list string) : Proc.env :=
  Proc.mkEnv (fun p => p) None None None None true true false false None false
    diff staged "main" None.

(** A change of yarn.lock only; the added line is longer than 100
    characters *)
Definition lockDiff : string :=
  Js.unlines [
    "diff --git a/yarn.lock b/yarn.lock";
    "index 1111111..2222222 100644";
    "--- a/yarn.lock";
    "+++ b/yarn.lock";
    "@@ -3 +3 @@";
    "-  integrity sha512-AAAAAAAAAAAAAAAAAAAAAAAAAAAAAAAAAAAAAAAAAAAAAAAAAAAAAAAAAAAAAAAAAAAAAAAAAAAAAAAAAAAAAAAAAAAAAAAAAAAA==";
    "+  integrity sha512-BBBBBBBBBBBBBBBBBBBBBBBBBBBBBBBBBBBBBBBBBBBBBBBBBBBBBBBBBBBBBBBBBBBBBBBBBBBBBBBBBBBBBBBBBBBBBBBBBBBB=="
  ].

Definition lockWorld (rs : list Proc.response) : Proc.world :=
  Proc.mkWorld {["yarn.lock" := "# yarn lockfile v1"]} rs [] [].





(** A staged change that no rule objects to, with a token *)
Definition cleanDiff : string :=
  Js.unlines ["diff --git a/a.js b/a.js"; "@@ -1 +1 @@"; "-run(1);"; "+run(2);"].

Definition cleanEnv : Proc.env :=
  Proc.mkEnv (fun p => p) None None None None true true false true None false
    cleanDiff ["a.js"] "main" None.

Definition cleanWorld : Proc.world :=
  Proc.mkWorld {["a.js" := "run(2);"]} [] [] [].

(** A run under [AI_AUTO_SELECT=4] *)
Definition autoSelectEnv : Proc.env :=
  Proc.mkEnv (fun p => p) None None (Some "4") None false false false true None
    false "" ["a.js"] "main" None.

(** The policy [skip] on an interactive terminal; one fix for a staged file *)
Definition skipEnv : Proc.env :=
  Proc.mkEnv (fun p => p) (Some "skip") None None None true true false true None
    false "" ["a.js"] "main" None.

Definition autoApplyEnv : Proc.env :=
  Proc.mkEnv (fun p => p) (Some "auto-apply") None None None true true false true
    None false "" ["a.js"] "main" None.

Definition evalFix : Feedback.autoFix :=
  Feedback.mkFix "a.js" 1 "eval(x)" "run(x)" None None.

Definition unanswered : Proc.world :=
  Proc.mkWorld {["a.js" := "eval(x)"]} [] [] [].

(** Two staged files, one of which bears the name of the backup of the
    other; the user declines *)
Definition collidingFixes : list Feedback.autoFix :=
  [Feedback.mkFix "a.js.ai-backup" 1 "B" "Y" None None;
   Feedback.mkFix "a.js" 1 "A" "X" None None].

Definition collidingWorld : Proc.world :=
  Proc.mkWorld {["a.js" := "A"; "a.js.ai-backup" := "B"]}
    [Proc.Answered (Proc.ABool false)] [] [].

(** A commit that stages a.js together with a.js.copilot-backup, a backup
    left by an earlier run; both hold a call of [eval].  The user chooses to
    apply the suggestions and then declines them file by file. *)
Definition leftoverDiff : string :=
  Js.unlines ["diff --git a/a.js b/a.js"; "@@ -0,0 +1 @@"; "+eval(x)";
              "diff --git a/a.js.copilot-backup b/a.js.copilot-backup";
              "@@ -0,0 +1 @@"; "+eval(y)"].

Definition leftoverEnv : Proc.env :=
  Proc.mkEnv (fun p => p) None None None None true true false true None false
    leftoverDiff ["a.js"; "a.js.copilot-backup"] "main" None.

Definition leftoverWorld : Proc.world :=
  Proc.mkWorld {["a.js" := "eval(x)"; "a.js.copilot-backup" := "eval(y)"]}
    [Proc.Answered (Proc.AStr "🚀 Auto-apply Copilot suggestions and recommit");
     Proc.Answered (Proc.ABool false); Proc.Answered (Proc.ABool false)] [] [].

(** Two staged files without collision; the user declines *)
Definition twoFixes : list Feedback.autoFix :=
  [Feedback.mkFix "a.js" 1 "A" "X" None None;
   Feedback.mkFix "b.js" 1 "B" "Y" None None].

Definition twoFiles : Proc.world :=
  Proc.mkWorld {["a.js" := "A"; "b.js" := "B"]}
    [Proc.Answered (Proc.ABool false)] [] [].

(** One applied file, and a user who declines the recommit *)
Definition oneApplied : list Patch.appliedFile :=
  [Patch.mkApplied "a.js" "a.js.copilot-backup" 1].

Definition declining : Proc.world :=
  Proc.mkWorld {["a.js" := "run(x)"; "a.js.copilot-backup" := "eval(x)"]}
    [Proc.Answered (Proc.ABool false)] [] [].

Definition accepting : Proc.world :=
  Proc.mkWorld {["a.js" := "run(x)"; "a.js.copilot-backup" := "eval(x)"]}
    [Proc.Answered (Proc.ABool true)] [] [].

End Examples.

(** ** Vocabulary of the statements *)

Module Terms.
Export Text.
Import Proc.
Import Feedback.

(** The heading of the section of the feedback that lists the fixes *)
Definition marker : string := "AUTO_APPLICABLE_FIXES".

(** A text that fills one field of a line of that section: not empty, on
    one line, and not holding the heading *)
Definition plainText (s : string) : Prop :=
  s ≠ EmptyString ∧ oneLine s = true ∧ Js.includes s marker = false.

(** A fix record whose line of the section can be read back: the texts are
    written trimmed, and the original text holds no arrow sign *)
Definition readable (c : Review.change) : Prop :=
  (0 ≤ Review.line c)%Z
  ∧ plainText (Js.trim (Review.original c))
  ∧ Js.includes (Js.trim (Review.original c)) "→" = false
  ∧ plainText (Js.trim (Review.improved c)).

(** The fix expected back from the record [c] listed under the file [f] *)
Definition readBack (f : string) (c : Review.change) : autoFix :=
  mkFix (Js.trim f) (Review.line c) (Js.trim (Review.original c))
    (Js.trim (Review.improved c)) None None.

(** An entry of [fileChanges] whose lines can be read back *)
Definition listed (e : string * list Review.change) : Prop :=
  oneLine (fst e) = true ∧ Js.includes (fst e) marker = false
  ∧ Js.trim (fst e) ≠ EmptyString ∧ Forall readable (snd e).

(** The books of the analysis are in order: one suggestion per issue, one
    entry per file, no empty entry, every fix record under the file it
    carries and with a trimmed original text, and no more fix records than
    issues *)
Definition booked (st : Review.reviewState) : Prop :=
  length (Review.issues st) = length (Review.suggestions st)
  ∧ NoDup (map fst (Review.fileChanges st))
  ∧ (∀ f cs, In (f, cs) (Review.fileChanges st) →
       cs ≠ []
       ∧ ∀ c, In c cs →
              Review.file c = f
              ∧ Js.trim (Review.original c) = Review.original c)
  ∧ length (Review.changesOf st) ≤ length (Review.issues st).

(** A line that the reader of the section passes over *)
Definition inert (l : string) : bool :=
  negb (Js.startsWith l "File: ") && negb (Js.includes l arrow).

(** What saving the fixes of the files [names] leaves behind: no prompt, no
    commit, the staging of staged files among [names] only, the same set of
    paths, and every path that is not one of those files as it was *)
Definition savedOnly (e : env) (staged names : list string) (w w' : world)
  : Prop :=
  responses w' = responses w ∧ asked w' = asked w
  ∧ (∃ added, git w' = git w ++ map GitAdd added
              ∧ ∀ n, In n added →
                     Patch.isStagedFile staged n = true ∧ In n names)
  ∧ (∀ p, is_Some (fs w' !! p) ↔ is_Some (fs w !! p))
  ∧ (∀ p, (∀ n, In n names → Patch.isStagedFile staged n = true →
                resolve e n ≠ p) →
          fs w' !! p = fs w !! p).

(** The git commands of the guided recommit *)
Definition allowedCmd (g : gitCmd) : Prop :=
  g = GitAdd "./*" ∨ ∃ m, g = GitCommit m ["--no-verify"].

(** The names of [EXCLUDED_FILES] that the filter looks for as they are:
    neither a directory nor a wildcard *)
Definition literalNames : list string :=
  List.filter (fun pat => negb (Js.endsWith pat "/") && negb (Js.includes pat "*"))
    Validate.EXCLUDED_FILES.

(** The fixes of one file, and the group filed under a name *)
Definition ofFile (g : string) (f : autoFix) : bool := String.eqb (filename f) g.

Fixpoint groupOf (g : string) (groups : list (string * list autoFix))
  : option (list autoFix) :=
  match groups with
  | [] => None
  | (h, fs) :: rest => if String.eqb h g then Some fs else groupOf g rest
  end.

(** The invariant of the grouping loop, [seen] being the fixes met so far *)
Definition grouped (seen : list autoFix) (groups : list (string * list autoFix))
  : Prop :=
  NoDup (map fst groups)
  ∧ ∀ g, groupOf g groups
         = match List.filter (ofFile g) seen with
           | [] => None
           | fs => Some fs
           end.

End Terms.

(** * Proofs *)

#[local] Set Warnings "-clear-no-such-hyp".

(** ** Facts about the string primitives *)

Module StringFacts.
Import DiffModel.
#[local] Arguments String.append !_ _ / : simpl nomatch.

Lemma app_empty_r (s : string) : s +:+ "" = s.
Proof. induction s as [|c s IH]; cbn; [done|]. by rewrite IH. Qed.

Lemma app_assoc_s (a b c : string) : (a +:+ b) +:+ c = a +:+ (b +:+ c).
Proof. induction a as [|x a IH]; cbn; [done|]. by rewrite IH. Qed.

Lemma app_cons (c : ascii) (a b : string) : String c a +:+ b = String c (a +:+ b).
Proof. done. Qed.

Lemma length_app_s (a b : string) :
  String.length (a +:+ b) = String.length a + String.length b.
Proof. induction a as [|x a IH]; cbn; [done|]. by rewrite IH. Qed.

Lemma rev_app_spec (s acc : string) :
  String.rev_app s acc = String.rev_app s "" +:+ acc.
Proof.
  revert acc. induction s as [|c s IH]; intros acc; cbn; [done|].
  rewrite IH, (IH (String c "")), app_assoc_s. done.
Qed.

Lemma rev_cons (c : ascii) (s : string) :
  String.rev (String c s) = String.rev s +:+ String c "".
Proof. unfold String.rev. cbn. apply rev_app_spec. Qed.

Lemma rev_app_distr (a b : string) :
  String.rev (a +:+ b) = String.rev b +:+ String.rev a.
Proof.
  induction a as [|c a IH].
  - cbn. by rewrite app_empty_r.
  - rewrite app_cons, !rev_cons, IH, app_assoc_s. done.
Qed.

Lemma rev_involutive_s (s : string) : String.rev (String.rev s) = s.
Proof.
  induction s as [|c s IH]; [done|].
  rewrite rev_cons, rev_app_distr, IH. done.
Qed.

Lemma prefix_nil (s : string) : String.prefix "" s = true.
Proof. by destruct s. Qed.

Lemma prefix_cons (a b : ascii) (s t : string) :
  String.prefix (String a s) (String b t)
  = (if Ascii.eqb a b then String.prefix s t else false).
Proof.
  cbn. destruct (ascii_dec a b) as [->|Hne].
  - by rewrite Ascii.eqb_refl.
  - apply Ascii.eqb_neq in Hne. by rewrite Hne.
Qed.

(** *** split and join *)

Lemma includes_cons_false c s sub :
  Js.includes (String c s) sub = false → Js.includes s sub = false.
Proof. cbn. intros H. apply orb_false_iff in H. tauto. Qed.

Lemma noNewline_cons c s :
  noNewline (String c s) = true → c ≠ Js.newline ∧ noNewline s = true.
Proof.
  unfold noNewline. intros H. apply negb_true_iff in H.
  split.
  - intros ->. cbn in H. by rewrite prefix_nil in H.
  - apply negb_true_iff. by eapply includes_cons_false.
Qed.

Lemma split_go_line (x cur rest : string) :
  noNewline x = true →
  Js.split_go Js.newline cur (x +:+ String Js.newline rest)
  = (String.rev cur +:+ x) :: Js.split_go Js.newline "" rest.
Proof.
  revert cur. induction x as [|c x IH]; intros cur Hx.
  - cbn. by rewrite app_empty_r.
  - apply noNewline_cons in Hx as [Hc Hx].
    rewrite app_cons. cbn [Js.split_go].
    destruct (Ascii.eqb_spec c Js.newline) as [->|_]; [done|].
    rewrite IH by done. rewrite rev_cons, app_assoc_s. done.
Qed.

Lemma split_go_last (x cur : string) :
  noNewline x = true →
  Js.split_go Js.newline cur x = [String.rev cur +:+ x].
Proof.
  revert cur. induction x as [|c x IH]; intros cur Hx.
  - cbn. by rewrite app_empty_r.
  - apply noNewline_cons in Hx as [Hc Hx].
    cbn [Js.split_go].
    destruct (Ascii.eqb_spec c Js.newline) as [->|_]; [done|].
    rewrite IH by done. rewrite rev_cons, app_assoc_s. done.
Qed.

Lemma lines_unlines (l : list string) :
  l ≠ [] → forallb noNewline l = true → Js.lines (Js.unlines l) = l.
Proof.
  induction l as [|x l IH]; [done|]. intros _ H.
  cbn in H. apply andb_true_iff in H as [Hx Hl].
  destruct l as [|y l].
  - cbn. unfold Js.lines, Js.split. by rewrite split_go_last.
  - unfold Js.lines, Js.unlines, Js.split in *.
    change (Js.join Js.nl (x :: y :: l)) with (x +:+ Js.nl +:+ Js.join Js.nl (y :: l)).
    unfold Js.nl at 1. rewrite app_cons. 
    change ("" +:+ Js.join Js.nl (y :: l)) with (Js.join Js.nl (y :: l)).
    rewrite split_go_line by done. cbn [String.rev String.rev_app].
    f_equal. apply IH; done.
Qed.

(** *** Substring replacement *)

Lemma prefix_decompose (o : string) : ∀ s,
  String.prefix o s = true → s = o +:+ Js.substringFrom (String.length o) s.
Proof.
  induction o as [|c o IH]; intros s H; [done|].
  destruct s as [|d s]; [done|]. rewrite prefix_cons in H.
  destruct (Ascii.eqb_spec c d) as [->|]; [|done].
  cbn. f_equal. by apply IH.
Qed.

Lemma prefix_app_same (o x : string) : String.prefix o (o +:+ x) = true.
Proof.
  induction o as [|c o IH]; [apply prefix_nil|].
  rewrite app_cons, prefix_cons, Ascii.eqb_refl. done.
Qed.

(** Whether [o] is a prefix depends on the first [length o] characters only *)
Lemma prefix_app_long (o : string) : ∀ u x,
  String.length o ≤ String.length u →
  String.prefix o (u +:+ x) = String.prefix o u.
Proof.
  induction o as [|c o IH]; intros u x Hlen.
  - by rewrite !prefix_nil.
  - destruct u as [|d u]; [cbn in Hlen; lia|].
    rewrite app_cons, !prefix_cons. destruct (Ascii.eqb c d); [|done].
    apply IH. cbn in Hlen. lia.
Qed.

Lemma take_app_exact (pre rest : string) :
  Js.take (String.length pre) (pre +:+ rest) = pre.
Proof. induction pre as [|c pre IH]; [by destruct rest|]. cbn. by rewrite IH. Qed.

Lemma substringFrom_app_exact (pre rest : string) :
  Js.substringFrom (String.length pre) (pre +:+ rest) = rest.
Proof. induction pre as [|c pre IH]; [by destruct rest|]. done. Qed.

Lemma indexOf_cons c s o :
  Js.indexOf (String c s) o
  = if String.prefix o (String c s) then Some 0 else option_map S (Js.indexOf s o).
Proof. done. Qed.

Lemma indexOf_decompose (s o : string) : ∀ i,
  Js.indexOf s o = Some i →
  s = Js.take i s +:+ o +:+ Js.substringFrom (i + String.length o) s.
Proof.
  induction s as [|c s IH]; intros i.
  - cbn [Js.indexOf]. destruct (String.prefix o "") eqn:Hp; [|done].
    intros [= <-]. apply prefix_decompose in Hp. exact Hp.
  - rewrite indexOf_cons. destruct (String.prefix o (String c s)) eqn:Hp.
    + intros [= <-]. apply prefix_decompose in Hp. exact Hp.
    + destruct (Js.indexOf s o) as [j|] eqn:Hj; [|done].
      intros [= <-]. cbn. f_equal. by apply IH.
Qed.

(** The occurrence found is the first one *)
Lemma indexOf_first (s o : string) : ∀ i j,
  Js.indexOf s o = Some i → j < i →
  String.prefix o (Js.substringFrom j s) = false.
Proof.
  induction s as [|c s IH]; intros i j.
  - cbn [Js.indexOf]. destruct (String.prefix o ""); [|done]. intros [= <-]. lia.
  - rewrite indexOf_cons. destruct (String.prefix o (String c s)) eqn:Hp.
    + intros [= <-]. lia.
    + destruct (Js.indexOf s o) as [k|] eqn:Hk; [|done].
      intros [= <-] Hj. destruct j as [|j]; [done|].
      cbn. apply (IH k); [done|lia].
Qed.

Lemma indexOf_app_stable (o x y : string) : ∀ pre,
  Js.indexOf (pre +:+ o +:+ x) o = Some (String.length pre) →
  Js.indexOf (pre +:+ o +:+ y) o = Some (String.length pre).
Proof.
  induction pre as [|c pre IH].
  - intros _. cbn [String.append String.length].
    destruct (o +:+ y) eqn:E.
    + cbn. destruct o; [done|discriminate E].
    + rewrite indexOf_cons, <- E, prefix_app_same. done.
  - rewrite !app_cons, !indexOf_cons. cbn [String.length].
    rewrite <- !app_cons, <- !app_assoc_s.
    rewrite !(prefix_app_long o (String c pre +:+ o))
      by (rewrite length_app_s; lia).
    destruct (String.prefix o (String c pre +:+ o)); [done|].
    rewrite !app_assoc_s.
    destruct (Js.indexOf (pre +:+ o +:+ x) o) as [k|] eqn:Hk; [|done].
    intros [= ->]. by rewrite IH.
Qed.

Lemma includes_dollar_cons c t :
  Js.isLiteral (String c t) = true → c ≠ "$"%char ∧ Js.isLiteral t = true.
Proof.
  unfold Js.isLiteral. rewrite !negb_true_iff. cbn [Js.includes].
  rewrite orb_false_iff, prefix_cons, prefix_nil. intros [Hc Ht]. split; [|done].
  intros ->. done.
Qed.

Lemma getSubstitution_literal (m b a : string) : ∀ repl,
  Js.isLiteral repl = true → Js.getSubstitution m b a repl = repl.
Proof.
  induction repl as [|c t IH]; [done|]. intros [Hc Ht]%includes_dollar_cons.
  cbn [Js.getSubstitution].
  destruct (Ascii.eqb_spec c "$") as [->|Hne]; [done|].
  rewrite IH by done.
  destruct c as [[] [] [] [] [] [] [] []]; try done.
Qed.

(** The replacement of a text whose first occurrence splits the content *)
Lemma replace_at (pre o post repl : string) :
  Js.indexOf (pre +:+ o +:+ post) o = Some (String.length pre) →
  Js.replace (pre +:+ o +:+ post) o repl
  = pre +:+ Js.getSubstitution o pre post repl +:+ post.
Proof.
  intros H. unfold Js.replace. rewrite H. cbv zeta.
  assert (Js.substringFrom (String.length pre + String.length o)
            (pre +:+ o +:+ post) = post) as ->.
  { rewrite <- length_app_s, <- app_assoc_s. apply substringFrom_app_exact. }
  by rewrite take_app_exact.
Qed.

End StringFacts.

(** ** Captures of a successful match *)

Module RegexFacts.
Import Re.

Lemma get_cap_filter i j (c : captures) :
  j ≠ i →
  get_cap i (List.filter (fun p => negb (Nat.eqb (fst p) j)) c) = get_cap i c.
Proof.
  intros Hne. induction c as [|[k v] c IH]; [done|]. cbn.
  destruct (Nat.eqb_spec k j) as [->|Hkj]; cbn.
  - rewrite IH. destruct (Nat.eqb_spec j i); [done|done].
  - by rewrite IH.
Qed.

Lemma get_cap_set_same i v c : get_cap i (set_cap i v c) = Some v.
Proof. unfold set_cap. cbn. by rewrite Nat.eqb_refl. Qed.

Lemma get_cap_set_other i j v c :
  j ≠ i → get_cap i (set_cap j v c) = get_cap i c.
Proof.
  intros Hne. unfold set_cap. cbn.
  destruct (Nat.eqb_spec j i); [done|]. by apply get_cap_filter.
Qed.



Section Reach.
Context (i : nat).




End Reach.
End RegexFacts.

(** ** Decimal numbers *)

Module NumFacts.
Import StringFacts Terms.
#[local] Arguments String.append !_ _ / : simpl nomatch.


Lemma every_app p a b : every p (a +:+ b) = every p a && every p b.
Proof.
  induction a as [|c a IH]; [done|]. rewrite app_cons. cbn [every].
  by rewrite IH, andb_assoc.
Qed.

Lemma digit_char_ok d :
  d < 10 →
  Js.is_digit (Js.digit_char d) = true ∧ Js.digit_val (Js.digit_char d) = d.
Proof.
  intros H. do 10 (destruct d as [|d]; [by vm_compute|]). lia.
Qed.

Lemma showNat_go_step fuel n acc :
  Js.showNat_go (S fuel) n acc
  = if Nat.ltb n 10 then String (Js.digit_char (n mod 10)) acc
    else Js.showNat_go fuel (n / 10) (String (Js.digit_char (n mod 10)) acc).
Proof. done. Qed.

Lemma showNat_go_parse n : ∀ fuel acc,
  n < fuel →
  Js.parseDigits_go 0 (Js.showNat_go fuel n acc) = Js.parseDigits_go n acc.
Proof.
  induction n as [n IH] using lt_wf_ind. intros fuel acc Hf.
  destruct fuel as [|fuel]; [lia|]. rewrite showNat_go_step.
  destruct (digit_char_ok (n mod 10)) as [Hd Hv].
  { apply Nat.mod_upper_bound. lia. }
  destruct (Nat.ltb_spec n 10) as [Hlt|Hge].
  - cbn [Js.parseDigits_go]. rewrite Hd, Hv. rewrite Nat.mod_small by done.
    f_equal.
  - assert (n / 10 < n) by (apply Nat.div_lt; lia).
    rewrite IH by lia. cbn [Js.parseDigits_go]. rewrite Hd, Hv.
    f_equal. pose proof (Nat.div_mod_eq n 10). lia.
Qed.

(** Reading back a number written in decimal *)
Lemma parseDigits_showNat n : Js.parseDigits (Js.showNat n) = n.
Proof.
  unfold Js.parseDigits, Js.showNat. rewrite showNat_go_parse by lia. done.
Qed.

Lemma showNat_go_app n : ∀ fuel acc,
  Js.showNat_go fuel n acc = Js.showNat_go fuel n "" +:+ acc.
Proof.
  induction n as [n IH] using lt_wf_ind. intros fuel acc.
  destruct fuel as [|fuel]; [done|]. rewrite !showNat_go_step.
  destruct (Nat.ltb_spec n 10) as [Hlt|Hge]; [done|].
  assert (n / 10 < n) by (apply Nat.div_lt; lia).
  rewrite (IH _ H fuel (String _ acc)), (IH _ H fuel (String _ "")).
  by rewrite app_assoc_s.
Qed.

Lemma showNat_go_digits n : ∀ fuel,
  n < fuel →
  every Js.is_digit (Js.showNat_go fuel n "") = true
  ∧ Js.showNat_go fuel n "" ≠ "".
Proof.
  induction n as [n IH] using lt_wf_ind. intros fuel Hf.
  destruct fuel as [|fuel]; [lia|]. rewrite showNat_go_step.
  destruct (digit_char_ok (n mod 10)) as [Hd Hv].
  { apply Nat.mod_upper_bound. lia. }
  destruct (Nat.ltb_spec n 10) as [Hlt|Hge].
  - cbn [every]. by rewrite Hd.
  - assert (n / 10 < n) by (apply Nat.div_lt; lia).
    rewrite showNat_go_app. destruct (IH _ H fuel) as [He Hne]; [lia|].
    split.
    + rewrite every_app, He. cbn [every]. by rewrite Hd.
    + destruct (Js.showNat_go fuel (n / 10) ""); done.
Qed.

(** A number written in decimal is a non-empty text of digits *)
Lemma showNat_digits n :
  every Js.is_digit (Js.showNat n) = true ∧ Js.showNat n ≠ "".
Proof. apply showNat_go_digits. lia. Qed.

Lemma parseInt_showNat n : Js.parseInt (Js.showNat n) = Some (Z.of_nat n).
Proof.
  destruct (showNat_digits n) as [He Hne]. unfold Js.parseInt.
  destruct (Js.showNat n) as [|c t] eqn:E; [done|].
  cbn [every] in He. apply andb_true_iff in He as [Hc _].
  assert (Hsp : Js.is_space c = false).
  { destruct (Js.is_space c) eqn:Hs; [|done]. exfalso. revert Hc Hs.
    unfold Js.is_digit, Js.is_space.
    destruct c as [[] [] [] [] [] [] [] []]; vm_compute; congruence. }
  cbn [Js.trimStart]. rewrite Hsp.
  assert (Hsign : c ≠ "-"%char ∧ c ≠ "+"%char).
  { split; intros ->; by vm_compute in Hc. }
  destruct Hsign as [Hm Hp].
  assert (Hmatch : (match String c t with
          | String "-"%char t0 => (true, t0)
          | String "+"%char t0 => (false, t0)
          | _ => (false, String c t)
          end) = (false, String c t)).
  { destruct c as [[] [] [] [] [] [] [] []]; try done. }
  rewrite Hmatch. rewrite Hc. rewrite <- E, parseDigits_showNat. done.
Qed.

End NumFacts.

(** ** Trimming *)

Module TrimFacts.
Import StringFacts NumFacts.
Import Terms.
#[local] Arguments String.append !_ _ / : simpl nomatch.

Lemma every_rev p (s : string) : every p (String.rev s) = every p s.
Proof.
  induction s as [|c s IH]; [done|].
  rewrite rev_cons, every_app, IH. cbn [every]. rewrite andb_true_r.
  apply andb_comm.
Qed.

Lemma trimStart_spaces (s : string) :
  every Js.is_space s = true → Js.trimStart s = "".
Proof.
  induction s as [|c s IH]; [done|]. cbn [every Js.trimStart].
  intros [Hc Hs]%andb_true_iff. rewrite Hc. by apply IH.
Qed.

Lemma trimStart_app (a b : string) :
  Js.trimStart (a +:+ b)
  = if every Js.is_space a then Js.trimStart b else Js.trimStart a +:+ b.
Proof.
  induction a as [|c a IH]; [done|]. rewrite app_cons.
  cbn [every Js.trimStart]. destruct (Js.is_space c); [apply IH|done].
Qed.

Lemma trimStart_head (s : string) :
  Js.trimStart s = ""
  ∨ ∃ c t, Js.trimStart s = String c t ∧ Js.is_space c = false.
Proof.
  induction s as [|c s IH]; [by left|]. cbn [Js.trimStart].
  destruct (Js.is_space c) eqn:E; [done|]. right. by exists c, s.
Qed.

Lemma trimStart_idem (s : string) :
  Js.trimStart (Js.trimStart s) = Js.trimStart s.
Proof.
  destruct (trimStart_head s) as [->|(c & t & -> & Hc)]; [done|].
  cbn [Js.trimStart]. by rewrite Hc.
Qed.

Lemma trimEnd_cons c (t : string) :
  Js.trimEnd (String c t)
  = if every Js.is_space (String c t) then "" else String c (Js.trimEnd t).
Proof.
  unfold Js.trimEnd. rewrite rev_cons, trimStart_app, every_rev.
  cbn [every]. destruct (every Js.is_space t) eqn:Ht.
  - rewrite andb_true_r. cbn [Js.trimStart].
    destruct (Js.is_space c); [done|].
    rewrite trimStart_spaces by (by rewrite every_rev). done.
  - rewrite andb_false_r, rev_app_distr. done.
Qed.

Lemma trimEnd_spaces (s : string) :
  every Js.is_space s = true → Js.trimEnd s = "".
Proof.
  intros H. unfold Js.trimEnd. rewrite trimStart_spaces; [done|].
  by rewrite every_rev.
Qed.

Lemma every_space_trimEnd (s : string) :
  every Js.is_space (Js.trimEnd s) = every Js.is_space s.
Proof.
  induction s as [|c s IH]; [done|]. rewrite trimEnd_cons.
  destruct (every Js.is_space (String c s)) eqn:E; [done|].
  cbn [every] in *. by rewrite IH.
Qed.

Lemma trimEnd_idem (s : string) : Js.trimEnd (Js.trimEnd s) = Js.trimEnd s.
Proof.
  induction s as [|c s IH]; [done|]. rewrite trimEnd_cons.
  destruct (every Js.is_space (String c s)) eqn:E; [done|].
  rewrite trimEnd_cons. cbn [every] in *.
  by rewrite every_space_trimEnd, E, IH.
Qed.

Lemma trimEnd_app (a b : string) :
  every Js.is_space b = false → Js.trimEnd (a +:+ b) = a +:+ Js.trimEnd b.
Proof.
  intros Hb. induction a as [|c a IH]; [done|].
  rewrite app_cons, trimEnd_cons. cbn [every].
  by rewrite every_app, Hb, andb_false_r, andb_false_r, IH.
Qed.

Lemma trimEnd_nonempty (s : string) :
  Js.trimEnd s ≠ "" → every Js.is_space (Js.trimEnd s) = false.
Proof.
  intros H. rewrite every_space_trimEnd.
  destruct (every Js.is_space s) eqn:E; [|done].
  by rewrite trimEnd_spaces in H.
Qed.

(** Trimming a trimmed text changes nothing *)
Lemma trim_idem (s : string) : Js.trim (Js.trim s) = Js.trim s.
Proof.
  unfold Js.trim.
  assert (H : Js.trimStart (Js.trimEnd (Js.trimStart s)) = Js.trimEnd (Js.trimStart s)).
  { destruct (trimStart_head s) as [->|(c & t & -> & Hc)]; [done|].
    rewrite trimEnd_cons. cbn [every]. rewrite Hc. cbn [andb Js.trimStart].
    by rewrite Hc. }
  by rewrite H, trimEnd_idem.
Qed.

Lemma trim_nonempty_not_spaces (s : string) :
  Js.trim s ≠ "" → every Js.is_space (Js.trim s) = false.
Proof. apply trimEnd_nonempty. Qed.

End TrimFacts.

(** ** Evaluating regular expressions *)

Module RegexEval.
Import StringFacts RegexFacts.
Import Re Terms.
#[local] Arguments String.append !_ _ / : simpl nomatch.

(** *** Evaluating the matcher on texts of a known shape *)

Lemma rmatch_seq a b prev s caps k :
  rmatch (Seq a b) prev s caps k
  = rmatch a prev s caps (fun prev' s' caps' => rmatch b prev' s' caps' k).
Proof. done. Qed.

Lemma rmatch_grp i a prev s caps k :
  rmatch (Grp i a) prev s caps k
  = rmatch a prev s caps
      (fun prev' s' caps' =>
         k prev' s' (set_cap i (Js.take (String.length s - String.length s') s) caps')).
Proof. done. Qed.

Lemma rmatch_chr p c t prev caps k :
  rmatch (Chr p) prev (String c t) caps k = if p c then k (Some c) t caps else None.
Proof. done. Qed.

Lemma rmatch_alt_left a b prev s caps k r :
  rmatch a prev s caps k = Some r → rmatch (Alt a b) prev s caps k = Some r.
Proof. intros H. cbn [rmatch]. by rewrite H. Qed.

Lemma rmatch_alt_right a b prev s caps k :
  rmatch a prev s caps k = None →
  rmatch (Alt a b) prev s caps k = rmatch b prev s caps k.
Proof. intros H. cbn [rmatch]. by rewrite H. Qed.

Lemma rmatch_lit x : ∀ prev s caps k,
  rmatch (lit x) prev (x +:+ s) caps k = k (lastChar prev x) s caps.
Proof.
  induction x as [|c x IH]; intros prev s caps k; [done|].
  destruct x as [|d x].
  - cbn [lit]. unfold chr. rewrite app_cons, rmatch_chr, Ascii.eqb_refl. done.
  - change (lit (String c (String d x))) with (Seq (chr c) (lit (String d x))).
    rewrite rmatch_seq. unfold chr at 1.
    rewrite app_cons, rmatch_chr, Ascii.eqb_refl. by rewrite IH.
Qed.

Lemma rmatch_lit_fail x : ∀ prev s caps k,
  String.prefix x s = false → rmatch (lit x) prev s caps k = None.
Proof.
  induction x as [|c x IH]; intros prev s caps k H.
  - by rewrite prefix_nil in H.
  - destruct s as [|e s].
    + destruct x; done.
    + rewrite prefix_cons in H. destruct x as [|d x].
      * cbn [lit]. unfold chr. rewrite rmatch_chr.
        destruct (Ascii.eqb c e); [by rewrite prefix_nil in H|done].
      * change (lit (String c (String d x))) with (Seq (chr c) (lit (String d x))).
        rewrite rmatch_seq. unfold chr at 1. rewrite rmatch_chr.
        destruct (Ascii.eqb c e); [by apply IH|done].
Qed.

Lemma star_chr_nil p prev caps k :
  rmatch (Star (Chr p)) prev "" caps k = k prev "" caps.
Proof. done. Qed.

Lemma star_chr_cons p c t prev caps k :
  rmatch (Star (Chr p)) prev (String c t) caps k
  = if p c then
      match rmatch (Star (Chr p)) (Some c) t caps k with
      | Some x => Some x
      | None => k prev (String c t) caps
      end
    else k prev (String c t) caps.
Proof.
  cbn [rmatch String.length].
  assert (Hlt : Nat.ltb (String.length t) (S (String.length t)) = true)
    by (apply Nat.ltb_lt; lia).
  rewrite Hlt. by destruct (p c).
Qed.

Lemma starLazy_chr_nil p prev caps k :
  rmatch (StarLazy (Chr p)) prev "" caps k = k prev "" caps.
Proof. done. Qed.

Lemma starLazy_chr_cons p c t prev caps k :
  rmatch (StarLazy (Chr p)) prev (String c t) caps k
  = match k prev (String c t) caps with
    | Some x => Some x
    | None =>
        if p c then rmatch (StarLazy (Chr p)) (Some c) t caps k else None
    end.
Proof.
  cbn [rmatch String.length].
  assert (Hlt : Nat.ltb (String.length t) (S (String.length t)) = true)
    by (apply Nat.ltb_lt; lia).
  rewrite Hlt. by destruct (p c).
Qed.

(** A greedy repetition of one character class takes the whole run when
    what follows accepts the rest *)
Lemma star_greedy p k a : ∀ prev b caps r,
  every p a = true → stopsAt p b = true →
  k (lastChar prev a) b caps = Some r →
  rmatch (Star (Chr p)) prev (a +:+ b) caps k = Some r.
Proof.
  induction a as [|c a IH]; intros prev b caps r Ha Hb Hk.
  - cbn [String.append]. destruct b as [|d b]; [done|].
    rewrite star_chr_cons. cbn in Hb. apply negb_true_iff in Hb.
    by rewrite Hb.
  - cbn [every] in Ha. apply andb_true_iff in Ha as [Hc Ha].
    rewrite app_cons, star_chr_cons, Hc. by rewrite (IH (Some c) b caps r).
Qed.

(** A lazy repetition stops at the first position where what follows
    accepts the rest *)
Lemma starLazy_shortest p k a : ∀ prev b caps r,
  every p a = true →
  (∀ a1 a2, a = a1 +:+ a2 → a2 ≠ "" →
            k (lastChar prev a1) (a2 +:+ b) caps = None) →
  k (lastChar prev a) b caps = Some r →
  rmatch (StarLazy (Chr p)) prev (a +:+ b) caps k = Some r.
Proof.
  induction a as [|c a IH]; intros prev b caps r Ha Hfail Hk.
  - cbn [String.append]. destruct b as [|d b]; [done|].
    rewrite starLazy_chr_cons. cbn in Hk. by rewrite Hk.
  - cbn [every] in Ha. apply andb_true_iff in Ha as [Hc Ha].
    rewrite app_cons, starLazy_chr_cons.
    pose proof (Hfail "" (String c a) eq_refl ltac:(done)) as H0.
    cbn [lastChar] in H0. rewrite app_cons in H0. rewrite H0, Hc. apply IH; [done| |done].
    intros a1 a2 -> Hne. by apply (Hfail (String c a1) a2).
Qed.

Lemma take_matched (x y : string) :
  Js.take (String.length (x +:+ y) - String.length y) (x +:+ y) = x.
Proof.
  rewrite length_app_s.
  replace (String.length x + String.length y - String.length y)
    with (String.length x) by lia.
  apply take_app_exact.
Qed.

Lemma search_from_hit r prev s idx s' c :
  rmatch r prev s [] (fun _ s' c => Some (s', c)) = Some (s', c) →
  search_from r prev s idx
  = Some (mkResult idx (Js.take (String.length s - String.length s') s) c s').
Proof. intros H. destruct s; cbn [search_from]; by rewrite H. Qed.

Lemma search_from_skip x r c t prev idx :
  String.prefix x (String c t) = false →
  search_from (Seq (lit x) r) prev (String c t) idx
  = search_from (Seq (lit x) r) (Some c) t (S idx).
Proof.
  intros H. cbn [search_from]. by rewrite rmatch_seq, rmatch_lit_fail.
Qed.

Lemma includes_app_r (a b sub : string) :
  Js.includes (a +:+ b) sub = false → Js.includes b sub = false.
Proof.
  induction a as [|c a IH]; [done|]. rewrite app_cons.
  intros H. apply IH. by apply includes_cons_false in H.
Qed.

Lemma includes_prefix_false (s sub : string) :
  Js.includes s sub = false → String.prefix sub s = false.
Proof. destruct s; cbn; intros H; apply orb_false_iff in H; tauto. Qed.

Lemma includes_app_hit (a sub b : string) :
  Js.includes (a +:+ sub +:+ b) sub = true.
Proof.
  induction a as [|c a IH].
  - cbn [String.append]. destruct (sub +:+ b) eqn:E; cbn [Js.includes];
      rewrite <- E, prefix_app_same; done.
  - rewrite app_cons. cbn [Js.includes]. rewrite IH. apply orb_true_r.
Qed.

End RegexEval.

(** ** The header lines of a diff *)

Module DiffLines.
Import StringFacts RegexFacts NumFacts RegexEval.
Import Re Text DiffModel Review.
#[local] Arguments String.append !_ _ / : simpl nomatch.

Lemma star_greedy_end p k a prev caps r :
  every p a = true → k (lastChar prev a) "" caps = Some r →
  rmatch (Star (Chr p)) prev a caps k = Some r.
Proof.
  intros Ha Hk. rewrite <- (app_empty_r a) at 1. by apply star_greedy.
Qed.

Lemma take_all (s : string) : Js.take (String.length s - 0) s = s.
Proof.
  rewrite Nat.sub_0_r. rewrite <- (app_empty_r s) at 2. apply take_app_exact.
Qed.

(** *** The [diff --git] line *)

Lemma skip_old_path (r : re) (p : string) : ∀ prev idx rest,
  Js.includes p "b/" = false →
  search_from (Seq (lit "b/") r) prev (p +:+ String " " rest) idx
  = search_from (Seq (lit "b/") r) (lastChar prev p) (String " " rest)
      (idx + String.length p).
Proof.
  induction p as [|c p IH]; intros prev idx rest Hp.
  - cbn. by rewrite Nat.add_0_r.
  - rewrite app_cons, search_from_skip.
    + rewrite IH by (by apply includes_cons_false in Hp).
      cbn [lastChar String.length]. f_equal. lia.
    + destruct p as [|d p].
      * cbn [String.append]. rewrite prefix_cons.
        destruct (Ascii.eqb "b" c); done.
      * rewrite <- app_cons, prefix_app_long by (cbn; lia).
        by apply includes_prefix_false.
Qed.

Lemma diffGitRe_new_path (p q : string) :
  Js.includes p "b/" = false → oneLine q = true →
  Re.group 1 diffGitRe ("diff --git a/" +:+ p +:+ " b/" +:+ q) = Some q.
Proof.
  intros Hp Hq. unfold Re.group, exec, diffGitRe. cbn [seqs].
  cbn [String.append].
  repeat (rewrite search_from_skip by reflexivity).
  change (" b/" +:+ q) with (String " " ("b/" +:+ q)).
  rewrite skip_old_path by done.
  rewrite search_from_skip by reflexivity.
  erewrite search_from_hit.
  2:{ change (String "b" (String "/" q)) with ("b/" +:+ q).
      rewrite rmatch_seq, rmatch_lit, rmatch_seq, rmatch_grp.
      apply star_greedy_end; [done|]. reflexivity. }
  cbn [m_caps]. rewrite take_all. done.
Qed.

(** *** The hunk header *)

Lemma plus_chr p ds rest k prev caps r :
  ds ≠ "" → every p ds = true → stopsAt p rest = true →
  k (lastChar prev ds) rest caps = Some r →
  rmatch (plus (Chr p)) prev (ds +:+ rest) caps k = Some r.
Proof.
  intros Hne Hds Hrest Hk. destruct ds as [|d ds]; [done|].
  cbn [every] in Hds. apply andb_true_iff in Hds as [Hd Hds].
  unfold plus. rewrite rmatch_seq, app_cons, rmatch_chr, Hd.
  by apply star_greedy.
Qed.

Lemma opt_count (b : option nat) rest k prev caps r :
  k (lastChar prev (hunkCount b)) (String " " rest) caps = Some r →
  rmatch (opt (Seq (chr ",") (plus digit))) prev
    (hunkCount b +:+ String " " rest) caps k = Some r.
Proof.
  intros Hk. unfold opt. destruct b as [n|]; cbn [hunkCount] in *.
  - apply rmatch_alt_left. rewrite rmatch_seq. unfold chr at 1.
    rewrite app_assoc_s. change ("," +:+ ?x) with (String "," x).
    rewrite rmatch_chr, Ascii.eqb_refl.
    destruct (showNat_digits n). by apply plus_chr.
  - rewrite rmatch_alt_right; done.
Qed.

Lemma stops_count (b : option nat) rest :
  stopsAt Js.is_digit (hunkCount b +:+ String " " rest) = true.
Proof. by destruct b. Qed.

Lemma hunkRe_new_start (a c : nat) (b d : option nat) (tail : string) :
  Re.group 1 hunkRe (hunkHeader a b c d tail) = Some (Js.showNat c).
Proof.
  unfold Re.group, exec, hunkHeader.
  destruct (showNat_digits a) as [Ha Ha'], (showNat_digits c) as [Hc Hc'].
  erewrite search_from_hit.
  2:{ unfold hunkRe. cbn [seqs].
      change ("@@ -" +:+ ?x) with ("@@" +:+ " " +:+ String "-" x).
      rewrite rmatch_seq, rmatch_lit, rmatch_seq.
      apply plus_chr; [done..|].
      rewrite rmatch_seq. unfold chr at 1. rewrite rmatch_chr, Ascii.eqb_refl.
      rewrite rmatch_seq.
      change (" +" +:+ ?x) with (String " " (String "+" x)).
      apply plus_chr; [done|done|apply stops_count|].
      rewrite rmatch_seq. apply opt_count.
      rewrite rmatch_seq.
      apply (plus_chr _ " "); [done..|].
      rewrite rmatch_seq. unfold chr at 1. rewrite rmatch_chr, Ascii.eqb_refl.
      rewrite rmatch_seq, rmatch_grp.
      change (" @@" +:+ tail) with (String " " ("@@" +:+ tail)).
      apply plus_chr; [done|done|apply stops_count|].
      rewrite take_matched.
      rewrite rmatch_seq. apply opt_count.
      rewrite rmatch_seq.
      apply (plus_chr _ " "); [done..|].
      rewrite rmatch_lit. reflexivity. }
  cbn [m_caps]. apply get_cap_set_same.
Qed.

(** X2: the map of the staged lines takes the new-file start from every hunk
    header that git writes, the counts being present or left out and
    whatever follows the closing marks: the next line of the new file is
    numbered [c] *)
Theorem hunk_header_sets_counter (st : stagedState) (a c : nat)
  (b d : option nat) (tail : string) :
  hunkStart (hunkHeader a b c d tail) = Some (Z.of_nat c)
  ∧ stagedStep st (hunkHeader a b c d tail)
    = mkStaged (stagedChanges st) (currentStagedFile st) (Z.of_nat c - 1).
Proof.
  assert (H : hunkStart (hunkHeader a b c d tail) = Some (Z.of_nat c)).
  { unfold hunkStart. by rewrite hunkRe_new_start, parseDigits_showNat. }
  split; [done|]. unfold stagedStep. rewrite H. done.
Qed.

(** X1: from a [diff --git a/p b/q] line both passes of the analysis take the
    new path [q], trimmed, provided that the old path holds no [b/] and the
    new path no line break *)
Theorem git_line_names_new_path (st : stagedState) (acc : list string)
  (p q : string)
  (Hp : Js.includes p "b/" = false) (Hq : oneLine q = true) :
  fileOf ("diff --git a/" +:+ p +:+ " b/" +:+ q) = Js.trim q
  ∧ stagedStep st ("diff --git a/" +:+ p +:+ " b/" +:+ q)
    = mkStaged (stagedChanges st) (Js.trim q) (currentLineNumber st)
  ∧ addModified acc ("diff --git a/" +:+ p +:+ " b/" +:+ q)
    = (if existsb (String.eqb (Js.trim q)) acc then acc else acc ++ [Js.trim q]).
Proof.
  pose proof (diffGitRe_new_path p q Hp Hq) as H.
  assert (Hf : fileOf ("diff --git a/" +:+ p +:+ " b/" +:+ q) = Js.trim q).
  { unfold fileOf. by rewrite H. }
  split; [done|]. split.
  - unfold stagedStep. rewrite Hf. done.
  - unfold addModified. rewrite H. done.
Qed.

Lemma git_line_names_new_path_witness :
  fileOf "diff --git a/src/old.js b/src/new.js" = "src/new.js".
Proof.
  destruct (git_line_names_new_path stagedInit [] "src/old.js" "src/new.js")
    as (H & _); [reflexivity..|]. exact H.
Defined.

End DiffLines.

(** ** The staged-change map *)

Module StagedMap.
Import StringFacts NumFacts DiffLines.
Import Review.
Import Text DiffModel.
#[local] Arguments String.append !_ _ / : simpl nomatch.

Lemma stagedLines_addStaged m f n g :
  stagedLines (addStaged f n m) g
  = stagedLines m g ∪ (if decide (g = f) then {[n]} else ∅).
Proof.
  unfold stagedLines, addStaged. destruct (decide (g = f)) as [->|Hne].
  - rewrite lookup_insert_eq. cbn. set_solver.
  - rewrite lookup_insert_ne by done. set_solver.
Qed.

Lemma startsWith_cons_ne (c d : ascii) (t p : string) :
  Ascii.eqb d c = false → Js.startsWith (String c t) (String d p) = false.
Proof. intros H. unfold Js.startsWith. by rewrite prefix_cons, H. Qed.

Lemma step_added st t :
  wfLine (Added t) = true →
  stagedStep st (renderLine (Added t))
  = let n := (currentLineNumber st + 1)%Z in
    if Js.truthy (currentStagedFile st)
    then mkStaged (addStaged (currentStagedFile st) n (stagedChanges st))
           (currentStagedFile st) n
    else mkStaged (stagedChanges st) (currentStagedFile st) n.
Proof.
  intros Hwf. cbn in Hwf. apply negb_true_iff in Hwf.
  unfold stagedStep, renderLine.
  rewrite (startsWith_cons_ne "+" "d") by done.
  rewrite (startsWith_cons_ne "+" "@") by done.
  replace (isAddition (String "+" t)) with true; [done|].
  unfold isAddition, Js.startsWith in *.
  rewrite !prefix_cons. cbn [Ascii.eqb Bool.eqb]. rewrite prefix_nil.
  change (String.prefix "++" t) with (String.prefix "++" t).
  by rewrite Hwf.
Qed.

Lemma step_context st t :
  stagedStep st (renderLine (Context t))
  = mkStaged (stagedChanges st) (currentStagedFile st) (currentLineNumber st + 1).
Proof.
  unfold stagedStep, renderLine, isAddition, isCounted.
  rewrite (startsWith_cons_ne " " "d"), (startsWith_cons_ne " " "@"),
    (startsWith_cons_ne " " "+"), (startsWith_cons_ne " " "-") by done.
  done.
Qed.

Lemma step_removed st t : stagedStep st (renderLine (Removed t)) = st.
Proof.
  unfold stagedStep, renderLine, isAddition, isCounted.
  rewrite (startsWith_cons_ne "-" "d"), (startsWith_cons_ne "-" "@"),
    (startsWith_cons_ne "-" "+") by done.
  replace (Js.startsWith (String "-" t) "-") with true; [done|].
  unfold Js.startsWith. by rewrite prefix_cons, prefix_nil.
Qed.

(** The body of a hunk, read from a counter [n]: the file is kept and the
    additions are recorded from [n + 1] on *)
Lemma fold_body ls : ∀ m f n,
  forallb wfLine ls = true → Js.truthy f = true →
  ∃ m' n',
    fold_left stagedStep (map renderLine ls) (mkStaged m f n) = mkStaged m' f n'
    ∧ ∀ g, stagedLines m' g
           = stagedLines m g ∪ (if decide (g = f) then additionsFrom (n + 1) ls else ∅).
Proof.
  induction ls as [|l ls IH]; intros m f n Hwf Hf.
  - exists m, n. split; [done|]. intros g. cbn. destruct (decide _); set_solver.
  - cbn [forallb] in Hwf. apply andb_true_iff in Hwf as [Hl Hls].
    cbn [map fold_left]. destruct l as [t|t|t].
    + rewrite step_added by done. cbn. rewrite Hf.
      destruct (IH (addStaged f (n + 1) m) f (n + 1)%Z Hls Hf) as (m' & n' & Heq & Hm').
      exists m', n'. split; [done|]. intros g. rewrite Hm', stagedLines_addStaged.
      destruct (decide (g = f)); set_solver.
    + rewrite step_context. cbn.
      destruct (IH m f (n + 1)%Z Hls Hf) as (m' & n' & Heq & Hm').
      exists m', n'. split; [done|]. intros g. by rewrite Hm'.
    + rewrite step_removed.
      destruct (IH m f n Hls Hf) as (m' & n' & Heq & Hm').
      exists m', n'. split; [done|]. intros g. by rewrite Hm'.
Qed.

(** The header of a hunk, as git writes it, sets the counter one below the
    new-file start [c] it carries *)
Lemma step_header st h :
  stagedStep st (header h)
  = mkStaged (stagedChanges st) (currentStagedFile st)
      (Z.of_nat (newStart h) - 1).
Proof.
  assert (Hs : hunkStart (header h) = Some (Z.of_nat (newStart h))).
  { unfold hunkStart, header.
    by rewrite hunkRe_new_start, parseDigits_showNat. }
  unfold stagedStep. rewrite Hs. reflexivity.
Qed.

Lemma fold_hunk h m f n :
  wfHunk h = true → Js.truthy f = true →
  ∃ m' n',
    fold_left stagedStep (renderHunk h) (mkStaged m f n) = mkStaged m' f n'
    ∧ ∀ g, stagedLines m' g
           = stagedLines m g ∪ (if decide (g = f) then additionsOfHunk h else ∅).
Proof.
  intros Hwf Hf. unfold renderHunk. cbn [fold_left].
  rewrite step_header. cbn.
  assert (Hb : forallb wfLine (body h) = true).
  { unfold wfHunk in Hwf. rewrite !andb_true_iff in Hwf. tauto. }
  destruct (fold_body (body h) m f (Z.of_nat (newStart h) - 1)%Z Hb Hf)
    as (m' & n' & Heq & Hm').
  exists m', n'. split; [done|]. intros g. rewrite Hm'. unfold additionsOfHunk.
  by replace (Z.of_nat (newStart h) - 1 + 1)%Z with (Z.of_nat (newStart h)) by lia.
Qed.

Lemma fold_hunks hs : ∀ m f n,
  forallb wfHunk hs = true → Js.truthy f = true →
  ∃ m' n',
    fold_left stagedStep (concat (map renderHunk hs)) (mkStaged m f n)
    = mkStaged m' f n'
    ∧ ∀ g, stagedLines m' g
           = stagedLines m g
             ∪ (if decide (g = f) then ⋃ (map additionsOfHunk hs) else ∅).
Proof.
  induction hs as [|h hs IH]; intros m f n Hwf Hf.
  - exists m, n. split; [done|]. intros g. cbn. destruct (decide _); set_solver.
  - cbn [forallb] in Hwf. apply andb_true_iff in Hwf as [Hh Hhs].
    cbn [map concat]. rewrite fold_left_app.
    destruct (fold_hunk h m f n Hh Hf) as (m1 & n1 & -> & Hm1).
    destruct (IH m1 f n1 Hhs Hf) as (m2 & n2 & -> & Hm2).
    exists m2, n2. split; [done|]. intros g. rewrite Hm2, Hm1. cbn.
    destruct (decide (g = f)); set_solver.
Qed.

Lemma step_preamble st l :
  wfPreamble l = true →
  ∃ n', stagedStep st l = mkStaged (stagedChanges st) (currentStagedFile st) n'.
Proof.
  unfold wfPreamble. rewrite !andb_true_iff, !negb_true_iff.
  intros [[H1 H2] H3]. unfold stagedStep, isAddition. rewrite H1, H2, H3.
  destruct (isCounted l); [eexists; done|]. exists (currentLineNumber st).
  by destruct st.
Qed.

Lemma fold_preamble ls : ∀ m f n,
  forallb wfPreamble ls = true →
  ∃ n', fold_left stagedStep ls (mkStaged m f n) = mkStaged m f n'.
Proof.
  induction ls as [|l ls IH]; intros m f n Hwf.
  - by exists n.
  - cbn [forallb] in Hwf. apply andb_true_iff in Hwf as [Hl Hls].
    cbn [fold_left]. destruct (step_preamble (mkStaged m f n) l Hl) as [n1 ->].
    cbn. by apply IH.
Qed.

Lemma fold_block b m f n :
  wfBlock b = true →
  ∃ m' n',
    fold_left stagedStep (renderBlock b) (mkStaged m f n) = mkStaged m' (path b) n'
    ∧ ∀ g, stagedLines m' g
           = stagedLines m g ∪ (if decide (g = path b) then additionsOfBlock b else ∅).
Proof.
  unfold wfBlock. rewrite !andb_true_iff, negb_true_iff.
  intros [[[[[Hold Hone] Htrim] Hpath] Hpre] Hhunks].
  apply String.eqb_eq in Htrim.
  unfold renderBlock. cbn [fold_left]. rewrite fold_left_app.
  assert (stagedStep (mkStaged m f n) (gitLine b) = mkStaged m (path b) n) as ->.
  { assert (Hf : fileOf (gitLine b) = path b).
    { unfold fileOf, gitLine. by rewrite diffGitRe_new_path, Htrim. }
    unfold stagedStep. rewrite Hf. reflexivity. }
  destruct (fold_preamble (preamble b) m (path b) n Hpre) as [n1 ->].
  apply fold_hunks; done.
Qed.

Lemma fold_diff d : ∀ m f n,
  wfDiff d = true →
  ∃ m' f' n',
    fold_left stagedStep (renderDiff d) (mkStaged m f n) = mkStaged m' f' n'
    ∧ ∀ g, stagedLines m' g = stagedLines m g ∪ additionsOf d g.
Proof.
  induction d as [|b d IH]; intros m f n Hwf.
  - exists m, f, n. split; [done|]. intros g. unfold additionsOf. cbn. set_solver.
  - cbn [wfDiff forallb] in Hwf. apply andb_true_iff in Hwf as [Hb Hd].
    unfold renderDiff. cbn [map concat]. rewrite fold_left_app.
    destruct (fold_block b m f n Hb) as (m1 & n1 & -> & Hm1).
    destruct (IH m1 (path b) n1 Hd) as (m2 & f2 & n2 & Heq & Hm2).
    fold (renderDiff d). rewrite Heq.
    exists m2, f2, n2. split; [done|]. intros g. rewrite Hm2, Hm1.
    unfold additionsOf. cbn [List.filter].
    destruct (decide (g = path b)) as [->|Hne].
    + rewrite String.eqb_refl. cbn. set_solver.
    + assert ((path b =? g)%string = false) as ->.
      { apply String.eqb_neq. congruence. }
      set_solver.
Qed.

(** A line number enters the map only at an addition line, as the value the
    counter takes there *)
Lemma recorded_at_addition ls : ∀ st f n,
  n ∈ stagedLines (stagedChanges (fold_left stagedStep ls st)) f →
  n ∈ stagedLines (stagedChanges st) f
  ∨ ∃ pre l post,
      ls = pre ++ l :: post ∧ isAddition l = true
      ∧ currentStagedFile (fold_left stagedStep pre st) = f
      ∧ n = (currentLineNumber (fold_left stagedStep pre st) + 1)%Z.
Proof.
  induction ls as [|l ls IH]; intros st f n Hn; [by left|].
  cbn [fold_left] in Hn. apply IH in Hn as [Hn|(pre & l' & post & -> & Hl' & Hf & Hc)].
  - unfold stagedStep in Hn.
    destruct (Js.startsWith l "diff --git"); [by left|].
    destruct (Js.startsWith l "@@").
    { destruct (hunkStart l); by left. }
    destruct (isAddition l) eqn:Hadd.
    + destruct (Js.truthy (currentStagedFile st)); [|by left].
      cbn in Hn. rewrite stagedLines_addStaged in Hn.
      destruct (decide (f = currentStagedFile st)) as [->|Hne];
        [|left; set_solver].
      apply elem_of_union in Hn as [Hn|Hn]; [by left|].
      apply elem_of_singleton in Hn as ->.
      right. exists [], l, ls. done.
    + destruct (isCounted l); by left.
  - right. exists (l :: pre), l', post. done.
Qed.

(** An addition that no hunk header precedes is recorded all the same, from
    the running counter *)
Example addition_without_header :
  elements (stagedLines (buildStagedChanges Examples.looseAddition) "x.js") = [1%Z].
Proof. vm_compute. reflexivity. Qed.

(** X20.  For a diff made of file blocks as git writes them (a
    [diff --git a/p b/q] line, lines that are neither headers nor additions,
    and hunks opened by a header [@@ -a,b +c,d @@] and made of additions,
    context lines and removals), the staged-change map built from the text
    holds for every file exactly the new-file line numbers of its additions,
    counted from the number [c] of the header.  For any text whatever, a
    recorded line number is the value the running counter takes at an
    addition line, for the file current there; nothing is recorded at a
    context line or at a removal. *)
Theorem staged_map_of_git_diff (d : list fileBlock)
  (Hwf : wfDiff d = true)
  (Hnl : forallb noNewline (renderDiff d) = true) :
  (∀ f, stagedLines (buildStagedChanges (Js.lines (diffText d))) f = additionsOf d f)
  ∧ (∀ (diffLines : list string) (f : string) (n : Z),
       n ∈ stagedLines (buildStagedChanges diffLines) f →
       ∃ pre l post,
         diffLines = pre ++ l :: post ∧ isAddition l = true
         ∧ currentStagedFile (fold_left stagedStep pre stagedInit) = f
         ∧ n = (currentLineNumber (fold_left stagedStep pre stagedInit) + 1)%Z).
Proof.
  split.
  - intros f. unfold buildStagedChanges, diffText.
    destruct (fold_diff d ∅ "" 0%Z Hwf) as (m' & f' & n' & Heq & Hm').
    destruct (decide (renderDiff d = [])) as [Hnil|Hne].
    + rewrite Hnil in *. cbn in Heq. injection Heq as <- <- <-.
      specialize (Hm' f). cbn. unfold stagedLines in *.
      rewrite lookup_empty in *. cbn in *. set_solver.
    + rewrite lines_unlines by done. unfold stagedInit. rewrite Heq. cbn.
      rewrite Hm'. unfold stagedLines at 1. rewrite lookup_empty. cbn. set_solver.
  - intros diffLines f n Hn.
    apply recorded_at_addition in Hn as [Hn|Hn]; [|done].
    unfold stagedInit, stagedLines in Hn. cbn in Hn. rewrite lookup_empty in Hn.
    set_solver.
Qed.

Lemma staged_map_of_git_diff_witness :
  wfDiff Examples.scenarioA = true
  ∧ stagedLines (buildStagedChanges (Js.lines Examples.scenarioAText)) "src/app.js"
    = additionsOf Examples.scenarioA "src/app.js".
Proof.
  split; [reflexivity|].
  change Examples.scenarioAText with (diffText Examples.scenarioA).
  apply (staged_map_of_git_diff Examples.scenarioA); reflexivity.
Defined.

(** C2: the program contradicts the claim.  [scenarioAText] is the change of
    scenario A of the specification as git writes it: in src/app.js one hunk
    [@@ -10,2 +10,3 @@] of two context lines and the addition, which is line
    12 of the new file.  Read from this text the map holds line 12.
    [validateCommit] hands the text to [getCopilotReview] once filtered; the
    filter drops the context lines, which the map counts, so the map of the
    run holds line 10, a context line, and the only lines the run reports
    are numbered 6.  The last three equations are a change of lib/x.js: the
    file name is read after the first [b/] of the [diff --git] line, here
    the one of lib/, so the addition is recorded under another name and the
    entry of lib/x.js is empty. *)
Theorem C2_run_numbers_additions_wrongly :
  diffText Examples.scenarioA = Examples.scenarioAText
  ∧ elements (additionsOf Examples.scenarioA "src/app.js") = [12%Z]
  ∧ elements
      (stagedLines (buildStagedChanges (Js.lines Examples.scenarioAText))
         "src/app.js")
    = [12%Z]
  ∧ Js.lines (Validate.filterMeaningfulChanges Examples.scenarioAText)
    = ["diff --git a/src/app.js b/src/app.js"; "index 1111111..2222222 100644";
       "--- a/src/app.js"; "+++ b/src/app.js"; "@@ -10,2 +10,3 @@";
       "+  catch (e) {}"]
  ∧ elements
      (stagedLines
         (buildStagedChanges
            (Js.lines (Validate.filterMeaningfulChanges Examples.scenarioAText)))
         "src/app.js")
    = [10%Z]
  ∧ map (fun c => (file c, line c))
      (changesOf
         (analyse Catalogue.patterns Examples.appFiles
            (Validate.filterMeaningfulChanges Examples.scenarioAText)))
    = [("src/app.js", 6%Z); ("src/app.js", 6%Z)]
  ∧ diffText Examples.libDiff
    = Js.unlines ["diff --git a/lib/x.js b/lib/x.js"; "@@ -0,0 +1 @@"; "+run();"]
  ∧ elements
      (stagedLines (buildStagedChanges (Js.lines (diffText Examples.libDiff)))
         "lib/x.js")
    = []
  ∧ elements
      (stagedLines (buildStagedChanges (Js.lines (diffText Examples.libDiff)))
         "x.js b/lib/x.js")
    = [1%Z].
Proof. repeat split; vm_compute; reflexivity. Qed.

(** Two more cases outside the diffs described by [wfDiff].  An added line
    whose text begins with two plus signs reads as a [+++] marker: it is
    neither recorded nor counted.  The marker of a missing final line feed
    is counted as a context line. *)
Example addition_read_as_marker :
  elements
    (stagedLines
       (buildStagedChanges
          ["diff --git a/x.js b/x.js"; "@@ -0,0 +1,2 @@"; "+++i;"; "+foo();"])
       "x.js")
  = [1%Z].
Proof. vm_compute. reflexivity. Qed.

Example final_line_feed_marker_is_counted :
  elements
    (stagedLines
       (buildStagedChanges
          ["diff --git a/x.js b/x.js"; "@@ -1 +1 @@"; "-old";
           "\ No newline at end of file"; "+new"; "\ No newline at end of file"])
       "x.js")
  = [2%Z].
Proof. vm_compute. reflexivity. Qed.

(** [validateCommit] hands the diff to [getCopilotReview] once filtered, and
    the filter drops the context lines: the addition on line 2 of a.js is
    then recorded as line 1 *)
Example filtered_diff_loses_context :
  elements (stagedLines (buildStagedChanges (Js.lines Examples.itemsDiff)) "a.js")
  = [2%Z]
  ∧ elements
      (stagedLines
         (buildStagedChanges
            (Js.lines (Validate.filterMeaningfulChanges Examples.itemsDiff))) "a.js")
    = [1%Z].
Proof. split; vm_compute; reflexivity. Qed.

End StagedMap.

(** ** The fix records of the analysis *)

Module FixRecords.
Import Review.

Lemma fold_left_invariant {S A} (P : S → Prop) (f : S → A → S) (l : list A) :
  ∀ s, P s → (∀ s x, In x l → P s → P (f s x)) → P (fold_left f l s).
Proof.
  induction l as [|x l IH]; intros s Hs Hstep; [done|].
  cbn. apply IH.
  - apply Hstep; [by left|done].
  - intros s' y Hy. apply Hstep. by right.
Qed.

Lemma in_pushChange f c0 fc c :
  In c (concat (map snd (pushChange f c0 fc)))
  → c = c0 ∨ In c (concat (map snd fc)).
Proof.
  induction fc as [|[g cs] fc IH]; cbn.
  - intros [->|[]]; by left.
  - destruct (String.eqb g f); cbn; rewrite !in_app_iff.
    + intros [[H|H]|H]; [by right; left| |by right; right].
      cbn in H. destruct H as [->|[]]. by left.
    + intros [H|H]; [by right; left|].
      apply IH in H as [->|H]; [by left|by right; right].
Qed.

Section Provenance.
Context (patterns : list (string * list pattern)) (fs : string → option string)
  (diffLines : list string).


Lemma scanPattern_good filePath declared n l st p :
  In p (allPatterns patterns) → allProvenance patterns diffLines st →
  allProvenance patterns diffLines (scanPattern filePath declared n
             (isStaged (buildStagedChanges diffLines) filePath n) l st p).
Proof.
  intros Hp Hst.
  assert (Hrec : ∀ msg sugg c,
    In c (changesOf
      (mkReview (issues st ++ [msg]) (suggestions st ++ [sugg])
         (if isStaged (buildStagedChanges diffLines) filePath n
             && is_critical_or_high (severity_of p)
          then pushChange filePath
                 (mkChange n (Js.trim l)
                    (Synth.generateSmartFix l p filePath declared) filePath
                    (Some (message p)) None) (fileChanges st)
          else fileChanges st))) → provenance patterns diffLines c).
  { intros msg sugg c. unfold changesOf. cbn.
    destruct (isStaged _ _ _) eqn:Hs; cbn; [|apply Hst].
    destruct (is_critical_or_high _) eqn:Hsev; [|apply Hst].
    intros [->|Hc]%in_pushChange; [|by apply Hst].
    split.
    - exists p. split; [done|]. split; [done|]. by left.
    - left. split; done. }
  unfold scanPattern. cbv zeta.
  destruct (Js.includes (message p) "undeclared variable"
            || Js.includes (message p) "Test undeclared variable").
  - destruct (Re.group 1 variableRe l) as [v|]; [|done].
    destruct (negb (bool_decide (v ∈ declared)) && Re.test (regex p) l); [|done].
    intros c. apply Hrec.
  - destruct (Re.test (regex p) l); [|done]. intros c. apply Hrec.
Qed.

Lemma scanLine_good filePath declared st il :
  allProvenance patterns diffLines st →
  allProvenance patterns diffLines (scanLine patterns filePath (buildStagedChanges diffLines) declared st il).
Proof.
  intros Hst. destruct il as [i l]. unfold scanLine.
  destruct (_ && _); [|done].
  apply fold_left_invariant; [done|].
  intros s p Hp Hs. by apply scanPattern_good.
Qed.

Lemma scanFile_good st filePath :
  allProvenance patterns diffLines st →
  allProvenance patterns diffLines (scanFile patterns fs (buildStagedChanges diffLines) st filePath).
Proof.
  intros Hst. unfold scanFile. destruct (fs filePath) as [content|]; [|done].
  apply fold_left_invariant; [done|].
  intros s il _ Hs. by apply scanLine_good.
Qed.

Lemma wholeFileScan_good : allProvenance patterns diffLines (wholeFileScan patterns fs diffLines).
Proof.
  unfold wholeFileScan. apply fold_left_invariant.
  - intros c []. 
  - intros s f _ Hs. by apply scanFile_good.
Qed.

Lemma in_indexed {A} (l : list A) i x :
  In (i, x) (indexed l) → l !! i = Some x.
Proof.
  unfold indexed.
  assert (H : ∀ k, In (i, x) (combine (seq k (length l)) l) → l !! (i - k) = Some x ∧ k ≤ i).
  { induction l as [|y l IH]; intros k; cbn; [done|].
    intros [Heq|Hin].
    - injection Heq as -> ->. by rewrite Nat.sub_diag.
    - apply IH in Hin as [Hl Hk]. split; [|lia].
      replace (i - k) with (S (i - S k)) by lia. done. }
  intros Hin. apply H in Hin as [Hl _]. by rewrite Nat.sub_0_r in Hl.
Qed.

Lemma legacyPattern_good modified currentFile index l st p :
  In p (allPatterns patterns) → diffLines !! index = Some l → isAddition l = true →
  allProvenance patterns diffLines st →
  allProvenance patterns diffLines (legacyPattern fs modified currentFile index (Js.substringFrom 1 l) st p).
Proof.
  intros Hp Hl Hadd Hst. unfold legacyPattern.
  destruct (Re.test _ _); [|done].
  intros c. unfold changesOf. cbn.
  destruct (is_critical_or_high _) eqn:Hsev; [|apply Hst].
  intros [->|Hc]%in_pushChange; [|by apply Hst].
  split.
  - exists p. split; [done|]. split; [done|]. by right.
  - right. exists index, l. done.
Qed.

Lemma legacyLine_good modified acc il :
  In il (indexed diffLines) → allProvenance patterns diffLines (snd acc) →
  allProvenance patterns diffLines (snd (legacyLine patterns fs modified acc il)).
Proof.
  destruct acc as [cur st], il as [index l]. intros Hin%in_indexed Hst.
  unfold legacyLine. destruct (isAddition l) eqn:Hadd; [|done].
  destruct (Js.truthy _); [|done]. cbn.
  apply fold_left_invariant; [done|].
  intros s p Hp Hs. by apply legacyPattern_good.
Qed.

End Provenance.

(** C1, as stated, fails: for the one-line change of [evalDiff] the scan of
    the whole file makes a fix at line 1, a staged line, and the scan of the
    diff lines makes a second fix at line 3, the position of the added line
    in the diff text, while the staged-change map of x.js holds line 1
    only. *)
Lemma C1_counterexample : ¬ AsStated.fixesOnStagedLines.
Proof.
  intros H.
  specialize (H Catalogue.patterns Examples.evalFiles Examples.evalDiff
                (mkChange 3 "eval(x)"
                   "eval(x) // TODO: Fix: eval() usage detected - security risk"
                   "x.js" None (Some "high-fix"))).
  assert (Hin : changesOf (analyse Catalogue.patterns Examples.evalFiles
                             Examples.evalDiff)
                = [mkChange 1 "eval(x)"
                     "eval(x) // TODO: Fix: eval() usage detected - security risk"
                     "x.js" (Some "eval() usage detected - security risk") None;
                   mkChange 3 "eval(x)"
                     "eval(x) // TODO: Fix: eval() usage detected - security risk"
                     "x.js" None (Some "high-fix")]) by (vm_compute; reflexivity).
  rewrite Hin in H. specialize (H (or_intror (or_introl eq_refl))).
  vm_compute in H. discriminate H.
Qed.

(** C1 (amended).  Every fix record made by the analysis was made for a rule
    of severity critical or high.  A record made by the scan of the whole
    files sits on a line of the staged-change map entry of its file.  A record
    made by the scan of the diff lines comes from an addition line of the
    diff, whose text it holds, and carries the position of that line in the
    diff text as its line number. *)
Theorem C1_fix_provenance (patterns : list (string * list pattern))
  (fs : string → option string) (diff : string) (c : change)
  (Hc : In c (changesOf (analyse patterns fs diff))) :
  provenance patterns (Js.lines diff) c.
Proof.
  revert c Hc. unfold analyse.
  change (allProvenance patterns (Js.lines diff)
            (snd (fold_left
                    (legacyLine patterns fs (modifiedFilesOf (Js.lines diff)))
                    (indexed (Js.lines diff))
                    ("", wholeFileScan patterns fs (Js.lines diff))))).
  apply (fold_left_invariant
           (fun acc => allProvenance patterns (Js.lines diff) (snd acc))).
  - apply wholeFileScan_good.
  - intros acc il Hin Hacc. by apply legacyLine_good.
Qed.

Lemma C1_fix_provenance_witness :
  provenance Catalogue.patterns (Js.lines Examples.evalDiff)
    (mkChange 3 "eval(x)"
       "eval(x) // TODO: Fix: eval() usage detected - security risk"
       "x.js" None (Some "high-fix")).
Proof.
  apply (C1_fix_provenance Catalogue.patterns Examples.evalFiles).
  vm_compute. right. left. reflexivity.
Defined.

End FixRecords.

(** ** The fix synthesizer *)

Module Synthesizer.
Import StringFacts RegexFacts NumFacts TrimFacts RegexEval DiffLines.
Import Re Text Review Synth.
#[local] Arguments String.append !_ _ / : simpl nomatch.

(** C6: the program contradicts the claim.  The staged change adds the line
    [myItems.push(1);] below the declaration of [myItems].  In the scan of the
    diff lines the rule on method calls of an unknown name, of severity
    critical, matches the added line; [generateSmartFix] finds the identifier
    among the declared ones and returns the line unchanged (the return the
    source comments with "no fix needed"); [getCopilotReview], run on the
    filtered diff as [validateCommit] runs it, records a fix all the same,
    and it comes back from the [AUTO_APPLICABLE_FIXES] section as a candidate
    whose replacement equals the original.  The scan of the
    whole file does the same when the rewrite chosen for a rule finds nothing
    to rewrite: the line [configuration.load();] under the rule on long
    names. *)
Lemma C6_identical_fix_is_a_candidate :
  generateSmartFix "myItems.push(1);" Examples.methodCallRule "a.js"
    (extractDeclaredVariables Examples.itemsText)
  = "myItems.push(1);"
  ∧ Feedback.parseAutoApplicableFixes
      (Feedback.getCopilotReview Catalogue.patterns Examples.itemsFiles
         (Validate.filterMeaningfulChanges Examples.itemsDiff))
    = [Feedback.mkFix "a.js" 3 "myItems.push(1);" "myItems.push(1);" None None]
  ∧ generateSmartFix "configuration.load();" Examples.longNameRule "cfg.js"
      (declaredVariablesOf "configuration.load();")
    = "configuration.load();"
  ∧ Feedback.parseAutoApplicableFixes
      (Feedback.getCopilotReview Catalogue.patterns Examples.cfgFiles
         (Validate.filterMeaningfulChanges Examples.cfgDiff))
    = [Feedback.mkFix "cfg.js" 1 "configuration.load();" "configuration.load();"
         None None;
       Feedback.mkFix "cfg.js" 3 "configuration.load();" "configuration.load();"
         None None].
Proof. repeat split; vm_compute; reflexivity. Qed.

(** The fallback of [generateSmartFix] never declines: where no rewrite is
    written for the rule, the line comes back with a comment appended *)
Example eval_gets_a_todo_comment :
  generateSmartFix "  eval(x)" (nth 4 Catalogue.security Examples.longNameRule)
    "x.js" ∅
  = "eval(x) // TODO: Fix: eval() usage detected - security risk".
Proof. vm_compute. reflexivity. Qed.

Example extractDeclaredVariables_example :
  elements (extractDeclaredVariables
              "function load(path, mode = 1) { const cache = []; let n; var $x }")
  = elements ({["path"; "mode"; "cache"; "n"; "$x"]} : gset string).
Proof. vm_compute. reflexivity. Qed.







(** *** What [extractDeclaredVariables] finds *)
























(** A line that holds [const v =] comes back unchanged even when the set of
    declared identifiers does not hold [v] *)
Example line_declaring_is_kept :
  generateSmartFix "const settingsList = settingsList.push(1)"
    Examples.methodCallRule "x.js" ∅
  = "const settingsList = settingsList.push(1)".
Proof. vm_compute. reflexivity. Qed.

Example string_usage_gets_zero :
  generateSmartFix "fullName.toString() + x" Examples.methodCallRule "x.js" ∅
  = "const fullName = 0; // Auto-fix: Variable declaration" +:+ Js.nl +:+
    "fullName.toString() + x".
Proof. vm_compute. reflexivity. Qed.

End Synthesizer.

(** ** The order of application *)

Module PatchFacts.
Import StringFacts.
#[local] Arguments String.append !_ _ / : simpl nomatch.
Import Proc Feedback Patch.

Lemma insertDesc_perm x l : Permutation (insertDesc x l) (x :: l).
Proof.
  induction l as [|y l IH]; cbn; [done|].
  destruct (line y <=? line x)%Z; [done|].
  rewrite IH. apply perm_swap.
Qed.

Lemma sortByLineDesc_perm l : Permutation (sortByLineDesc l) l.
Proof.
  induction l as [|x l IH]; cbn; [done|].
  rewrite insertDesc_perm. by constructor.
Qed.

Lemma insertDesc_sorted x l :
  StronglySorted descending l → StronglySorted descending (insertDesc x l).
Proof.
  induction 1 as [|y l Hl IH Hy]; cbn.
  - repeat constructor.
  - destruct (line y <=? line x)%Z eqn:Hle.
    + apply Z.leb_le in Hle. constructor; [by constructor|].
      constructor; [done|].
      eapply Forall_impl; [exact Hy|]. unfold descending. intros z Hz. lia.
    + apply Z.leb_gt in Hle. constructor; [done|].
      eapply Permutation_Forall; [symmetry; apply insertDesc_perm|].
      constructor; [unfold descending; lia|done].
Qed.

Lemma sortByLineDesc_sorted l : StronglySorted descending (sortByLineDesc l).
Proof.
  induction l as [|x l IH]; cbn; [constructor|]. by apply insertDesc_sorted.
Qed.

Lemma insertDesc_stable n x l :
  List.filter (onLine n) (insertDesc x l) = List.filter (onLine n) (x :: l).
Proof.
  induction l as [|y l IH]; [done|]. cbn [insertDesc].
  destruct (line y <=? line x)%Z eqn:Hle; [done|]. apply Z.leb_gt in Hle.
  cbn [List.filter] in *. rewrite IH. unfold onLine.
  destruct (Z.eqb_spec (line x) n), (Z.eqb_spec (line y) n); try done. lia.
Qed.

Lemma sortByLineDesc_stable n l :
  List.filter (onLine n) (sortByLineDesc l) = List.filter (onLine n) l.
Proof.
  induction l as [|x l IH]; [done|]. cbn [sortByLineDesc fold_right].
  rewrite insertDesc_stable. cbn [List.filter]. fold (sortByLineDesc l).
  by rewrite IH.
Qed.

(** Two fixes whose texts are found where they stand, the lower one first in
    the content: each replacement lands on its own text *)
Lemma two_fixes_do_not_interfere (pre mid post : string) (lo hi : autoFix) :
  (line lo < line hi)%Z →
  Js.isLiteral (improved lo) = true → Js.isLiteral (improved hi) = true →
  Js.indexOf (pre +:+ original lo +:+ mid +:+ original hi +:+ post) (original hi)
  = Some (String.length (pre +:+ original lo +:+ mid)) →
  Js.indexOf (pre +:+ original lo +:+ mid +:+ original hi +:+ post) (original lo)
  = Some (String.length pre) →
  patched (pre +:+ original lo +:+ mid +:+ original hi +:+ post) [lo; hi]
  = pre +:+ improved lo +:+ mid +:+ improved hi +:+ post.
Proof.
  intros Hlt Llo Lhi Hhi Hlo.
  assert (sortByLineDesc [lo; hi] = [hi; lo]) as Hsort.
  { cbn. destruct (Z.leb_spec (line hi) (line lo)); [lia|done]. }
  unfold patched. rewrite Hsort. cbn [applyFixes fold_left]. unfold applyFix.
  assert (Js.replace (pre +:+ original lo +:+ mid +:+ original hi +:+ post)
            (original hi) (improved hi)
          = pre +:+ original lo +:+ mid +:+ improved hi +:+ post) as ->.
  { assert (Hc : ∀ x, pre +:+ original lo +:+ mid +:+ x
                      = (pre +:+ original lo +:+ mid) +:+ x).
    { intros x. by rewrite !app_assoc_s. }
    rewrite Hc in Hhi. rewrite !Hc, replace_at by done.
    by rewrite getSubstitution_literal. }
  rewrite replace_at.
  - by rewrite getSubstitution_literal.
  - by apply (indexOf_app_stable _ (mid +:+ original hi +:+ post)).
Qed.

Lemma patchedAI_code content fixes f c :
  find hasCode fixes = Some f → code f = Some c → patchedAI content fixes = c.
Proof.
  unfold patchedAI. intros Hf Hc. rewrite Hf.
  destruct f. cbn in Hc. by subst.
Qed.

Lemma patchedAI_texts content fixes :
  find hasCode fixes = None →
  patchedAI content fixes
  = applyFixes content (sortByLineDesc (List.filter hasTexts fixes)).
Proof.
  unfold patchedAI. intros Hf. by rewrite Hf.
Qed.

(** One file of the loop of [autoApplyAndRecommit], once its confirmation has
    an answer *)
Lemma autoApplyFile_decided e staged applied name fixes w content b w1 :
  isStagedFile staged name = true →
  fs w !! resolve e name = Some content →
  interactiveReviewAndApply e name content (patched content fixes)
    (setFs (<[resolve e name +:+ ".copilot-backup" := content]> (fs w)) w)
  = (Ret b, w1) →
  autoApplyFile e staged applied (name, fixes) w
  = if b
    then (Ret (applied ++ [mkApplied name (resolve e name +:+ ".copilot-backup")
                             (length fixes)]),
          setFs (<[resolve e name := patched content fixes]> (fs w1)) w1)
    else (Ret applied, w1).
Proof.
  intros Hst Hfile Hrev. unfold autoApplyFile. rewrite Hst.
  unfold tryCatch, bind at 1, readFile. rewrite Hfile.
  unfold bind at 1, writeFile at 1. unfold bind at 1.
  change (mkWorld (<[resolve e name +:+ ".copilot-backup":=content]> (fs w))
            (responses w) (git w) (asked w))
    with (setFs (<[resolve e name +:+ ".copilot-backup" := content]> (fs w)) w).
  rewrite Hrev. by destruct b.
Qed.

(** One staged file of the loop of [applyAISuggestions] *)
Lemma applyAIFile_applied e staged applied name fixes w content :
  isStagedFile staged name = true → fs w !! resolve e name = Some content →
  applyAIFile e staged applied (name, fixes) w
  = (Ret (applied ++ [mkApplied name (aiBackupOf e name) (length fixes)]),
     setFs (<[resolve e name := patchedAI content fixes]>
              (<[aiBackupOf e name := content]> (fs w))) w).
Proof.
  intros Hst Hf. unfold applyAIFile, tryCatch, bind, access, readFile.
  rewrite Hst. cbn [negb]. rewrite !Hf. unfold ret. cbn [negb]. rewrite Hf.
  done.
Qed.

(** One staged file of the loop of [applyAutoFixesNoCommit] *)
Lemma applyNoCommitFile_applied e staged name fixes w content :
  isStagedFile staged name = true → fs w !! resolve e name = Some content →
  applyNoCommitFile e staged tt (name, fixes) w
  = (Ret tt,
     addGit [GitAdd name]
       (setFs (<[resolve e name := patched content fixes]> (fs w)) w)).
Proof.
  intros Hst Hf. unfold applyNoCommitFile, tryCatch, bind, readFile.
  rewrite Hst. cbn [negb]. by rewrite Hf.
Qed.

(** C4, as stated, fails: the text "b" does not occur in the content "a", and
    applying the fix replaces nothing. *)
Lemma C4_counterexample : ¬ AsStated.everyFixReplacesOnce.
Proof.
  intros H. destruct (H "a" Examples.absentFix) as (pre & post & Heq & _).
  cbn in Heq. destruct pre as [|c [|d pre]]; cbn in Heq; discriminate Heq.
Qed.

(** The replacement goes by text, not by position: a fix made for line 3
    lands on line 1 when both lines hold the same text *)
Example identical_lines_hit_the_first :
  patched ("x = 1;" +:+ Js.nl +:+ "y = 2;" +:+ Js.nl +:+ "x = 1;")
    [mkFix "a.js" 3 "x = 1;" "x = 3;" None None]
  = "x = 3;" +:+ Js.nl +:+ "y = 2;" +:+ Js.nl +:+ "x = 1;".
Proof. vm_compute. reflexivity. Qed.

(** The expansion of [$] in the replacement text: an inserted line holding
    [$'] receives the rest of the file in its place *)
Example dollar_patterns_are_expanded :
  Js.replace ("eval(p + '$');" +:+ Js.nl +:+ "done();") "eval(p + '$');"
    "eval(p + '$'); // TODO"
  = "eval(p + '" +:+ Js.nl +:+ "done();); // TODO" +:+ Js.nl +:+ "done();".
Proof. vm_compute. reflexivity. Qed.

(** C4 (amended).  The fixes of a file are applied in descending order of
    line number, fixes of one line in the order received (the sorted list is
    a stable rearrangement of the list).  A fix replaces at most one
    occurrence of its original text, the first, and none when the text does
    not occur; the replacement text is inserted as it is when it holds no
    dollar sign.  When two fixes find their texts where they stand, the one of
    the lower line first in the content, each replacement lands on its own
    text whichever was listed first.  In [applyAISuggestions] a fix carrying
    the whole text of the file replaces the content, and otherwise only the
    fixes with non-empty texts are applied.  The content so obtained is what
    [autoApplyAndRecommit] writes to a staged file once its fixes are
    accepted, and what [applyAutoFixesNoCommit] and [applyAISuggestions]
    write to a staged file. *)
Theorem C4_patch_application (e : env) (content : string) (fixes : list autoFix) :
  (patched content fixes = applyFixes content (sortByLineDesc fixes)
   ∧ Permutation (sortByLineDesc fixes) fixes
   ∧ StronglySorted descending (sortByLineDesc fixes)
   ∧ ∀ n, List.filter (onLine n) (sortByLineDesc fixes) = List.filter (onLine n) fixes)
  ∧ (∀ f, Js.indexOf content (original f) = None → applyFix content f = content)
  ∧ (∀ f i, Js.indexOf content (original f) = Some i →
       content = Js.take i content +:+ original f
                 +:+ Js.substringFrom (i + String.length (original f)) content
       ∧ (∀ j, j < i → String.prefix (original f) (Js.substringFrom j content) = false)
       ∧ (Js.isLiteral (improved f) = true →
          applyFix content f
          = Js.take i content +:+ improved f
            +:+ Js.substringFrom (i + String.length (original f)) content))
  ∧ (∀ pre mid post lo hi,
       content = pre +:+ original lo +:+ mid +:+ original hi +:+ post →
       (line lo < line hi)%Z →
       Js.isLiteral (improved lo) = true → Js.isLiteral (improved hi) = true →
       Js.indexOf content (original hi)
       = Some (String.length (pre +:+ original lo +:+ mid)) →
       Js.indexOf content (original lo) = Some (String.length pre) →
       patched content [lo; hi] = pre +:+ improved lo +:+ mid +:+ improved hi +:+ post
       ∧ patched content [hi; lo] = patched content [lo; hi])
  ∧ (∀ f c, find hasCode fixes = Some f → code f = Some c →
       patchedAI content fixes = c)
  ∧ (find hasCode fixes = None →
     patchedAI content fixes
     = applyFixes content (sortByLineDesc (List.filter hasTexts fixes)))
  ∧ (∀ staged applied name w b w1,
       isStagedFile staged name = true →
       fs w !! resolve e name = Some content →
       interactiveReviewAndApply e name content (patched content fixes)
         (setFs (<[resolve e name +:+ ".copilot-backup" := content]> (fs w)) w)
       = (Ret b, w1) →
       autoApplyFile e staged applied (name, fixes) w
       = if b
         then (Ret (applied ++ [mkApplied name (resolve e name +:+ ".copilot-backup")
                                  (length fixes)]),
               setFs (<[resolve e name := patched content fixes]> (fs w1)) w1)
         else (Ret applied, w1))
  ∧ (∀ staged name w,
       isStagedFile staged name = true →
       fs w !! resolve e name = Some content →
       applyNoCommitFile e staged tt (name, fixes) w
       = (Ret tt,
          addGit [GitAdd name]
            (setFs (<[resolve e name := patched content fixes]> (fs w)) w)))
  ∧ (∀ staged applied name w,
       isStagedFile staged name = true →
       fs w !! resolve e name = Some content →
       applyAIFile e staged applied (name, fixes) w
       = (Ret (applied ++ [mkApplied name (aiBackupOf e name) (length fixes)]),
          setFs (<[resolve e name := patchedAI content fixes]>
                   (<[aiBackupOf e name := content]> (fs w))) w)).
Proof.
  split; [|split; [|split; [|split; [|split; [|split; [|split; [|split]]]]]]].
  - split; [done|]. split; [apply sortByLineDesc_perm|].
    split; [apply sortByLineDesc_sorted|]. intros n. apply sortByLineDesc_stable.
  - intros f H. unfold applyFix, Js.replace. by rewrite H.
  - intros f i H. split; [by apply indexOf_decompose|].
    split; [intros j Hj; by apply (indexOf_first _ _ i)|].
    intros Hlit. unfold applyFix, Js.replace. rewrite H. cbv zeta.
    by rewrite getSubstitution_literal.
  - intros pre mid post lo hi -> Hlt Llo Lhi Hhi Hlo.
    split; [by apply two_fixes_do_not_interfere|].
    unfold patched. f_equal. cbn.
    destruct (Z.leb_spec (line hi) (line lo)), (Z.leb_spec (line lo) (line hi));
      try done; lia.
  - intros f c. apply patchedAI_code.
  - apply patchedAI_texts.
  - intros staged applied name w b w1. apply autoApplyFile_decided.
  - intros staged name w. apply applyNoCommitFile_applied.
  - intros staged applied name w. apply applyAIFile_applied.
Qed.

Lemma C4_patch_application_witness :
  patched "let a;
items.push(1)
eval(x)
" [Examples.fixAt8; Examples.fixAt20]
  = "let a;
const items = []; items.push(1)
run(x)
".
Proof.
  refine (proj1 (proj1 (proj2 (proj2 (proj2
    (C4_patch_application (Examples.plainEnv "" []) _
       [Examples.fixAt8; Examples.fixAt20])))) 
    ("let a;" +:+ Js.nl) Js.nl Js.nl Examples.fixAt8 Examples.fixAt20 _ _ _ _ _ _));
    vm_compute; reflexivity.
Defined.

End PatchFacts.

(** ** The recommit *)

Module Recommit.
Import Proc Feedback Patch.

Lemma restage_spec applied w :
  restage applied w = (Ret tt, addGit (map restageCmd applied) w).
Proof.
  unfold restage. revert w. induction applied as [|a l IH]; intros w.
  - destruct w. unfold addGit. cbn. by rewrite app_nil_r.
  - cbn [forEach]. unfold bind at 1, gitAdd at 1. rewrite IH.
    unfold addGit. cbn. by rewrite <- app_assoc.
Qed.

(** A prompt changes neither the files nor the git commands issued *)
Lemma ask_frame q w r w' :
  ask q w = (r, w') → fs w' = fs w ∧ git w' = git w.
Proof. unfold ask. destruct (responses w); intros [= <- <-]; done. Qed.

Lemma safePrompt_frame e q w r w' :
  safePrompt e q w = (r, w') → fs w' = fs w ∧ git w' = git w.
Proof.
  unfold safePrompt. destruct (AI_AUTO_SELECT e) as [[|c s]|].
  - destruct (_ && _); [by intros [= <- <-]|].
    unfold bind. destruct (ask q w) as [[a| | |] w1] eqn:Hask;
      apply ask_frame in Hask.
    + destruct a as [a| | |msg]; try (by intros [= <- <-]).
      unfold ret, throw. destruct (Re.test _ _); by intros [= <- <-].
    + by intros [= <- <-].
    + by intros [= <- <-].
    + by intros [= <- <-].
  - by intros [= <- <-].
  - destruct (_ && _); [by intros [= <- <-]|].
    unfold bind. destruct (ask q w) as [[a| | |] w1] eqn:Hask;
      apply ask_frame in Hask.
    + destruct a as [a| | |msg]; try (by intros [= <- <-]).
      unfold ret, throw. destruct (Re.test _ _); by intros [= <- <-].
    + by intros [= <- <-].
    + by intros [= <- <-].
    + by intros [= <- <-].
Qed.

Lemma cleanBackups_spec applied : ∀ w,
  cleanBackups applied w = (Ret tt, setFs (removeBackups applied (fs w)) w).
Proof.
  unfold cleanBackups. induction applied as [|a l IH]; intros w.
  - by destruct w.
  - cbn [forEach removeBackups fold_left]. unfold bind at 1, tryCatch at 1, unlink at 1.
    destruct (fs w !! backupPath a) eqn:Hb.
    + rewrite IH. done.
    + unfold ret at 1. rewrite IH. unfold setFs. cbn.
      by rewrite (delete_id _ _ Hb).
Qed.

Example ticket_examples :
  map ticketId ["feature/ABC-123-login"; "main"; "fix-abc-12"; "X-1"; "HOT-FIX-77"]
  = ["ABC-123"; "SHOP-0000"; "SHOP-0000"; "X-1"; "FIX-77"].
Proof. vm_compute. reflexivity. Qed.

(** C8, as stated, fails: asked whether to recommit, the user declines; the
    file is re-staged and no commit is issued. *)
Lemma C8_counterexample : ¬ AsStated.recommitAlwaysCommits.
Proof.
  intros H.
  destruct (H (Examples.plainEnv "" ["a.js"]) Examples.oneApplied Examples.declining)
    as (msg & flags & Hin); [done|done|].
  vm_compute in Hin. destruct Hin as [Hin|[]]. discriminate Hin.
Qed.

(** C8 (amended).  Once at least one file was applied, every applied file is
    re-staged and the user is asked whether to recommit; no answer in time
    counts as yes.  On yes the commit is made with the hook bypassed
    ([--no-verify]), under a message made of the ticket found in the branch
    name (the first text of capital letters, a dash and digits; SHOP-0000 when
    there is none), the fixed words, and the number of applied files; a
    successful commit removes the backups and ends with exit code 0, a failed
    one ends with exit code 1 and leaves the files as modified and staged.  On
    no, nothing is committed and the exit code is 0. *)
Theorem C8_recommit (e : env) (applied : list appliedFile) (w w2 : world)
  (r : bool * option answer)
  (Hne : applied ≠ [])
  (Hprompt : safePrompt e (recommitQuestion applied)
               (addGit (map restageCmd applied) w) = (Ret r, w2)) :
  let commit := if fst r then true else asBool (snd r) in
  let message := commitMessage (branchName e) (length applied) in
  fs w2 = fs w
  ∧ git w2 = git w ++ map restageCmd applied
  ∧ (commit = true → commitError e = None →
     recommit e applied w
     = (Exit 0%Z,
        setFs (removeBackups applied (fs w2))
          (addGit [GitCommit message ["--no-verify"]] w2)))
  ∧ (commit = true → commitError e ≠ None → recommit e applied w = (Exit 1%Z, w2))
  ∧ (commit = false → recommit e applied w = (Exit 0%Z, w2))
  ∧ message
    = ticketId (branchName e) +:+ "-apply-copilot-improvements-"
      +:+ Js.showNat (length applied) +:+ "-files"
  ∧ (Re.group 1 ticketRe (branchName e) = None → ticketId (branchName e) = "SHOP-0000")
  ∧ (∀ t, Re.group 1 ticketRe (branchName e) = Some t → ticketId (branchName e) = t).
Proof.
  intros commit message.
  pose proof (safePrompt_frame _ _ _ _ _ Hprompt) as [Hfs Hgit].
  assert (Hrun : recommit e applied w
          = (if commit
             then tryCatch
                    (gitCommit e message ["--no-verify"] ;;;
                     cleanBackups applied ;;; exit 0%Z)
                    (fun _ => exit 1%Z)
             else exit 0%Z) w2).
  { unfold recommit. destruct applied as [|a l]; [done|].
    unfold bind at 1. rewrite restage_spec. unfold bind at 1. rewrite Hprompt.
    done. }
  split; [done|]. split; [done|].
  split; [|split; [|split; [|split; [|split]]]].
  - intros Hc Herr. rewrite Hrun, Hc. unfold tryCatch, bind at 1, gitCommit.
    rewrite Herr. unfold bind. rewrite cleanBackups_spec. done.
  - intros Hc Herr. rewrite Hrun, Hc. unfold tryCatch, bind at 1, gitCommit.
    destruct (commitError e); done.
  - intros Hc. by rewrite Hrun, Hc.
  - done.
  - intros H. unfold ticketId. by rewrite H.
  - intros t H. unfold ticketId. by rewrite H.
Qed.

Lemma C8_recommit_witness :
  recommit (Examples.plainEnv "" ["a.js"]) Examples.oneApplied Examples.accepting
  = (Exit 0%Z,
     mkWorld {["a.js" := "run(x)"]} []
       [GitAdd "a.js";
        GitCommit "SHOP-0000-apply-copilot-improvements-1-files" ["--no-verify"]]
       ["🎯 Auto-applied 1 file improvements. Recommit now?"]).
Proof.
  etrans.
  - refine (proj1 (proj2 (proj2
      (C8_recommit (Examples.plainEnv "" ["a.js"]) Examples.oneApplied
         Examples.accepting _ (false, Some (ABool true)) _ _))) _ _).
    + discriminate.
    + vm_compute. reflexivity.
    + reflexivity.
    + reflexivity.
  - vm_compute. reflexivity.
Defined.

End Recommit.

(** ** The default taken when a prompt is cancelled *)

Module OnCancel.
Import PatchFacts Recommit.
Import Proc Feedback Patch Validate.

Lemma onCancel_spec e : onCancel e = String.eqb (DEFAULT_ON_CANCEL e) "auto-apply".
Proof.
  unfold onCancel. destruct (String.eqb (DEFAULT_ON_CANCEL e) "auto-apply"); [done|].
  by destruct (String.eqb (DEFAULT_ON_CANCEL e) "skip").
Qed.

Lemma decisionOnCancel_skip e :
  DEFAULT_ON_CANCEL e = "skip" → decisionOnCancel e = choiceSkip.
Proof. intros H. unfold decisionOnCancel. by rewrite H. Qed.

Lemma decisionOnCancel_auto e :
  DEFAULT_ON_CANCEL e = "auto-apply" → decisionOnCancel e = choiceAutoApply.
Proof. intros H. unfold decisionOnCancel. by rewrite H. Qed.

Lemma decisionOnCancel_other e :
  DEFAULT_ON_CANCEL e ≠ "auto-apply" → DEFAULT_ON_CANCEL e ≠ "skip" →
  decisionOnCancel e = choiceReview.
Proof.
  intros H1 H2. unfold decisionOnCancel.
  apply String.eqb_neq in H1, H2. by rewrite H1, H2.
Qed.

(** The confirmation of one file, cancelled or not asked at all *)
Lemma review_not_asked e name o i w :
  stdinIsTTY e = false → forcePrompt e = false →
  interactiveReviewAndApply e name o i w = (Ret (onCancel e), w).
Proof. intros H1 H2. unfold interactiveReviewAndApply. by rewrite H1, H2. Qed.

Lemma review_asked e name o i w r w1 :
  negb (stdinIsTTY e) && negb (forcePrompt e) = false →
  safePrompt e (reviewQuestion name) w = (Ret r, w1) →
  interactiveReviewAndApply e name o i w
  = (Ret (if fst r then onCancel e else asBool (snd r)), w1).
Proof.
  intros H Hp. unfold interactiveReviewAndApply. rewrite H.
  unfold tryCatch, bind. rewrite Hp. by destruct (fst r).
Qed.

Lemma autoApply_nothing_applied e autoFixes staged w w1 :
  isFallback autoFixes = false →
  forEach (groupByFile autoFixes) (autoApplyFile e staged) [] w = (Ret [], w1) →
  autoApplyAndRecommit e autoFixes staged w = (Exit 1%Z, w1).
Proof.
  intros Hf Hloop. unfold autoApplyAndRecommit. rewrite Hf.
  unfold tryCatch, bind. by rewrite Hloop.
Qed.

(** C5, as stated, fails: under the policy [skip], the confirmation of the
    only file is never answered; the file is left as it was and the run ends
    with exit code 1. *)
Lemma C5_counterexample : ¬ AsStated.skipAllowsCommit.
Proof.
  intros H.
  specialize (H Examples.skipEnv [Examples.evalFix] ["a.js"] Examples.unanswered
                eq_refl eq_refl).
  vm_compute in H. discriminate H.
Qed.

(** C5 (amended).  When the prompt of [validateCommit] is cancelled or times
    out, the policy decides: under [skip] the run ends with exit code 0 and
    under any value other than [auto-apply] and [skip] (so under [cancel], the
    default) with exit code 1, the files and the git state being as before;
    under [auto-apply] the run goes on as if the user had chosen to apply the
    suggestions.  When the confirmation of one file is cancelled, times out,
    or cannot be asked, the fixes of the file are accepted under [auto-apply]
    and rejected under every other policy; an accepted file is written and
    listed, a rejected one is left as it was; and when no file is listed the
    run ends with exit code 1, whatever the policy. *)
Theorem C5_default_on_cancel (e : env) :
  (∀ fb w w1 a,
     safePrompt e decisionQuestion w = (Ret (true, a), w1) →
     fs w1 = fs w ∧ git w1 = git w
     ∧ (DEFAULT_ON_CANCEL e = "skip" → enhancedWorkflow e fb w = (Exit 0%Z, w1))
     ∧ (DEFAULT_ON_CANCEL e ≠ "auto-apply" → DEFAULT_ON_CANCEL e ≠ "skip" →
        enhancedWorkflow e fb w = (Exit 1%Z, w1))
     ∧ (DEFAULT_ON_CANCEL e = "auto-apply" →
        enhancedWorkflow e fb w
        = tryCatch (proceedWith e fb choiceAutoApply) (onPromptError e fb) w1))
  ∧ (AI_DEFAULT_ON_CANCEL e = None → DEFAULT_ON_CANCEL e = "cancel")
  ∧ (∀ name o i w,
       stdinIsTTY e = false → forcePrompt e = false →
       interactiveReviewAndApply e name o i w
       = (Ret (String.eqb (DEFAULT_ON_CANCEL e) "auto-apply"), w))
  ∧ (∀ name o i w w1 a,
       negb (stdinIsTTY e) && negb (forcePrompt e) = false →
       safePrompt e (reviewQuestion name) w = (Ret (true, a), w1) →
       interactiveReviewAndApply e name o i w
       = (Ret (String.eqb (DEFAULT_ON_CANCEL e) "auto-apply"), w1))
  ∧ (∀ staged applied name fixes w content b w1,
       isStagedFile staged name = true →
       fs w !! resolve e name = Some content →
       interactiveReviewAndApply e name content (patched content fixes)
         (setFs (<[resolve e name +:+ ".copilot-backup" := content]> (fs w)) w)
       = (Ret b, w1) →
       autoApplyFile e staged applied (name, fixes) w
       = if b
         then (Ret (applied ++ [mkApplied name (resolve e name +:+ ".copilot-backup")
                                  (length fixes)]),
               setFs (<[resolve e name := patched content fixes]> (fs w1)) w1)
         else (Ret applied, w1))
  ∧ (∀ autoFixes staged w w1,
       isFallback autoFixes = false →
       forEach (groupByFile autoFixes) (autoApplyFile e staged) [] w = (Ret [], w1) →
       autoApplyAndRecommit e autoFixes staged w = (Exit 1%Z, w1)).
Proof.
  split; [|split; [|split; [|split; [|split]]]].
  - intros fb w w1 a Hp.
    pose proof (safePrompt_frame _ _ _ _ _ Hp) as [Hfs Hgit].
    assert (Hrun : enhancedWorkflow e fb w
                   = tryCatch (proceedWith e fb (decisionOnCancel e))
                       (onPromptError e fb) w1).
    { unfold enhancedWorkflow, tryCatch, bind. by rewrite Hp. }
    split; [done|]. split; [done|]. split; [|split].
    + intros H. rewrite Hrun, decisionOnCancel_skip by done. done.
    + intros H1 H2. rewrite Hrun, decisionOnCancel_other by done. done.
    + intros H. by rewrite Hrun, decisionOnCancel_auto.
  - intros H. unfold DEFAULT_ON_CANCEL. by rewrite H.
  - intros name o i w H1 H2. rewrite <- onCancel_spec. by apply review_not_asked.
  - intros name o i w w1 a H Hp. rewrite <- onCancel_spec.
    by rewrite (review_asked _ _ _ _ _ _ _ H Hp).
  - intros staged applied name fixes w content b w1. apply autoApplyFile_decided.
  - intros autoFixes staged w w1. apply autoApply_nothing_applied.
Qed.

Lemma C5_default_on_cancel_witness :
  enhancedWorkflow Examples.skipEnv "" Examples.unanswered
  = (Exit 0%Z,
     mkWorld {["a.js" := "eval(x)"]} [] [] ["🎯 How would you like to proceed?"]).
Proof.
  refine (proj1 (proj2 (proj2
    (proj1 (C5_default_on_cancel Examples.skipEnv) ""
       Examples.unanswered _ None _))) _); reflexivity.
Defined.

(** Under [auto-apply], with nobody answering, the fix is applied, the file
    re-staged and the commit made *)
Example auto_apply_when_unanswered :
  let r := autoApplyAndRecommit Examples.autoApplyEnv [Examples.evalFix] ["a.js"]
             Examples.unanswered in
  fst r = Exit 0%Z
  ∧ fs (snd r) !! "a.js" = Some "run(x)"
  ∧ git (snd r)
    = [GitAdd "a.js";
       GitCommit "SHOP-0000-apply-copilot-improvements-1-files" ["--no-verify"]].
Proof. vm_compute. done. Qed.

(** Under [skip], the same run leaves the file alone and ends with code 1;
    the backup written before the confirmation stays behind *)
Example skip_when_unanswered :
  let r := autoApplyAndRecommit Examples.skipEnv [Examples.evalFix] ["a.js"]
             Examples.unanswered in
  fst r = Exit 1%Z
  ∧ fs (snd r) !! "a.js" = Some "eval(x)"
  ∧ fs (snd r) !! "a.js.copilot-backup" = Some "eval(x)"
  ∧ git (snd r) = [].
Proof. vm_compute. done. Qed.

End OnCancel.

(** ** Backup and restoration in [applyAISuggestions] *)

Module BackupRestore.
Import StringFacts.
Import PatchFacts Recommit.
#[local] Arguments String.append !_ _ / : simpl nomatch.
Import Proc Feedback Patch.

Lemma app_inj_suffix (a b s : string) : a +:+ s = b +:+ s → a = b.
Proof.
  intros H. apply (f_equal String.rev) in H. rewrite !rev_app_distr in H.
  apply String.app_inj in H. apply (f_equal String.rev) in H.
  by rewrite !rev_involutive_s in H.
Qed.

Lemma app_suffix_ne (a s : string) : s ≠ "" → a ≠ a +:+ s.
Proof.
  intros Hs H. apply (f_equal String.length) in H. rewrite length_app_s in H.
  destruct s; [done|]. cbn in H. lia.
Qed.

Lemma aiBackup_ne_self e n : resolve e n ≠ aiBackupOf e n.
Proof. apply app_suffix_ne. done. Qed.

Lemma aiBackup_inj e n1 n2 : aiBackupOf e n1 = aiBackupOf e n2 → resolve e n1 = resolve e n2.
Proof. apply app_inj_suffix. Qed.

(** One file of the apply loop *)
Lemma applyAIFile_skipped e staged applied name fixes w :
  isStagedFile staged name = false ∨ fs w !! resolve e name = None →
  applyAIFile e staged applied (name, fixes) w = (Ret applied, w).
Proof.
  intros H. unfold applyAIFile, tryCatch.
  destruct (isStagedFile staged name); [|done]. destruct H as [H|H]; [done|].
  cbn. unfold bind, tryCatch, access. by rewrite H.
Qed.

(** The restoration of one file whose backup is there *)
Lemma restoreFile_spec e a w c :
  fs w !! backupPath a = Some c →
  restoreFile e a w
  = (Ret tt,
     addGit [GitAdd (applied_filename a)]
       (setFs (delete (backupPath a)
                 (<[resolve e (applied_filename a) := c]> (fs w))) w)).
Proof.
  intros Hb. unfold restoreFile, tryCatch, bind at 1, readFile. rewrite Hb.
  unfold bind at 1, writeFile at 1. unfold bind at 1, unlink. cbn [fs].
  destruct (decide (resolve e (applied_filename a) = backupPath a)) as [Heq|Hne].
  - rewrite Heq, lookup_insert_eq. done.
  - rewrite lookup_insert_ne, Hb by done. done.
Qed.

Section Restore.
Context (e : env) (names : list string) (Hnc : noCollision e names).

Lemma applyInvariant_start w0 : applyInvariant e names w0 [] w0.
Proof.
  unfold applyInvariant. split; [constructor|]. split; [by intros a []|].
  split; [done|done].
Qed.

Lemma applyInvariant_step staged w0 applied w name fixes :
  In name names →
  (∀ a, In a applied → resolve e (applied_filename a) ≠ resolve e name) →
  applyInvariant e names w0 applied w →
  ∃ applied' w',
    applyAIFile e staged applied (name, fixes) w = (Ret applied', w')
    ∧ applyInvariant e names w0 applied' w'
    ∧ (∀ a, In a applied' → In a applied ∨ applied_filename a = name).
Proof.
  intros Hname Hfresh (Hnd & Hbk & Hframe & Hresp & Hgit & Hasked).
  destruct Hnc as [Hnodup Hnb].
  destruct (isStagedFile staged name) eqn:Hst;
    [|exists applied, w; rewrite applyAIFile_skipped by (by left);
      split; [done|]; split; [done|]; by left].
  destruct (fs w !! resolve e name) as [content|] eqn:Hf;
    [|exists applied, w; rewrite applyAIFile_skipped by (by right);
      split; [done|]; split; [done|]; by left].
  assert (Hf0 : fs w0 !! resolve e name = Some content).
  { rewrite <- Hframe; [done|]. intros a Ha. split; [by apply not_eq_sym, Hfresh|].
    destruct (Hbk a Ha) as (Hin & -> & _). by apply Hnb. }
  eexists _, _. split; [by apply applyAIFile_applied|].
  split; [|intros a [Ha|[<-|[]]]%in_app_iff; [by left|by right]].
  unfold applyInvariant. cbn [fs responses git asked setFs].
  split; [|split; [|split; [|done]]].
  - rewrite map_app. cbn. apply NoDup_app. split; [done|]. split.
    + intros p Hp [<-|[]]%list_elem_of_In. apply list_elem_of_In, in_map_iff in Hp as (a & Ha & Hin).
      by apply (Hfresh a Hin).
    + apply NoDup_singleton.
  - intros a [Ha|[<-|[]]]%in_app_iff.
    + destruct (Hbk a Ha) as (Hin & Hbp & Hsome & Hlook).
      split; [done|]. split; [done|]. split; [done|].
      rewrite lookup_insert_ne, lookup_insert_ne; [done| |].
      * rewrite Hbp. intros Heq%aiBackup_inj. by apply (Hfresh a Ha).
      * rewrite Hbp. by apply Hnb.
    + cbn. split; [done|]. split; [done|]. split; [by rewrite Hf0|].
      rewrite lookup_insert_ne by apply aiBackup_ne_self.
      by rewrite lookup_insert_eq, Hf0.
  - intros p Hp. destruct (Hp (mkApplied name (aiBackupOf e name) (length fixes)))
      as [Hp1 Hp2]; [apply in_app_iff; right; by left|]. cbn in Hp1, Hp2.
    rewrite !lookup_insert_ne by done. apply Hframe.
    intros a Ha. apply Hp, in_app_iff. by left.
Qed.

Lemma applyInvariant_loop staged w0 groups : ∀ applied w,
  NoDup (map (fun g => resolve e (fst g)) groups) →
  (∀ g, In g groups → In (fst g) names) →
  (∀ a g, In a applied → In g groups →
          resolve e (applied_filename a) ≠ resolve e (fst g)) →
  applyInvariant e names w0 applied w →
  ∃ applied' w',
    forEach groups (applyAIFile e staged) applied w = (Ret applied', w')
    ∧ applyInvariant e names w0 applied' w'.
Proof.
  induction groups as [|[name fixes] groups IH]; intros applied w Hnd Hin Hfresh Hinv.
  - by exists applied, w.
  - cbn [map fst] in Hnd. apply NoDup_cons in Hnd as [Hnew Hnd].
    destruct (applyInvariant_step staged w0 applied w name fixes)
      as (applied1 & w1 & Hrun & Hinv1 & Hsub); [apply (Hin (name, fixes)); by left| |done|].
    { intros a Ha. apply (Hfresh a (name, fixes) Ha). by left. }
    cbn [forEach]. unfold bind. rewrite Hrun.
    apply IH; [done| | |done].
    + intros g Hg. apply Hin. by right.
    + intros a g Ha Hg. destruct (Hsub a Ha) as [Hold| ->].
      * apply Hfresh; [done|by right].
      * intros Heq. apply Hnew. apply list_elem_of_In, in_map_iff.
        exists g. by split.
Qed.

(** The restore loop: the files of the list get the content of their
    backups, the backups go, every other path is kept *)
Lemma restore_loop (orig : string → option string) applied : ∀ w,
  NoDup (map (fun a => resolve e (applied_filename a)) applied) →
  (∀ a, In a applied →
     In (applied_filename a) names
     ∧ backupPath a = aiBackupOf e (applied_filename a)
     ∧ is_Some (orig (applied_filename a))
     ∧ fs w !! backupPath a = orig (applied_filename a)) →
  ∃ w',
    forEach applied (fun _ f => restoreFile e f) tt w = (Ret tt, w')
    ∧ (∀ a, In a applied →
         fs w' !! resolve e (applied_filename a) = orig (applied_filename a)
         ∧ fs w' !! backupPath a = None)
    ∧ (∀ p, (∀ a, In a applied →
               p ≠ resolve e (applied_filename a) ∧ p ≠ backupPath a) →
            fs w' !! p = fs w !! p).
Proof.
  destruct Hnc as [Hnodup Hnb].
  induction applied as [|a applied IH]; intros w Hnd Hbk.
  - exists w. split; [done|]. split; [by intros a []|done].
  - cbn [map] in Hnd. apply NoDup_cons in Hnd as [Hnew Hnd].
    destruct (Hbk a (or_introl eq_refl)) as (Hin & Hbp & [c Hc] & Hlook).
    rewrite Hc in Hlook.
    cbn [forEach]. unfold bind. rewrite (restoreFile_spec e a w c Hlook).
    set (w1 := addGit _ _).
    assert (Hother : ∀ b, In b applied →
              resolve e (applied_filename b) ≠ resolve e (applied_filename a)).
    { intros b Hb Heq. apply Hnew. apply list_elem_of_In, in_map_iff. by exists b. }
    destruct (IH w1 Hnd) as (w' & Hrun & Hrest & Hframe).
    { intros b Hb. destruct (Hbk b (or_intror Hb)) as (Hinb & Hbpb & Hsome & Hlookb).
      split; [done|]. split; [done|]. split; [done|].
      subst w1. cbn [fs addGit setFs]. rewrite <- Hlookb.
      rewrite lookup_delete_ne, lookup_insert_ne; [done| |].
      - rewrite Hbpb. apply Hnb; done.
      - rewrite Hbp, Hbpb. intros Heq%aiBackup_inj. by apply (Hother b Hb). }
    exists w'. split; [done|]. split.
    + intros b [<-|Hb]; [|by apply Hrest].
      rewrite !Hframe.
      * subst w1. cbn [fs addGit setFs]. split.
        -- rewrite lookup_delete_ne, lookup_insert_eq; [by rewrite Hc|].
           rewrite Hbp. apply not_eq_sym, aiBackup_ne_self.
        -- by rewrite lookup_delete_eq.
      * intros b Hb. destruct (Hbk b (or_intror Hb)) as (Hinb & Hbpb & _).
        split.
        -- rewrite Hbp. apply not_eq_sym, Hnb; done.
        -- rewrite Hbp, Hbpb. intros Heq%aiBackup_inj. by apply (Hother b Hb).
      * intros b Hb. destruct (Hbk b (or_intror Hb)) as (Hinb & Hbpb & _).
        split; [by apply not_eq_sym, Hother|]. rewrite Hbpb. by apply Hnb.
    + intros p Hp. rewrite Hframe by (intros b Hb; apply Hp; by right).
      destruct (Hp a (or_introl eq_refl)) as [Hp1 Hp2].
      subst w1. cbn [fs addGit setFs].
      by rewrite lookup_delete_ne, lookup_insert_ne.
Qed.

End Restore.

Lemma rawPrompt_answered q w a rest :
  responses w = Answered a :: rest →
  rawPrompt q w
  = (Ret a, mkWorld (fs w) rest (git w) (asked w ++ [questionMessage q])).
Proof. intros H. unfold rawPrompt, bind, ask. by rewrite H. Qed.

Lemma NoDup_map_inj {A B} (f : A → B) (l : list A) x y :
  NoDup (map f l) → In x l → In y l → f x = f y → x = y.
Proof.
  induction l as [|a l IH]; [done|]. cbn. intros [Hnew Hnd]%NoDup_cons.
  intros [->|Hx] [->|Hy] Heq; [done| | |by apply IH].
  - exfalso. apply Hnew. rewrite Heq. apply list_elem_of_In, in_map. done.
  - exfalso. apply Hnew. rewrite <- Heq. apply list_elem_of_In, in_map. done.
Qed.

(** The user declines: every applied file is restored *)
Lemma confirmOrRestore_declined e applied w rest w' :
  applied ≠ [] →
  responses w = Answered (ABool false) :: rest →
  forEach applied (fun _ f => restoreFile e f) tt
    (mkWorld (fs w) rest (git w ++ map restageCmd applied)
       (asked w ++ [questionMessage (proceedQuestion applied)]))
  = (Ret tt, w') →
  confirmOrRestore e applied w = (Exit 1%Z, w').
Proof.
  intros Hne Hresp Hrestore. unfold confirmOrRestore.
  destruct applied as [|a0 applied0]; [done|].
  unfold bind at 1. rewrite restage_spec.
  unfold tryCatch, bind at 1.
  rewrite (rawPrompt_answered _ _ (ABool false) rest) by done.
  cbn [asBool]. unfold bind at 1. cbn [fs git asked addGit].
  rewrite Hrestore. done.
Qed.

(** X21.  Provided the files named by the fixes resolve to distinct paths,
    none of which is the backup path of another: [applyAISuggestions] writes,
    before it writes a file, a backup holding the text of the file; and when
    the user then declines, every file it wrote is rewritten from its backup
    and has again the text it had at the start, its backup is removed, every
    file named by a fix reads as at the start, and the run ends with exit
    code 1. *)
Theorem rejection_restores_texts (e : env) (suggestedFixes : list autoFix)
  (staged : list string) (w : world) (rest : list response)
  (Hnc : noCollision e (namesOf suggestedFixes))
  (Hdecline : responses w = Answered (ABool false) :: rest) :
  ∃ applied w1,
    forEach (groupByFile suggestedFixes) (applyAIFile e staged) [] w
    = (Ret applied, w1)
    ∧ applyInvariant e (namesOf suggestedFixes) w applied w1
    ∧ fst (applyAISuggestions e suggestedFixes staged w) = Exit 1%Z
    ∧ (∀ a, In a applied →
         fs (snd (applyAISuggestions e suggestedFixes staged w))
           !! resolve e (applied_filename a)
         = fs w !! resolve e (applied_filename a)
         ∧ fs (snd (applyAISuggestions e suggestedFixes staged w)) !! backupPath a
           = None)
    ∧ (∀ name, In name (namesOf suggestedFixes) →
         fs (snd (applyAISuggestions e suggestedFixes staged w)) !! resolve e name
         = fs w !! resolve e name).
Proof.
  destruct (applyInvariant_loop e (namesOf suggestedFixes) Hnc staged w
              (groupByFile suggestedFixes) [] w)
    as (applied & w1 & Hloop & Hinv).
  { destruct Hnc as [Hnd _]. unfold namesOf in Hnd. by rewrite map_map in Hnd. }
  { intros g Hg. unfold namesOf. by apply in_map. }
  { by intros a g []. }
  { apply applyInvariant_start. }
  exists applied, w1. split; [done|]. split; [done|].
  pose proof Hinv as (Hnd & Hbk & Hframe & Hresp & Hgit & Hasked).
  destruct (restore_loop e (namesOf suggestedFixes) Hnc
              (fun n => fs w !! resolve e n) applied
              (mkWorld (fs w1) rest (git w1 ++ map restageCmd applied)
                 (asked w1 ++ [questionMessage (proceedQuestion applied)])) Hnd)
    as (w' & Hrestore & Hrestored & Hrframe).
  { intros a Ha. destruct (Hbk a Ha) as (H1 & H2 & H3 & H4). done. }
  assert (Hrun : ∃ w'', applyAISuggestions e suggestedFixes staged w = (Exit 1%Z, w'')
                        ∧ fs w'' = fs w').
  { unfold applyAISuggestions. unfold bind at 1. rewrite Hloop.
    destruct applied as [|a0 applied0].
    - exists w1. split; [done|]. cbn in Hrestore. by injection Hrestore as <-.
    - exists w'. split; [|done]. 
      eapply confirmOrRestore_declined; [done|by rewrite Hresp|done]. }
  destruct Hrun as (w'' & Hrun & Hfs). rewrite Hrun. cbn [fst snd]. rewrite Hfs.
  split; [done|]. split; [done|].
  intros name Hname.
  destruct (in_dec string_dec name (map applied_filename applied)) as [Hin|Hnin].
  - apply in_map_iff in Hin as (a & <- & Ha). by apply Hrestored.
  - assert (Hp : ∀ a, In a applied →
              resolve e name ≠ resolve e (applied_filename a)
              ∧ resolve e name ≠ backupPath a).
    { intros a Ha. destruct (Hbk a Ha) as (Hina & Hbpa & _). split.
      - intros Heq. apply Hnin. apply in_map_iff. exists a. split; [|done].
        symmetry. destruct Hnc as [Hnodup _].
        by apply (NoDup_map_inj (resolve e) (namesOf suggestedFixes)).
      - rewrite Hbpa. destruct Hnc as [_ Hnb]. by apply Hnb. }
    rewrite Hrframe by done. cbn [fs]. by apply Hframe.
Qed.

Lemma rejection_restores_texts_witness :
  fst (applyAISuggestions (Examples.plainEnv "" ["a.js"; "b.js"])
         Examples.twoFixes ["a.js"; "b.js"] Examples.twoFiles) = Exit 1%Z
  ∧ fs (snd (applyAISuggestions (Examples.plainEnv "" ["a.js"; "b.js"])
               Examples.twoFixes ["a.js"; "b.js"] Examples.twoFiles)) !! "a.js"
    = Some "A".
Proof.
  destruct (rejection_restores_texts (Examples.plainEnv "" ["a.js"; "b.js"])
              Examples.twoFixes ["a.js"; "b.js"] Examples.twoFiles [])
    as (applied & w1 & _ & _ & Hexit & _ & Hnames).
  - split.
    + vm_compute. repeat constructor; set_solver.
    + intros n1 n2 H1 H2. vm_compute in H1, H2.
      destruct H1 as [<-|[<-|[]]], H2 as [<-|[<-|[]]]; vm_compute; discriminate.
  - reflexivity.
  - split; [exact Hexit|]. apply (Hnames "a.js"). left. reflexivity.
Defined.

(** C3: the program contradicts the claim.  The backup path of a file is
    its path followed by a suffix, whatever the other files of the session
    are called, and the backup is written before the user is asked.

    In the first run a.js is staged together with a.js.copilot-backup, a
    backup left by an earlier run, and both hold a flagged line.  The user
    chooses to apply the suggestions and declines them for either file.  The
    run ends with exit code 1 and no file applied, yet the backup of a.js has
    been written over the second staged file, which now holds the text of
    a.js.

    The second run is [applyAISuggestions] on fixes for a.js.ai-backup and
    a.js, both staged, the user declining the confirmation: the backup of
    a.js is written over the other file, and the restoration of a.js reads
    there what the restoration of the other file has just put back.  The run
    ends with exit code 1, after the message that the files are restored to
    their original state; a.js then holds the text of the other file, and
    the other file has been removed. *)
Theorem C3_backup_overwrites_staged_file :
  (fs Examples.leftoverWorld !! "a.js" = Some "eval(x)"
   ∧ fs Examples.leftoverWorld !! "a.js.copilot-backup" = Some "eval(y)"
   ∧ fst (Validate.validateCommit Catalogue.patterns Examples.leftoverEnv
            Examples.leftoverWorld)
     = Exit 1%Z
   ∧ asked (snd (Validate.validateCommit Catalogue.patterns Examples.leftoverEnv
                   Examples.leftoverWorld))
     = ["🎯 How would you like to proceed?";
        "Apply suggested changes to a.js?";
        "Apply suggested changes to a.js.copilot-backup?"]
   ∧ git (snd (Validate.validateCommit Catalogue.patterns Examples.leftoverEnv
                 Examples.leftoverWorld))
     = []
   ∧ fs (snd (Validate.validateCommit Catalogue.patterns Examples.leftoverEnv
                Examples.leftoverWorld)) !! "a.js"
     = Some "eval(x)"
   ∧ fs (snd (Validate.validateCommit Catalogue.patterns Examples.leftoverEnv
                Examples.leftoverWorld)) !! "a.js.copilot-backup"
     = Some "eval(x)")
  ∧ fs Examples.collidingWorld !! "a.js" = Some "A"
  ∧ fs Examples.collidingWorld !! "a.js.ai-backup" = Some "B"
  ∧ fst (applyAISuggestions (Examples.plainEnv "" ["a.js"; "a.js.ai-backup"])
           Examples.collidingFixes ["a.js"; "a.js.ai-backup"]
           Examples.collidingWorld)
    = Exit 1%Z
  ∧ fs (snd (applyAISuggestions (Examples.plainEnv "" ["a.js"; "a.js.ai-backup"])
               Examples.collidingFixes ["a.js"; "a.js.ai-backup"]
               Examples.collidingWorld)) !! "a.js"
    = Some "B"
  ∧ fs (snd (applyAISuggestions (Examples.plainEnv "" ["a.js"; "a.js.ai-backup"])
               Examples.collidingFixes ["a.js"; "a.js.ai-backup"]
               Examples.collidingWorld)) !! "a.js.ai-backup"
    = None
  ∧ asked (snd (applyAISuggestions (Examples.plainEnv "" ["a.js"; "a.js.ai-backup"])
                  Examples.collidingFixes ["a.js"; "a.js.ai-backup"]
                  Examples.collidingWorld))
    = ["Applied 2 AI suggestions. Proceed with commit?"].
Proof. repeat split; vm_compute; reflexivity. Qed.

End BackupRestore.

(** ** The early exits of [validateCommit] *)

Module Gates.
Import Proc Validate.


(** An empty staged diff ends the run at once *)
Lemma empty_diff_allows_commit patterns e w :
  Js.trim (rawDiff e) = "" → validateCommit patterns e w = (Exit 0%Z, w).
Proof. intros H. unfold validateCommit, tryCatch. by rewrite H. Qed.

(** So does a diff of which the filter keeps nothing *)
Lemma empty_filtered_diff_allows_commit patterns e w pat :
  skipPattern e = Some pat →
  Js.trim (filterMeaningfulChanges (rawDiff e)) = "" →
  validateCommit patterns e w = (Exit 0%Z, w).
Proof.
  intros Hpat H. unfold validateCommit, tryCatch.
  destruct (negb (Js.truthy (Js.trim (rawDiff e)))); [done|].
  rewrite Hpat. destruct (detectSkipDirective _ _ _ _); [done|].
  by rewrite H.
Qed.




Example builtin_directives :
  map (Re.test defaultSkipPattern)
    ["x(); // AI-Review : skip"; "// hotfix: no-review"; "//prototype:skip-checks";
     "// ai-review skip"; "/* legacy: no-validation */"]
  = [true; true; true; false; false].
Proof. vm_compute. reflexivity. Qed.

(** C10: the program contradicts the claim.  The staged change touches
    yarn.lock only.  The filter drops the three lines that name the file and
    keeps the index line, the hunk header and both change lines, so the
    filtered diff is not empty and the run goes on to the analysis; the added
    line being longer than 100 characters, the user is asked whether to
    continue, and a refusal blocks the commit. *)
Lemma C10_lockfile_change_is_analysed :
  Js.lines (filterMeaningfulChanges Examples.lockDiff)
  = "index 1111111..2222222 100644" :: skipn 4 (Js.lines Examples.lockDiff)
  ∧ (let r := validateCommit Catalogue.patterns
                (Examples.plainEnv Examples.lockDiff ["yarn.lock"])
                (Examples.lockWorld [Answered (ABool false)]) in
     fst r = Exit 1%Z
     ∧ asked (snd r) = ["Continue with commit despite these issues?"]).
Proof. split; [|split]; vm_compute; reflexivity. Qed.

End Gates.

(** ** The filter of the diff *)

Module FilterFacts.
Import StringFacts.
Import DiffModel Validate Terms.
#[local] Arguments String.append !_ _ / : simpl nomatch.

Lemma noNewline_app (a b : string) :
  noNewline (a +:+ b) = noNewline a && noNewline b.
Proof.
  unfold noNewline. induction a as [|c a IH].
  - cbn. done.
  - rewrite app_cons. cbn [Js.includes]. unfold Js.nl at 1 3.
    rewrite !prefix_cons, !prefix_nil.
    destruct (Ascii.eqb Js.newline c); cbn; [done|]. apply IH.
Qed.

Lemma noNewline_char (c : ascii) :
  noNewline (String c "") = negb (Ascii.eqb Js.newline c).
Proof.
  unfold noNewline. cbn [Js.includes]. unfold Js.nl.
  rewrite prefix_cons, !prefix_nil.
  change (String.prefix (String Js.newline "") "") with false.
  by destruct (Ascii.eqb Js.newline c).
Qed.

Lemma split_go_noNewline (s : string) : ∀ cur,
  noNewline (String.rev cur) = true →
  forallb noNewline (Js.split_go Js.newline cur s) = true.
Proof.
  induction s as [|c s IH]; intros cur Hcur; cbn [Js.split_go].
  - cbn. by rewrite Hcur.
  - destruct (Ascii.eqb_spec c Js.newline) as [->|Hne].
    + cbn [forallb]. rewrite Hcur. cbn. apply IH. done.
    + apply IH. rewrite rev_cons, noNewline_app, Hcur, noNewline_char.
      rewrite andb_true_l. apply negb_true_iff. apply Ascii.eqb_neq. congruence.
Qed.

(** No line of a text holds a line feed *)
Lemma lines_noNewline (s : string) : forallb noNewline (Js.lines s) = true.
Proof. apply split_go_noNewline. done. Qed.

Lemma forallb_filter {A} (f g : A → bool) (l : list A) :
  forallb f l = true → forallb f (List.filter g l) = true.
Proof.
  induction l as [|x l IH]; [done|]. cbn. intros [Hx Hl]%andb_true_iff.
  destruct (g x); cbn; [rewrite Hx|]; auto.
Qed.

Lemma filter_filter {A} (f : A → bool) (l : list A) :
  List.filter f (List.filter f l) = List.filter f l.
Proof.
  induction l as [|x l IH]; [done|]. cbn. destruct (f x) eqn:E; [|done].
  cbn. by rewrite E, IH.
Qed.

Lemma filter_sublist {A} (f : A → bool) (l : list A) :
  sublist (List.filter f l) l.
Proof.
  induction l as [|x l IH]; [constructor|]. cbn.
  destruct (f x); by constructor.
Qed.

(** The lines of the filtered diff: the meaningful lines of the diff, or the
    single empty line of the empty text when there is none *)
Lemma lines_filterMeaningfulChanges (diff : string) :
  Js.lines (filterMeaningfulChanges diff)
  = match List.filter isMeaningful (Js.lines diff) with
    | [] => [""]
    | kept => kept
    end.
Proof.
  unfold filterMeaningfulChanges.
  destruct (List.filter isMeaningful (Js.lines diff)) as [|x l] eqn:E; [done|].
  apply lines_unlines; [done|]. rewrite <- E.
  apply forallb_filter, lines_noNewline.
Qed.

(** X3: filtering a filtered diff changes nothing *)
Theorem filterMeaningfulChanges_idempotent (diff : string) :
  filterMeaningfulChanges (filterMeaningfulChanges diff)
  = filterMeaningfulChanges diff.
Proof.
  unfold filterMeaningfulChanges at 1. rewrite lines_filterMeaningfulChanges.
  unfold filterMeaningfulChanges.
  destruct (List.filter isMeaningful (Js.lines diff)) as [|x l] eqn:E; [done|].
  by rewrite <- E, filter_filter.
Qed.


Lemma isExcluded_literal (l n : string) :
  In n literalNames → Js.includes l n = true → isExcluded l = true.
Proof.
  intros Hn Hl. unfold isExcluded. apply existsb_exists. exists n. split.
  - unfold literalNames in Hn. unfold EXCLUDED_FILES.
    repeat (destruct Hn as [<-|Hn]; [cbn; tauto|]). done.
  - unfold literalNames in Hn.
    repeat (destruct Hn as [<-|Hn]; [exact Hl|]). done.
Qed.

Lemma startsWith_first (l p : string) (c : ascii) :
  Js.startsWith l (String c p) = true → ∃ t, l = String c t.
Proof.
  unfold Js.startsWith. destruct l as [|d t]; [done|]. rewrite prefix_cons.
  destruct (Ascii.eqb_spec c d) as [->|]; [eauto|done].
Qed.

Lemma comment_test (content : string) (c : ascii) :
  Js.startsWith content (String "/" (String c "")) = true →
  Re.test (Re.seqs [Re.Bol; Re.Star Re.ws; Re.lit (String "/" (String c ""))])
    content = true.
Proof.
  unfold Js.startsWith. destruct content as [|a [|b t]]; try done.
  - rewrite prefix_cons. destruct (Ascii.eqb "/" a); done.
  - rewrite !prefix_cons.
    destruct (Ascii.eqb_spec "/" a) as [<-|]; [|done].
    destruct (Ascii.eqb_spec c b) as [<-|]; [|done]. intros _.
    unfold Re.test, Re.exec. cbn. by rewrite Ascii.eqb_refl.
Qed.

Lemma isMeaningful_facts (l : string) :
  isMeaningful l = true →
  isExcluded l = false
  ∧ Js.startsWith l " " = false
  ∧ l ≠ ""
  ∧ (Js.startsWith l "+" || Js.startsWith l "-" = true →
     Js.trim (Js.substringFrom 1 l) ≠ ""
     ∧ Js.startsWith (Js.trim (Js.substringFrom 1 l)) "//" = false
     ∧ Js.startsWith (Js.trim (Js.substringFrom 1 l)) "/*" = false).
Proof.
  unfold isMeaningful.
  destruct (Js.includes l "Binary files" && Js.includes l "differ"); [done|].
  destruct (isExcluded l) eqn:Hex; [done|].
  intros H. split; [done|].
  assert (Hsp : Js.startsWith l " " = false).
  { destruct (Js.startsWith l " ") eqn:Hs; [|done].
    apply startsWith_first in Hs as [t ->]. by vm_compute in H. }
  split; [done|]. split; [by intros ->|].
  intros Hpm. rewrite Hpm in H. cbv zeta in H.
  destruct (Js.trim (Js.substringFrom 1 l)) as [|c t] eqn:Ht; [done|].
  split; [done|].
  cbn [negb Js.truthy orb] in H.
  split.
  - destruct (Js.startsWith (String c t) "//") eqn:Hc; [|done].
    apply comment_test in Hc. by rewrite Hc in H.
  - destruct (Js.startsWith (String c t) "/*") eqn:Hc; [|done].
    apply comment_test in Hc. rewrite Hc in H. by rewrite orb_true_r in H.
Qed.

(** X4: what the filter keeps: lines of the diff, in their order; never a context
    line, never a line that holds the text of an excluded name (whatever file
    the line belongs to), never an added or removed line that is blank or
    begins a comment *)
Theorem filterMeaningfulChanges_keeps (diff l : string)
  (Hin : In l (Js.lines (filterMeaningfulChanges diff)))
  (Hne : l ≠ "") :
  In l (Js.lines diff)
  ∧ sublist (Js.lines (filterMeaningfulChanges diff)) (Js.lines diff)
  ∧ Js.startsWith l " " = false
  ∧ (∀ n, In n literalNames → Js.includes l n = false)
  ∧ (Js.startsWith l "+" || Js.startsWith l "-" = true →
     Js.trim (Js.substringFrom 1 l) ≠ ""
     ∧ Js.startsWith (Js.trim (Js.substringFrom 1 l)) "//" = false
     ∧ Js.startsWith (Js.trim (Js.substringFrom 1 l)) "/*" = false).
Proof.
  rewrite lines_filterMeaningfulChanges in *.
  destruct (List.filter isMeaningful (Js.lines diff)) as [|x kept] eqn:E.
  { destruct Hin as [<-|[]]. done. }
  rewrite <- E in *. apply filter_In in Hin as [Hl Hm].
  destruct (isMeaningful_facts l Hm) as (Hex & Hsp & _ & Hpm).
  split; [done|]. split; [apply filter_sublist|]. split; [done|].
  split; [|done].
  intros n Hn. destruct (Js.includes l n) eqn:Hi; [|done].
  by rewrite (isExcluded_literal l n Hn Hi) in Hex.
Qed.

Lemma filterMeaningfulChanges_keeps_witness :
  In "+  foo();" (Js.lines Examples.envHunkDiff)
  ∧ Js.includes "+  foo();" ".env" = false.
Proof.
  destruct (filterMeaningfulChanges_keeps Examples.envHunkDiff "+  foo();")
    as (Hin & _ & _ & Hn & _).
  - vm_compute. tauto.
  - discriminate.
  - split; [exact Hin|]. apply Hn. vm_compute. tauto.
Defined.

End FilterFacts.

(** ** The books of the analysis *)

Module Bookkeeping.
Import StringFacts FixRecords TrimFacts.
Import Review Terms.
#[local] Arguments String.append !_ _ / : simpl nomatch.

Lemma pushChange_keys f c fc g :
  In g (map fst (pushChange f c fc)) ↔ g = f ∨ In g (map fst fc).
Proof.
  induction fc as [|[h cs] fc IH]; cbn.
  - split; [intros [<-|[]]; by left|intros [->|[]]; by left].
  - destruct (String.eqb_spec h f) as [->|Hne]; cbn.
    + split; [intros [<-|H]; [by left|by right; right]|].
      intros [->|[<-|H]]; [by left|by left|by right].
    + rewrite IH. tauto.
Qed.

Lemma pushChange_NoDup f c fc :
  NoDup (map fst fc) → NoDup (map fst (pushChange f c fc)).
Proof.
  induction fc as [|[h cs] fc IH]; cbn.
  - intros _. apply NoDup_singleton.
  - intros [Hh Hfc]%NoDup_cons.
    destruct (String.eqb_spec h f) as [->|Hne]; cbn.
    + by apply NoDup_cons.
    + apply NoDup_cons. split; [|by apply IH].
      rewrite list_elem_of_In, pushChange_keys. rewrite list_elem_of_In in Hh.
      intros [->|H]; done.
Qed.

Lemma pushChange_entry f c fc g cs :
  In (g, cs) (pushChange f c fc) →
  In (g, cs) fc
  ∨ (g = f ∧ (cs = [c] ∨ ∃ cs0, In (f, cs0) fc ∧ cs = cs0 ++ [c])).
Proof.
  induction fc as [|[h cs1] fc IH]; cbn.
  - intros [[= <- <-]|[]]. right. split; [done|by left].
  - destruct (String.eqb_spec h f) as [->|Hne]; cbn.
    + intros [[= <- <-]|H]; [|by left; right].
      right. split; [done|]. right. exists cs1. split; [by left|done].
    + intros [H|H]; [by left; left|].
      apply IH in H as [H|(-> & [->|(cs0 & H0 & ->)])].
      * by left; right.
      * right. split; [done|by left].
      * right. split; [done|]. right. exists cs0. split; [by right|done].
Qed.

Lemma pushChange_count f c fc :
  length (concat (map snd (pushChange f c fc)))
  = S (length (concat (map snd fc))).
Proof.
  induction fc as [|[h cs] fc IH]; cbn; [done|].
  destruct (String.eqb h f); cbn; rewrite !length_app.
  - cbn. lia.
  - rewrite IH. lia.
Qed.

Lemma booked_issue st m s :
  booked st →
  booked (mkReview (issues st ++ [m]) (suggestions st ++ [s]) (fileChanges st)).
Proof.
  intros (H1 & H2 & H3 & H4). unfold booked, changesOf in *. cbn.
  rewrite !length_app. cbn. split; [lia|]. split; [done|]. split; [done|lia].
Qed.

Lemma booked_fix st m s f c :
  booked st → file c = f → Js.trim (original c) = original c →
  booked (mkReview (issues st ++ [m]) (suggestions st ++ [s])
            (pushChange f c (fileChanges st))).
Proof.
  intros (H1 & H2 & H3 & H4) Hf Ho. unfold booked, changesOf in *. cbn.
  rewrite !length_app, pushChange_count. cbn.
  split; [lia|]. split; [by apply pushChange_NoDup|]. split; [|lia].
  intros g cs [H|(-> & [->|(cs0 & H0 & ->)])]%pushChange_entry.
  - by apply H3.
  - split; [done|]. by intros c' [<-|[]].
  - destruct (H3 _ _ H0) as [_ Hcs0]. split; [by destruct cs0|].
    intros c' [H|[<-|[]]]%in_app_iff; [by apply Hcs0|done].
Qed.

Lemma scanPattern_booked filePath declared n staged l st p :
  booked st → booked (scanPattern filePath declared n staged l st p).
Proof.
  intros Hst.
  assert (Hrec : ∀ msg sugg,
    booked (mkReview (issues st ++ [msg]) (suggestions st ++ [sugg])
         (if staged && is_critical_or_high (severity_of p)
          then pushChange filePath
                 (mkChange n (Js.trim l)
                    (Synth.generateSmartFix l p filePath declared) filePath
                    (Some (message p)) None) (fileChanges st)
          else fileChanges st))).
  { intros msg sugg. destruct (staged && _).
    - apply booked_fix; [done|done|apply trim_idem].
    - by apply booked_issue. }
  unfold scanPattern. cbv zeta.
  destruct (Js.includes (message p) "undeclared variable"
            || Js.includes (message p) "Test undeclared variable").
  - destruct (Re.group 1 variableRe l) as [v|]; [|done].
    destruct (negb (bool_decide (v ∈ declared)) && Re.test (regex p) l); [|done].
    apply Hrec.
  - destruct (Re.test (regex p) l); [|done]. apply Hrec.
Qed.

Lemma legacyPattern_booked fs modified currentFile index code st p :
  booked st → booked (legacyPattern fs modified currentFile index code st p).
Proof.
  intros Hst. unfold legacyPattern. destruct (Re.test _ _); [|done].
  destruct (is_critical_or_high _).
  - apply booked_fix; [done|done|apply trim_idem].
  - by apply booked_issue.
Qed.

(** X5: the books of [getCopilotReview] are in order whatever the rules, the
    files and the diff: every issue has its suggestion; the fixes are filed
    under distinct file names, no entry is empty, every fix record sits under
    the file it carries and holds a trimmed original text; and there are
    never more fix records than issues *)
Theorem analysis_bookkeeping (patterns : list (string * list pattern))
  (fs : string → option string) (diff : string) :
  let st := analyse patterns fs diff in
  length (issues st) = length (suggestions st)
  ∧ NoDup (map fst (fileChanges st))
  ∧ (∀ f cs, In (f, cs) (fileChanges st) →
       cs ≠ []
       ∧ ∀ c, In c cs → file c = f ∧ Js.trim (original c) = original c)
  ∧ length (changesOf st) ≤ length (issues st).
Proof.
  cbv zeta. change (booked (analyse patterns fs diff)).
  unfold analyse. cbv zeta.
  apply (fold_left_invariant (fun acc => booked (snd acc))).
  - cbn [snd]. unfold wholeFileScan. apply fold_left_invariant.
    + repeat split; try done. constructor.
    + intros st f _ Hst. unfold scanFile. destruct (fs f); [|done].
      apply fold_left_invariant; [done|].
      intros st' [i l] _ Hst'. unfold scanLine. destruct (_ && _); [|done].
      apply fold_left_invariant; [done|].
      intros st'' p _ Hst''. by apply scanPattern_booked.
  - intros [cur st] [i l] _ Hst. cbn [snd] in *. unfold legacyLine.
    destruct (isAddition l); [|done]. destruct (Js.truthy _); [|done].
    cbn [snd]. apply fold_left_invariant; [done|].
    intros st' p _ Hst'. by apply legacyPattern_booked.
Qed.

End Bookkeeping.

(** ** A line of the section of fixes *)

Module FeedbackFacts.
Import StringFacts RegexFacts NumFacts RegexEval DiffLines.
Import Re Terms Feedback.
#[local] Arguments String.append !_ _ / : simpl nomatch.

Lemma plus_chr_end p ds k prev caps r :
  ds ≠ "" → every p ds = true →
  k (lastChar prev ds) "" caps = Some r →
  rmatch (plus (Chr p)) prev ds caps k = Some r.
Proof.
  intros Hne Hds Hk. rewrite <- (app_empty_r ds) at 1. by apply plus_chr.
Qed.

(** The arrow cannot begin inside a text that holds no arrow sign *)
Lemma arrow_not_prefix (a rest : string) :
  a ≠ "" → Js.includes a "→" = false →
  String.prefix arrow (a +:+ arrow +:+ rest) = false.
Proof.
  intros Hne Ha. destruct a as [|c1 a]; [done|].
  apply includes_cons_false in Ha. apply includes_prefix_false in Ha.
  unfold arrow. rewrite app_cons, prefix_cons.
  destruct (Ascii.eqb " " c1); [|done].
  destruct a as [|c2 a]; [done|]. rewrite app_cons, prefix_cons.
  rewrite prefix_cons in Ha.
  destruct (Ascii.eqb _ c2); [|done].
  destruct a as [|c3 a]; [done|]. rewrite app_cons, prefix_cons.
  rewrite prefix_cons in Ha.
  destruct (Ascii.eqb _ c3); [|done].
  destruct a as [|c4 a]; [done|]. rewrite app_cons, prefix_cons.
  rewrite prefix_cons in Ha.
  destruct (Ascii.eqb _ c4); [|done].
  by rewrite prefix_nil in Ha.
Qed.

Lemma fixLineRe_reads (n : nat) (o i : string) :
  o ≠ "" → oneLine o = true → Js.includes o "→" = false →
  i ≠ "" → oneLine i = true →
  ∃ m, Re.exec fixLineRe
         ("Line " +:+ Js.showNat n +:+ ": " +:+ o +:+ arrow +:+ i) = Some m
       ∧ get_cap 1 (m_caps m) = Some (Js.showNat n)
       ∧ get_cap 2 (m_caps m) = Some o
       ∧ get_cap 3 (m_caps m) = Some i.
Proof.
  intros Ho Hol Hoa Hi Hil. unfold exec.
  destruct (showNat_digits n) as [Hn Hn'].
  eexists. split.
  - apply search_from_hit. unfold fixLineRe. cbn [seqs].
    rewrite rmatch_seq, rmatch_lit, rmatch_seq, rmatch_grp.
    apply plus_chr; [done..|].
    rewrite take_matched, rmatch_seq, rmatch_lit, rmatch_seq, rmatch_grp.
    destruct o as [|c o]; [done|].
    cbn [oneLine every] in Hol. apply andb_true_iff in Hol as [Hc Hol].
    unfold plusLazy. rewrite rmatch_seq, app_cons. unfold dot at 1.
    rewrite rmatch_chr, Hc.
    apply starLazy_shortest; [done| |].
    + intros a1 a2 -> Ha2. rewrite rmatch_seq. apply rmatch_lit_fail.
      apply arrow_not_prefix; [done|].
      apply includes_cons_false in Hoa. by apply includes_app_r in Hoa.
    + rewrite <- app_cons, take_matched.
      rewrite rmatch_seq, rmatch_lit, rmatch_grp.
      apply plus_chr_end; [done..|]. rewrite take_all. reflexivity.
  - cbn [m_caps]. split; [|split].
    + rewrite get_cap_set_other, get_cap_set_other by done.
      apply get_cap_set_same.
    + rewrite get_cap_set_other by done. apply get_cap_set_same.
    + apply get_cap_set_same.
Qed.

End FeedbackFacts.

(** ** Writing the fixes and reading them back *)

Module SectionFacts.
Import StringFacts RegexFacts NumFacts RegexEval DiffLines TrimFacts FilterFacts FeedbackFacts.
Import Re Terms Feedback DiffModel.
#[local] Arguments String.append !_ _ / : simpl nomatch.

(** *** One line of the section *)

Lemma parseFixLine_rendered (cur : string) (fixes : list autoFix) (n : nat)
  (o i : string) :
  o ≠ "" → oneLine o = true → Js.includes o "→" = false →
  i ≠ "" → oneLine i = true →
  parseFixLine (cur, fixes)
    ("Line " +:+ Js.showNat n +:+ ": " +:+ o +:+ arrow +:+ i)
  = (cur, fixes ++ [mkFix (if Js.truthy cur then cur else "index.js")
                      (Z.of_nat n) (Js.trim o) (Js.trim i) None None]).
Proof.
  intros Ho Hol Hoa Hi Hil.
  destruct (fixLineRe_reads n o i Ho Hol Hoa Hi Hil) as (m & Hm & H1 & H2 & H3).
  unfold parseFixLine.
  assert (Hstart : Js.startsWith
            ("Line " +:+ Js.showNat n +:+ ": " +:+ o +:+ arrow +:+ i) "File: "
          = false) by done.
  rewrite Hstart.
  assert (Hinc : Js.includes
            ("Line " +:+ Js.showNat n +:+ ": " +:+ o +:+ arrow +:+ i) arrow
          = true).
  { rewrite <- !app_assoc_s. rewrite (app_assoc_s _ arrow i).
    apply includes_app_hit. }
  rewrite Hinc, Hm, H1, H2, H3. by rewrite parseDigits_showNat.
Qed.

Lemma parseFixLine_inert acc l : inert l = true → parseFixLine acc l = acc.
Proof.
  unfold inert, parseFixLine. destruct acc as [cur fixes].
  intros [H1 H2]%andb_true_iff. apply negb_true_iff in H1, H2.
  by rewrite H1, H2.
Qed.

Lemma parseFixLine_file cur fixes f :
  Js.trim f ≠ "" →
  parseFixLine (cur, fixes) ("File: " +:+ f) = (Js.trim f, fixes).
Proof.
  intros Hf. unfold parseFixLine.
  assert (Hs : Js.startsWith ("File: " +:+ f) "File: " = true)
    by apply prefix_app_same.
  rewrite Hs.
  assert (Hr : Js.replace ("File: " +:+ f) "File: " "" = f).
  { pose proof (replace_at "" "File: " f "") as H.
    cbn [String.append] in H. cbn [String.append]. rewrite H; [done|].
    cbn. by rewrite prefix_nil. }
  rewrite Hr. by destruct (Js.trim f).
Qed.

(** *** Lines of a text *)

Lemma every_noNewline p (s : string) :
  (∀ c, p c = true → Ascii.eqb Js.newline c = false) →
  every p s = true → noNewline s = true.
Proof.
  intros Hp. induction s as [|c s IH]; [done|]. cbn [every].
  intros [Hc Hs]%andb_true_iff.
  change (String c s) with (String c "" +:+ s).
  by rewrite noNewline_app, noNewline_char, (Hp c Hc), IH.
Qed.

Lemma oneLine_noNewline (s : string) : oneLine s = true → noNewline s = true.
Proof.
  apply every_noNewline. intros c Hc. apply negb_true_iff in Hc.
  unfold is_line_terminator in Hc. apply orb_false_iff in Hc as [Hc _].
  by rewrite Ascii.eqb_sym.
Qed.

Lemma digits_noNewline (s : string) :
  every Js.is_digit s = true → noNewline s = true.
Proof.
  apply every_noNewline. intros c Hc.
  destruct (Ascii.eqb_spec Js.newline c) as [<-|]; [done|done].
Qed.

Lemma lines_cons (x rest : string) :
  noNewline x = true → Js.lines (x +:+ Js.nl +:+ rest) = x :: Js.lines rest.
Proof.
  intros Hx. unfold Js.lines, Js.split.
  change (Js.nl +:+ rest) with (String Js.newline rest).
  by rewrite split_go_line.
Qed.

Lemma unlines_cons_app (x y : string) (l : list string) :
  x +:+ Js.unlines (y :: l) = Js.unlines ((x +:+ y) :: l).
Proof. destruct l; cbn [Js.unlines Js.join]; [done|]. by rewrite app_assoc_s. Qed.

Lemma lines_unlines_then (l : list string) : ∀ rest,
  l ≠ [] → forallb noNewline l = true →
  Js.lines (Js.unlines l +:+ Js.nl +:+ rest) = l ++ Js.lines rest.
Proof.
  induction l as [|x l IH]; [done|]. intros rest _ H.
  cbn [forallb] in H. apply andb_true_iff in H as [Hx Hl].
  destruct l as [|y l].
  - cbn [Js.unlines Js.join]. by rewrite lines_cons.
  - change (Js.unlines (x :: y :: l)) with (x +:+ Js.nl +:+ Js.unlines (y :: l)).
    rewrite !app_assoc_s, lines_cons by done.
    change (String Js.newline ?r) with (Js.nl +:+ r).
    by rewrite IH.
Qed.

Lemma fold_inert (l : list string) acc :
  forallb inert l = true → fold_left parseFixLine l acc = acc.
Proof.
  revert acc. induction l as [|x l IH]; intros acc H; [done|].
  cbn [forallb] in H. apply andb_true_iff in H as [Hx Hl].
  cbn [fold_left]. rewrite parseFixLine_inert by done. by apply IH.
Qed.

(** *** A record of the section, whose improved text may run over lines *)

Lemma parse_change (cur : string) (fixes : list autoFix) (n : nat)
  (o i1 : string) (more : list string) (rest : string) :
  Js.truthy cur = true →
  o ≠ "" → oneLine o = true → Js.includes o "→" = false →
  i1 ≠ "" → oneLine i1 = true →
  forallb noNewline more = true → forallb inert more = true →
  fold_left parseFixLine
    (Js.lines (("Line " +:+ Js.showNat n +:+ ": " +:+ o +:+ arrow +:+
                Js.unlines (i1 :: more)) +:+ Js.nl +:+ rest))
    (cur, fixes)
  = fold_left parseFixLine (Js.lines rest)
      (cur, fixes ++ [mkFix cur (Z.of_nat n) (Js.trim o) (Js.trim i1) None None]).
Proof.
  intros Hcur Ho Hol Hoa Hi Hil Hmn Hmi.
  destruct (showNat_digits n) as [Hn _].
  assert (E : "Line " +:+ Js.showNat n +:+ ": " +:+ o +:+ arrow +:+
              Js.unlines (i1 :: more)
            = Js.unlines (("Line " +:+ Js.showNat n +:+ ": " +:+ o +:+ arrow
                           +:+ i1) :: more)).
  { by rewrite <- !unlines_cons_app. }
  rewrite E, lines_unlines_then; [|done|].
  - rewrite fold_left_app. cbn [fold_left].
    rewrite parseFixLine_rendered by done. rewrite Hcur.
    by rewrite (fold_inert more).
  - cbn [forallb]. rewrite Hmn, andb_true_r.
    rewrite !noNewline_app, (digits_noNewline _ Hn),
      (oneLine_noNewline _ Hol), (oneLine_noNewline _ Hil). done.
Qed.

(** *** Where the heading of the section cannot be *)

Lemma prefix_sep (c : ascii) (m : string) : ∀ x y,
  every (fun d => negb (Ascii.eqb d c)) m = true →
  String.prefix m x = false → String.prefix m (x +:+ String c y) = false.
Proof.
  induction m as [|m0 m IH]; intros x y Hm Hx.
  - by rewrite prefix_nil in Hx.
  - cbn [every] in Hm. apply andb_true_iff in Hm as [Hm0 Hm].
    apply negb_true_iff in Hm0. destruct x as [|d x].
    + cbn [String.append]. by rewrite prefix_cons, Hm0.
    + rewrite app_cons, prefix_cons. rewrite prefix_cons in Hx.
      destruct (Ascii.eqb m0 d); [by apply IH|done].
Qed.

Lemma includes_sep (c : ascii) (m x y : string) :
  m ≠ "" → every (fun d => negb (Ascii.eqb d c)) m = true →
  Js.includes x m = false → Js.includes y m = false →
  Js.includes (x +:+ String c y) m = false.
Proof.
  intros Hne Hm Hx Hy. induction x as [|d x IH].
  - cbn [String.append Js.includes]. rewrite Hy, orb_false_r.
    destruct m as [|m0 m]; [done|]. cbn [every] in Hm.
    apply andb_true_iff in Hm as [Hm0 _]. apply negb_true_iff in Hm0.
    by rewrite prefix_cons, Hm0.
  - rewrite app_cons. cbn [Js.includes].
    rewrite IH by (by apply includes_cons_false in Hx).
    rewrite orb_false_r. rewrite <- app_cons. apply prefix_sep; [done|].
    by apply includes_prefix_false.
Qed.

Lemma no_marker_sp (x y : string) :
  Js.includes x marker = false → Js.includes y marker = false →
  Js.includes (x +:+ " " +:+ y) marker = false.
Proof. intros Hx Hy. by apply (includes_sep " "). Qed.

Lemma no_marker_nl (x y : string) :
  Js.includes x marker = false → Js.includes y marker = false →
  Js.includes (x +:+ Js.nl +:+ y) marker = false.
Proof. intros Hx Hy. by apply (includes_sep Js.newline). Qed.

Lemma digits_no_marker (ds : string) :
  every Js.is_digit ds = true → Js.includes (ds +:+ ":") marker = false.
Proof.
  induction ds as [|d ds IH]; [done|]. cbn [every].
  intros [Hd Hds]%andb_true_iff. rewrite app_cons. cbn [Js.includes].
  rewrite IH by done. rewrite orb_false_r. unfold marker.
  rewrite prefix_cons. destruct (Ascii.eqb_spec "A" d) as [<-|]; done.
Qed.

(** *** The section as [getCopilotReview] writes it *)

Lemma fold_left_append {A} (g : A → string) (l : list A) : ∀ init,
  fold_left (fun acc e => acc +:+ g e) l init
  = init +:+ fold_left (fun acc e => acc +:+ g e) l "".
Proof.
  induction l as [|x l IH]; intros init; cbn [fold_left].
  - by rewrite app_empty_r.
  - rewrite IH, (IH ("" +:+ g x)). cbn [String.append]. by rewrite app_assoc_s.
Qed.

Lemma fold_left_append_cons {A} (g : A → string) (x : A) (l : list A) :
  fold_left (fun acc e => acc +:+ g e) (x :: l) ""
  = g x +:+ fold_left (fun acc e => acc +:+ g e) l "".
Proof. cbn [fold_left]. by rewrite fold_left_append. Qed.

Lemma showZ_nonneg (z : Z) :
  (0 ≤ z)%Z → Review.showZ z = Js.showNat (Z.to_nat z).
Proof. by destruct z. Qed.

Lemma renderChange_shape (c : Review.change) :
  (0 ≤ Review.line c)%Z →
  renderChange c
  = ("Line " +:+ Js.showNat (Z.to_nat (Review.line c)) +:+ ": " +:+
     Js.trim (Review.original c) +:+ arrow +:+
     Js.unlines [Js.trim (Review.improved c)]) +:+ Js.nl.
Proof.
  intros H. unfold renderChange. rewrite showZ_nonneg by done.
  cbn [Js.unlines Js.join]. by rewrite !app_assoc_s.
Qed.

Lemma renderChange_no_marker (c : Review.change) (rest : string) :
  (0 ≤ Review.line c)%Z →
  Js.includes (Js.trim (Review.original c)) marker = false →
  Js.includes (Js.trim (Review.improved c)) marker = false →
  Js.includes rest marker = false →
  Js.includes (renderChange c +:+ rest) marker = false.
Proof.
  intros Hl Ho Hi Hrest.
  unfold renderChange. rewrite showZ_nonneg by done.
  destruct (showNat_digits (Z.to_nat (Review.line c))) as [Hn _].
  set (N := Js.showNat _) in *.
  set (o := Js.trim (Review.original c)) in *.
  set (i := Js.trim (Review.improved c)) in *.
  assert (E : ("Line " +:+ N +:+ ": " +:+ o +:+ arrow +:+ i +:+ Js.nl) +:+ rest
            = "Line" +:+ " " +:+ (N +:+ ":") +:+ " " +:+ o +:+ " " +:+ "→" +:+
              " " +:+ i +:+ Js.nl +:+ rest).
  { by rewrite !app_assoc_s. }
  rewrite E.
  apply no_marker_sp; [done|]. apply no_marker_sp; [by apply digits_no_marker|].
  apply no_marker_sp; [done|]. apply no_marker_sp; [done|].
  by apply no_marker_nl.
Qed.

Lemma changes_no_marker (cs : list Review.change) (rest : string) :
  Forall readable cs → Js.includes rest marker = false →
  Js.includes (fold_left (fun acc c => acc +:+ renderChange c) cs "" +:+ rest)
    marker = false.
Proof.
  induction 1 as [|c cs Hc Hcs IH]; intros Hrest; [done|].
  rewrite fold_left_append_cons, app_assoc_s.
  destruct Hc as (Hl & (_ & _ & Ho) & _ & (_ & _ & Hi)).
  apply renderChange_no_marker; [done..|]. by apply IH.
Qed.

Lemma files_no_marker (fc : list (string * list Review.change)) :
  Forall listed fc →
  Js.includes (fold_left (fun acc e => acc +:+ renderFile e) fc "") marker = false.
Proof.
  induction 1 as [|[f cs] fc (Hf1 & Hf2 & Hf3 & Hcs) Hfc IH]; [done|].
  rewrite fold_left_append_cons. unfold renderFile at 1. cbn [fst snd] in *.
  assert (E : ("File: " +:+ f +:+ Js.nl +:+
               fold_left (fun acc c => acc +:+ renderChange c) cs "") +:+
              fold_left (fun acc e => acc +:+ renderFile e) fc ""
            = "File:" +:+ " " +:+ f +:+ Js.nl +:+
              (fold_left (fun acc c => acc +:+ renderChange c) cs "" +:+
               fold_left (fun acc e => acc +:+ renderFile e) fc "")).
  { by rewrite !app_assoc_s. }
  rewrite E. apply no_marker_sp; [done|]. apply no_marker_nl; [done|].
  by apply changes_no_marker.
Qed.

Lemma parse_changes (cs : list Review.change) : ∀ cur fixes rest,
  Js.truthy cur = true → Forall readable cs →
  fold_left parseFixLine
    (Js.lines (fold_left (fun acc c => acc +:+ renderChange c) cs "" +:+ rest))
    (cur, fixes)
  = fold_left parseFixLine (Js.lines rest)
      (cur, fixes ++
            map (fun c => mkFix cur (Review.line c) (Js.trim (Review.original c))
                            (Js.trim (Review.improved c)) None None) cs).
Proof.
  induction cs as [|c cs IH]; intros cur fixes rest Hcur Hcs.
  - cbn [fold_left map String.append]. by rewrite app_nil_r.
  - apply Forall_cons in Hcs as [Hc Hcs].
    pose proof Hc as (Hl & (Ho1 & Ho2 & _) & Ho3 & (Hi1 & Hi2 & _)).
    rewrite fold_left_append_cons, app_assoc_s, renderChange_shape by done.
    rewrite app_assoc_s.
    rewrite parse_change by done.
    rewrite IH by done. rewrite !trim_idem, Z2Nat.id by done.
    cbn [map]. by rewrite <- app_assoc.
Qed.

Lemma parse_files (fc : list (string * list Review.change)) : ∀ cur fixes,
  Forall listed fc →
  snd (fold_left parseFixLine
         (Js.lines (fold_left (fun acc e => acc +:+ renderFile e) fc ""))
         (cur, fixes))
  = fixes ++ flat_map (fun e => map (readBack (fst e)) (snd e)) fc.
Proof.
  induction fc as [|[f cs] fc IH]; intros cur fixes Hfc.
  - cbn. by rewrite app_nil_r.
  - apply Forall_cons in Hfc as [(Hf1 & Hf2 & Hf3 & Hcs) Hfc].
    cbn [fst snd] in *.
    rewrite fold_left_append_cons. unfold renderFile at 1. cbn [fst snd].
    rewrite !app_assoc_s. rewrite <- (app_assoc_s "File: " f).
    rewrite lines_cons.
    2:{ rewrite noNewline_app. by rewrite (oneLine_noNewline f). }
    cbn [fold_left]. rewrite parseFixLine_file by done.
    rewrite parse_changes; [|by destruct (Js.trim f)|done].
    rewrite IH by done. cbn [flat_map fst snd]. by rewrite <- app_assoc.
Qed.

Lemma upToSep_all (sep s : string) :
  Js.includes s sep = false → Js.upToSep sep s = s.
Proof.
  induction s as [|c s IH]; intros H.
  - cbn in *. apply orb_false_iff in H as [H _]. by rewrite H.
  - pose proof (includes_prefix_false _ _ H) as Hp.
    cbn [Js.upToSep]. rewrite Hp, IH; [done|].
    by apply includes_cons_false in H.
Qed.

Lemma indexOf_prefix (s o : string) :
  String.prefix o s = true → Js.indexOf s o = Some 0.
Proof. destruct s; cbn [Js.indexOf]; by intros ->. Qed.

Lemma indexOf_after_sep (c : ascii) (m pre rest : string) :
  every (fun d => negb (Ascii.eqb d c)) m = true → m ≠ "" →
  Js.includes pre m = false →
  Js.indexOf (pre +:+ String c (m +:+ rest)) m = Some (S (String.length pre)).
Proof.
  intros Hm Hne. induction pre as [|d pre IH]; intros Hpre.
  - cbn [String.append]. rewrite indexOf_cons.
    assert (Hp : String.prefix m (String c (m +:+ rest)) = false).
    { destruct m as [|m0 m]; [done|]. cbn [every] in Hm.
      apply andb_true_iff in Hm as [Hm0 _]. apply negb_true_iff in Hm0.
      by rewrite prefix_cons, Hm0. }
    rewrite Hp. by rewrite (indexOf_prefix _ _ (prefix_app_same m rest)).
  - rewrite app_cons, indexOf_cons, <- app_cons.
    rewrite prefix_sep; [|done|by apply includes_prefix_false].
    rewrite IH by (by apply includes_cons_false in Hpre). done.
Qed.

Lemma section_of_feedback (pre body : string) :
  Js.includes pre marker = false → Js.includes body marker = false →
  Js.splitSecond (pre +:+ Js.nl +:+ marker +:+ Js.nl +:+ body) marker
  = Some (Js.nl +:+ body).
Proof.
  intros Hpre Hb. unfold Js.splitSecond.
  change (Js.nl +:+ marker +:+ Js.nl +:+ body)
    with (String Js.newline (marker +:+ Js.nl +:+ body)).
  rewrite indexOf_after_sep by done.
  assert (E : pre +:+ String Js.newline (marker +:+ Js.nl +:+ body)
            = (pre +:+ Js.nl +:+ marker) +:+ Js.nl +:+ body).
  { by rewrite !app_assoc_s. }
  assert (L : S (String.length pre) + String.length marker
            = String.length (pre +:+ Js.nl +:+ marker)).
  { rewrite !length_app_s. cbn. lia. }
  rewrite E, L, substringFrom_app_exact, upToSep_all; [done|].
  by apply (no_marker_nl "" body).
Qed.

Lemma parse_section (pre body : string) :
  Js.includes pre marker = false → Js.includes body marker = false →
  parseAutoApplicableFixes (pre +:+ Js.nl +:+ marker +:+ Js.nl +:+ body)
  = snd (fold_left parseFixLine (Js.lines body) ("", [])).
Proof.
  intros Hpre Hb. unfold parseAutoApplicableFixes.
  change "AUTO_APPLICABLE_FIXES" with marker.
  assert (Hinc : Js.includes (pre +:+ Js.nl +:+ marker +:+ Js.nl +:+ body) marker
                 = true).
  { rewrite <- (app_assoc_s pre). apply includes_app_hit. }
  rewrite Hinc. cbn [negb]. rewrite section_of_feedback by done.
  cbn [Js.truthy String.append Js.nl negb].
  change (String Js.newline body) with ("" +:+ Js.nl +:+ body).
  by rewrite lines_cons.
Qed.

(** X6: the fixes that [getCopilotReview] writes at the end of its feedback
    are read back by [parseAutoApplicableFixes] as they were written: file by
    file and record by record, with the line number, the trimmed original
    text and the trimmed improved text *)
Theorem fixes_round_trip (pre : string)
  (fc : list (string * list Review.change))
  (Hpre : Js.includes pre marker = false)
  (Hfc : Forall listed fc) :
  parseAutoApplicableFixes (pre +:+ renderAutoFixes fc)
  = flat_map (fun e => map (readBack (fst e)) (snd e)) fc.
Proof.
  destruct fc as [|e fc].
  - unfold parseAutoApplicableFixes, renderAutoFixes.
    change "AUTO_APPLICABLE_FIXES" with marker.
    by rewrite app_empty_r, Hpre.
  - unfold renderAutoFixes. change "AUTO_APPLICABLE_FIXES" with marker.
    rewrite parse_section by (done || by apply files_no_marker).
    exact (parse_files (e :: fc) "" [] Hfc).
Qed.

Lemma fixes_round_trip_witness :
  parseAutoApplicableFixes
    ("COPILOT_FIXES" +:+
     renderAutoFixes [("a.js", [Review.mkChange 3 " eval(x) " "run(x)" "a.js"
                                  None None])])
  = [mkFix "a.js" 3 "eval(x)" "run(x)" None None].
Proof.
  apply (fixes_round_trip "COPILOT_FIXES"
           [("a.js", [Review.mkChange 3 " eval(x) " "run(x)" "a.js" None None])]).
  - reflexivity.
  - repeat constructor; try (vm_compute; (reflexivity || lia || discriminate)).
Defined.

(** *** A fix that puts a declaration above the line *)

Lemma includes_drop_tail (s sub t : string) :
  Js.includes s (sub +:+ t) = true → Js.includes s sub = true.
Proof.
  assert (Hp : ∀ x, String.prefix (sub +:+ t) x = true → String.prefix sub x = true).
  { induction sub as [|c sub IH]; intros x; [by rewrite prefix_nil|].
    rewrite app_cons. destruct x as [|d x]; [done|]. rewrite !prefix_cons.
    destruct (Ascii.eqb c d); [apply IH|done]. }
  induction s as [|c s IH]; cbn [Js.includes].
  - rewrite !orb_false_r. apply Hp.
  - intros [H|H]%orb_true_iff; [by rewrite (Hp _ H)|].
    rewrite (IH H). apply orb_true_r.
Qed.

Lemma includes_drop_head (s sub : string) (c : ascii) :
  Js.includes s (String c sub) = true → Js.includes s sub = true.
Proof.
  induction s as [|d s IH]; cbn [Js.includes].
  - by rewrite orb_false_r.
  - rewrite prefix_cons. intros [H|H]%orb_true_iff.
    + destruct (Ascii.eqb c d); [|done].
      assert (Js.includes s sub = true) as ->; [|apply orb_true_r].
      destruct s; cbn [Js.includes]; by rewrite H.
    + rewrite (IH H). apply orb_true_r.
Qed.

Lemma no_arrow_sign (s : string) :
  Js.includes s "→" = false → Js.includes s arrow = false.
Proof.
  intros H. destruct (Js.includes s arrow) eqn:E; [|done].
  unfold arrow in E. apply includes_drop_head in E.
  apply (includes_drop_tail s "→" " ") in E. congruence.
Qed.

Lemma declarationLine_facts (v value : string) :
  oneLine v = true → Js.includes v marker = false →
  In value ["[]"; "0"; "''"] →
  Synth.declarationLine v value ≠ ""
  ∧ oneLine (Synth.declarationLine v value) = true
  ∧ Js.includes (Synth.declarationLine v value) marker = false
  ∧ Js.trim (Synth.declarationLine v value) = Synth.declarationLine v value.
Proof.
  intros Hv Hm Hval. unfold Synth.declarationLine.
  split; [done|]. split; [|split].
  - unfold oneLine in *. rewrite !every_app, Hv.
    destruct Hval as [<-|[<-|[<-|[]]]]; done.
  - assert (E : "const " +:+ v +:+ " = " +:+ value +:+
                "; // Auto-fix: Variable declaration"
              = "const" +:+ " " +:+ v +:+ " " +:+ "=" +:+ " " +:+
                (value +:+ "; // Auto-fix: Variable declaration")).
    { by rewrite ?app_assoc_s. }
    rewrite E. apply no_marker_sp; [done|]. apply no_marker_sp; [done|].
    apply no_marker_sp; [done|].
    destruct Hval as [<-|[<-|[<-|[]]]]; done.
  - unfold Js.trim. cbn [String.append Js.trimStart Js.is_space].
    change (String "c" (String "o" (String "n" (String "s" (String "t"
              (String " " ?x))))))
      with ("const " +:+ x).
    rewrite <- !app_assoc_s. rewrite trimEnd_app by reflexivity.
    f_equal. by destruct Hval as [<-|[<-|[<-|[]]]].
Qed.

(** X7: a fix that declares a variable is written over two lines, and only
    the first is read back: the fix handed to the apply functions replaces
    the flagged line by the declaration alone *)
Theorem declaration_fix_read_back (pre f v value code : string) (n : Z)
  (pat ty : option string)
  (Hpre : Js.includes pre marker = false)
  (Hf : oneLine f = true ∧ Js.includes f marker = false ∧ Js.trim f ≠ "")
  (Hn : (0 ≤ n)%Z)
  (Hcode : plainText (Js.trim code))
  (Harrow : Js.includes (Js.trim code) "→" = false)
  (Hfile : Js.startsWith (Js.trim code) "File: " = false)
  (Hv : oneLine v = true ∧ Js.includes v marker = false)
  (Hval : In value ["[]"; "0"; "''"]) :
  parseAutoApplicableFixes
    (pre +:+
     renderAutoFixes
       [(f, [Review.mkChange n (Js.trim code)
               (("const " +:+ v +:+ " = " +:+ value +:+
                 "; // Auto-fix: Variable declaration") +:+ Js.nl +:+
                Js.trim code)
               f pat ty])])
  = [mkFix (Js.trim f) n (Js.trim code)
       ("const " +:+ v +:+ " = " +:+ value +:+
        "; // Auto-fix: Variable declaration")
       None None].
Proof.
  change ("const " +:+ v +:+ " = " +:+ value +:+
          "; // Auto-fix: Variable declaration")
    with (Synth.declarationLine v value).
  destruct Hf as (Hf1 & Hf2 & Hf3), Hcode as (Hc1 & Hc2 & Hc3), Hv as [Hv1 Hv2].
  destruct (declarationLine_facts v value Hv1 Hv2 Hval) as (Hd1 & Hd2 & Hd3 & Hd4).
  set (tc := Js.trim code) in *.
  set (decl := Synth.declarationLine v value) in *.
  assert (Htc : Js.trim tc = tc) by apply trim_idem.
  assert (Hsp : every Js.is_space tc = false)
    by (by apply trim_nonempty_not_spaces).
  assert (Himp : Js.trim (decl +:+ Js.nl +:+ tc) = decl +:+ Js.nl +:+ tc).
  { unfold Js.trim.
    assert (Hs : Js.trimStart (decl +:+ Js.nl +:+ tc) = decl +:+ Js.nl +:+ tc)
      by done.
    rewrite Hs, trimEnd_app.
    - rewrite trimEnd_app by done. do 2 f_equal. apply trimEnd_idem.
    - rewrite every_app, Hsp. apply andb_false_r. }
  unfold renderAutoFixes. change "AUTO_APPLICABLE_FIXES" with marker.
  rewrite fold_left_append_cons. cbn [fold_left]. rewrite app_empty_r.
  unfold renderFile. cbn [fst snd].
  rewrite fold_left_append_cons. cbn [fold_left]. rewrite app_empty_r.
  unfold renderChange. cbn [Review.line Review.original Review.improved].
  rewrite Htc, Himp, showZ_nonneg by done.
  rewrite parse_section; [|done|].
  - rewrite <- (app_assoc_s "File: " f), lines_cons.
    2:{ rewrite noNewline_app. by rewrite (oneLine_noNewline f). }
    cbn [fold_left]. rewrite parseFixLine_file by done.
    assert (E : "Line " +:+ Js.showNat (Z.to_nat n) +:+ ": " +:+ tc +:+ arrow +:+
                (decl +:+ Js.nl +:+ tc) +:+ Js.nl
              = ("Line " +:+ Js.showNat (Z.to_nat n) +:+ ": " +:+ tc +:+ arrow +:+
                 Js.unlines [decl; tc]) +:+ Js.nl +:+ "").
    { cbn [Js.unlines Js.join]. by rewrite ?app_assoc_s. }
    rewrite E, parse_change; try done.
    + by rewrite Hd4, Htc, Z2Nat.id.
    + by destruct (Js.trim f).
    + cbn [forallb]. by rewrite (oneLine_noNewline tc).
    + cbn [forallb]. unfold inert. rewrite Hfile.
      by rewrite (no_arrow_sign tc).
  - assert (E : "File: " +:+ f +:+ Js.nl +:+
                "Line " +:+ Js.showNat (Z.to_nat n) +:+ ": " +:+ tc +:+ arrow +:+
                (decl +:+ Js.nl +:+ tc) +:+ Js.nl
              = "File:" +:+ " " +:+ f +:+ Js.nl +:+
                "Line" +:+ " " +:+ (Js.showNat (Z.to_nat n) +:+ ":") +:+ " " +:+
                tc +:+ " " +:+ "→" +:+ " " +:+ decl +:+ Js.nl +:+ tc +:+ Js.nl +:+ "").
    { by rewrite ?app_assoc_s. }
    rewrite E. destruct (showNat_digits (Z.to_nat n)) as [Hdig _].
    apply no_marker_sp; [done|]. apply no_marker_nl; [done|].
    apply no_marker_sp; [done|]. apply no_marker_sp; [by apply digits_no_marker|].
    apply no_marker_sp; [done|]. apply no_marker_sp; [done|].
    apply no_marker_nl; [done|]. by apply no_marker_nl.
Qed.

Lemma declaration_fix_read_back_witness :
  parseAutoApplicableFixes
    ("COPILOT_FIXES" +:+
     renderAutoFixes
       [("a.js", [Review.mkChange 2 "myItems.push(1);"
                    ("const myItems = []; // Auto-fix: Variable declaration"
                     +:+ Js.nl +:+ "myItems.push(1);") "a.js" None None])])
  = [mkFix "a.js" 2 "myItems.push(1);"
       "const myItems = []; // Auto-fix: Variable declaration" None None].
Proof.
  apply (declaration_fix_read_back "COPILOT_FIXES" "a.js" "myItems" "[]"
           "myItems.push(1);" 2 None None);
    try reflexivity; try done.
  - cbn. tauto.
Defined.

End SectionFacts.

(** ** The run of the validator *)

Module ValidateFacts.
Import StringFacts Recommit TrimFacts.
Import Proc Feedback Validate Terms.
#[local] Arguments String.append !_ _ / : simpl nomatch.

(** *** Running without a token *)

(** X12: without a GitHub token the run is the local analysis.  It writes no
    file and runs no git command, asks at most the one question of the local
    analysis, and blocks the commit only when the user answers that question
    with a refusal. *)
Theorem local_analysis_is_read_only (patterns : list (string * list pattern))
  (e : env) (w : world) (Htok : hasGithubToken e = false) :
  ∃ o w', validateCommit patterns e w = (o, w')
    ∧ fs w' = fs w ∧ git w' = git w
    ∧ (asked w' = asked w
       ∨ asked w' = asked w ++ ["Continue with commit despite these issues?"])
    ∧ (o = Exit 0%Z ∨ o = Exit 1%Z ∨ o = Hang
       ∨ ∃ err, o = Throw err ∧ optionalMode e = false)
    ∧ (o = Exit 1%Z →
       ∃ a rest, responses w = Answered a :: rest ∧ asBool (Some a) = false)
    ∧ (o = Hang → responses w = [] ∨ ∃ rest, responses w = TimedOut :: rest).
Proof.
  unfold validateCommit, tryCatch.
  destruct (negb (Js.truthy (Js.trim (rawDiff e)))).
  { eexists _, _. split; [reflexivity|]. repeat split; eauto; done. }
  destruct (skipPattern e) as [pat|].
  2:{ unfold throw. destruct (optionalMode e) eqn:Hopt;
        (eexists _, _; split; [reflexivity|]; repeat split; eauto 6; done). }
  destruct (detectSkipDirective _ _ _ _).
  { eexists _, _. split; [reflexivity|]. repeat split; eauto; done. }
  destruct (negb (Js.truthy (Js.trim _))).
  { eexists _, _. split; [reflexivity|]. repeat split; eauto; done. }
  rewrite Htok. unfold localCodeAnalysis.
  destruct (localIssues _ _).
  { eexists _, _. split; [reflexivity|]. repeat split; eauto; done. }
  unfold tryCatch, bind, rawPrompt, bind, ask, exit, ret, throw, hang.
  destruct (responses w) as [|[a| | |msg] rest] eqn:Hr; cbn [questionMessage].
  - eexists _, _. split; [reflexivity|]. cbn. repeat split; eauto 6; done.
  - destruct (asBool (Some a)) eqn:Ha;
      (eexists _, _; split; [reflexivity|]; cbn; repeat split; eauto 6; done).
  - eexists _, _. split; [reflexivity|]. cbn. repeat split; eauto 6; done.
  - eexists _, _. split; [reflexivity|]. cbn. repeat split; eauto 6; done.
  - destruct (Js.includes msg "User force closed");
      [|destruct (optionalMode e) eqn:Hopt];
      (eexists _, _; split; [reflexivity|]; cbn; repeat split; eauto 6; done).
Qed.

Lemma local_analysis_is_read_only_witness :
  ∃ o w', validateCommit Catalogue.patterns
            (Examples.plainEnv Examples.lockDiff ["yarn.lock"])
            (Examples.lockWorld [Answered (ABool false)]) = (o, w')
    ∧ fs w' = fs (Examples.lockWorld [Answered (ABool false)])
    ∧ git w' = git (Examples.lockWorld [Answered (ABool false)]).
Proof.
  destruct (local_analysis_is_read_only Catalogue.patterns
              (Examples.plainEnv Examples.lockDiff ["yarn.lock"])
              (Examples.lockWorld [Answered (ABool false)]) eq_refl)
    as (o & w' & H & Hfs & Hgit & _).
  exists o, w'. split; [exact H|]. split; [exact Hfs|exact Hgit].
Defined.

(** *** Errors *)

(** X14: an error leaves [validateCommit] only outside the optional mode, and
    it is never the error of a closed prompt.  When the text given as
    [AI_SKIP_DIRECTIVE_REGEX] is not a regular expression and something is
    staged, nothing is analysed: the optional mode exits with 0, otherwise
    the error is thrown; files, git and prompts are untouched. *)
Theorem validateCommit_errors (patterns : list (string * list pattern))
  (e : env) (w : world) :
  (∀ err w', validateCommit patterns e w = (Throw err, w') →
             optionalMode e = false ∧ err ≠ ExitPromptError)
  ∧ (customSkipPattern e = Some None →
     Js.trim (rawDiff e) ≠ "" →
     validateCommit patterns e w
     = (if optionalMode e then Exit 0%Z
        else Throw (OtherError "Invalid regular expression"), w)).
Proof.
  split.
  - intros err w'. unfold validateCommit, tryCatch.
    match goal with |- context [match ?b w with _ => _ end] =>
      destruct (b w) as [[a|c|err0|] w0] end; try done.
    destruct err0 as [|msg]; [done|]. unfold exit, throw.
    destruct (optionalMode e); [done|]. by intros [= <- <-].
  - intros Hpat Hdiff. unfold validateCommit, tryCatch, skipPattern.
    rewrite Hpat. destruct (Js.trim (rawDiff e)); [done|].
    cbn. by destruct (optionalMode e).
Qed.

(** *** What the reader of the section hands on *)

Lemma parseFixLine_wellformed (P : autoFix → Prop) acc l :
  (∀ name n o i, name ≠ "" →
                 P (mkFix name (Z.of_nat n) (Js.trim o) (Js.trim i) None None)) →
  Forall P (snd acc) → Forall P (snd (parseFixLine acc l)).
Proof.
  intros HP Hacc. destruct acc as [cur fixes]. unfold parseFixLine.
  destruct (Js.startsWith l "File: "); [done|].
  destruct (Js.includes l arrow); [|done].
  destruct (Re.exec fixLineRe l) as [m|]; [|done].
  destruct (Re.get_cap 1 _) as [n|]; [|done].
  destruct (Re.get_cap 2 _) as [o|]; [|done].
  destruct (Re.get_cap 3 _) as [i|]; [|done].
  cbn [snd] in *. apply Forall_app. split; [done|].
  constructor; [|done]. apply HP. by destruct cur.
Qed.

Lemma parse_wellformed (P : autoFix → Prop) aiFeedback :
  (∀ name n o i, name ≠ "" →
                 P (mkFix name (Z.of_nat n) (Js.trim o) (Js.trim i) None None)) →
  Forall P (parseAutoApplicableFixes aiFeedback).
Proof.
  intros HP. unfold parseAutoApplicableFixes.
  destruct (negb _); [done|]. destruct (Js.splitSecond _ _) as [sec|]; [|done].
  destruct (negb _); [done|].
  assert (H : ∀ ls acc, Forall P (snd acc) →
                        Forall P (snd (fold_left parseFixLine ls acc))).
  { induction ls as [|l ls IH]; intros acc Hacc; [done|]. cbn [fold_left].
    apply IH. by apply parseFixLine_wellformed. }
  by apply H.
Qed.

(** X8: whatever the feedback text, every fix that [parseAutoApplicableFixes]
    reads from it names a file, has a line number that is not negative,
    trimmed texts, and neither a whole-file text nor a type.  So the file
    name that [validateCommit] would fall back on is never used for such a
    fix, and the list is never taken for the placeholder. *)
Theorem parsed_fixes_wellformed (aiFeedback : string) (staged : list string) :
  Forall (fun f => filename f ≠ "" ∧ (0 ≤ line f)%Z
                   ∧ Js.trim (original f) = original f
                   ∧ Js.trim (improved f) = improved f
                   ∧ code f = None ∧ type f = None)
    (parseAutoApplicableFixes aiFeedback)
  ∧ map (withFilename staged) (parseAutoApplicableFixes aiFeedback)
    = parseAutoApplicableFixes aiFeedback
  ∧ Patch.isFallback (parseAutoApplicableFixes aiFeedback) = false.
Proof.
  split; [|split].
  - apply parse_wellformed. intros name n o i Hname.
    cbn [filename line original improved code type].
    rewrite !trim_idem. repeat split; (done || lia).
  - assert (H : Forall (fun f => withFilename staged f = f)
                  (parseAutoApplicableFixes aiFeedback)).
    { apply parse_wellformed. intros name n o i Hname.
      unfold withFilename. cbn. by destruct name. }
    induction H as [|f l Hf Hl IH]; [done|]. cbn [map]. by rewrite Hf, IH.
  - assert (H : Forall (fun f => type f = None)
                  (parseAutoApplicableFixes aiFeedback)).
    { by apply parse_wellformed. }
    destruct H as [|f l Hf _]; [done|]. cbn. by rewrite Hf.
Qed.

(** *** The local analysis behind the filter *)




(** *** A prompt *)

(** X9: [safePrompt] neither ends the process nor waits for ever, and it
    touches neither the files nor git.  It returns a cancellation without
    answers or an answer, or throws the error of a prompt that failed for
    another reason than a cancellation.  It shows at most its own question,
    and none at all when an answer is simulated or when the terminal is not
    interactive and prompts are not forced. *)
Theorem safePrompt_contract (e : env) (q : question) (w : world) :
  ∃ o w', safePrompt e q w = (o, w')
    ∧ fs w' = fs w ∧ git w' = git w
    ∧ (asked w' = asked w ∨ asked w' = asked w ++ [questionMessage q])
    ∧ ((o = Ret (true, None) ∨ ∃ a, o = Ret (false, Some a))
       ∨ ∃ msg rest, o = Throw (OtherError msg)
                     ∧ responses w = Crashed msg :: rest
                     ∧ Re.test cancelRe msg = false)
    ∧ ((∃ v, AI_AUTO_SELECT e = Some v ∧ v ≠ "")
       ∨ (negb (stdinIsTTY e) || negb (stdoutIsTTY e) = true
          ∧ forcePrompt e = false) →
       asked w' = asked w ∧ responses w' = responses w).
Proof.
  unfold safePrompt.
  assert (Hask :
    ∃ o w', (r <- ask q ;;
             match r with
             | Answered a => ret (false, Some a)
             | TimedOut => ret (true, None)
             | ForceClosed => ret (true, None)
             | Crashed msg =>
                 if Re.test cancelRe msg then ret (true, None)
                 else throw (OtherError msg)
             end) w = (o, w')
      ∧ fs w' = fs w ∧ git w' = git w
      ∧ (asked w' = asked w ∨ asked w' = asked w ++ [questionMessage q])
      ∧ ((o = Ret (true, None) ∨ ∃ a, o = Ret (false, Some a))
         ∨ ∃ msg rest, o = Throw (OtherError msg)
                       ∧ responses w = Crashed msg :: rest
                       ∧ Re.test cancelRe msg = false)).
  { unfold bind, ask, ret, throw.
    destruct (responses w) as [|[a| | |msg] rest] eqn:Hr;
      try (eexists _, _; split; [reflexivity|]; cbn; eauto 10; fail).
    destruct (Re.test cancelRe msg) eqn:Ht;
      (eexists _, _; split; [reflexivity|]; cbn; eauto 12). }
  destruct (AI_AUTO_SELECT e) as [[|c v]|] eqn:Hauto.
  - destruct (_ && _) eqn:Hni.
    + eexists _, _. split; [reflexivity|]. eauto 10.
    + destruct Hask as (o & w' & -> & Hfs & Hg & Ha & Ho).
      exists o, w'. split; [done|]. repeat (split; [done|]).
      intros [(v & [= <-] & Hv)|[Hn Hf]]; [done|].
      by rewrite Hn, Hf in Hni.
  - eexists _, _. split; [reflexivity|]. eauto 10.
  - destruct (_ && _) eqn:Hni.
    + eexists _, _. split; [reflexivity|]. eauto 10.
    + destruct Hask as (o & w' & -> & Hfs & Hg & Ha & Ho).
      exists o, w'. split; [done|]. repeat (split; [done|]).
      intros [(v & [=] & Hv)|[Hn Hf]].
      by rewrite Hn, Hf in Hni.
Qed.

End ValidateFacts.

(** ** Simulated answers *)

Module PromptFacts.
Import NumFacts Recommit.
Import Proc.

(** X10: under [AI_AUTO_SELECT] a list prompt is answered without being shown, by
    one of its choices: the one numbered by the value when it is a number
    within range, the first or the last when it is out of range, the first
    when it is not a number *)
Theorem safePrompt_auto_select (e : env) (v m c : string) (cs : list string)
  (w : world)
  (Hv : AI_AUTO_SELECT e = Some v) (Hne : v ≠ "") :
  ∃ a, safePrompt e (QList m (c :: cs)) w = (Ret (false, Some (AStr a)), w)
       ∧ In a (c :: cs)
       ∧ (∀ n, v = Js.showNat n → 1 ≤ n ≤ length (c :: cs) →
               (c :: cs) !! (n - 1) = Some a)
       ∧ (∀ n, v = Js.showNat n → length (c :: cs) < n →
               last (c :: cs) = Some a)
       ∧ (Js.parseInt v = None ∨ v = Js.showNat 0 → a = c).
Proof.
  unfold safePrompt. rewrite Hv. destruct v as [|v0 v]; [done|].
  remember (String v0 v) as val eqn:Hval. clear Hval Hne Hv.
  unfold autoAnswer.
  assert (Hnth : ∀ i, i < length (c :: cs) →
                      (c :: cs) !! i = Some (nth i (c :: cs) c)).
  { intros i Hi. destruct (lookup_lt_is_Some_2 (c :: cs) i Hi) as [x Hx].
    by rewrite (nth_lookup_Some _ _ c _ Hx). }
  eexists. split; [reflexivity|]. split; [|split; [|split]].
  - apply nth_In. rewrite length_cons.
    match goal with |- context [Z.min _ (?k - 1)] => generalize k end.
    intros k. lia.
  - intros n -> Hr. rewrite parseInt_showNat.
    destruct (Z.eqb_spec (Z.of_nat n) 0); [lia|].
    match goal with |- _ = Some (nth ?i _ _) =>
      replace i with (n - 1) by (rewrite length_cons in *; lia) end.
    apply Hnth. lia.
  - intros n -> Hr. rewrite parseInt_showNat.
    destruct (Z.eqb_spec (Z.of_nat n) 0); [lia|].
    match goal with |- _ = Some (nth ?i _ _) =>
      replace i with (length cs) by (rewrite length_cons in *; lia) end.
    rewrite last_lookup. cbn [length pred]. apply Hnth. cbn. lia.
  - intros H.
    match goal with |- nth ?i _ _ = _ => replace i with 0; [done|] end.
    destruct H as [->| ->];
      [|rewrite parseInt_showNat; change (Z.of_nat 0 =? 0)%Z with true];
      cbv iota; rewrite length_cons; lia.
Qed.

Lemma safePrompt_auto_select_witness :
  safePrompt Examples.autoSelectEnv Validate.decisionQuestion Examples.unanswered
  = (Ret (false, Some (AStr Validate.choiceSkip)), Examples.unanswered).
Proof.
  destruct (safePrompt_auto_select Examples.autoSelectEnv "4"
              "🎯 How would you like to proceed?" Validate.choiceAutoApply
              [Validate.choiceKeepLocal; Validate.choiceReview;
               Validate.choiceSkip; Validate.choiceCancel] Examples.unanswered)
    as (a & Hrun & _ & Hn & _).
  - reflexivity.
  - discriminate.
  - specialize (Hn 4 eq_refl ltac:(cbn; lia)). cbn in Hn.
    injection Hn as <-. exact Hrun.
Defined.

End PromptFacts.

(** ** A clean review *)

Module CleanFacts.
Import StringFacts.
Import Proc Feedback Validate Terms.
#[local] Arguments String.append !_ _ / : simpl nomatch.

(** X11: when the analysis raises no issue the commit is allowed at once:
    exit 0, no question asked, no file written, no git command run *)
Theorem clean_review_allows_commit (patterns : list (string * list pattern))
  (e : env) (w : world)
  (Hre : skipPattern e ≠ None)
  (Htok : hasGithubToken e = true)
  (Hclean : Review.issues
              (Review.analyse patterns (reader e w)
                 (filterMeaningfulChanges (rawDiff e))) = []) :
  validateCommit patterns e w = (Exit 0%Z, w).
Proof.
  unfold validateCommit, tryCatch.
  destruct (negb (Js.truthy (Js.trim (rawDiff e)))); [done|].
  destruct (skipPattern e) as [pat|]; [|done].
  destruct (detectSkipDirective _ _ _ _); [done|].
  destruct (negb (Js.truthy (Js.trim _))); [done|].
  rewrite Htok. unfold getCopilotReview, render. rewrite Hclean.
  unfold bind, openErrorLocations.
  destruct (String.eqb _ "true"); [|done].
  by vm_compute.
Qed.

Lemma clean_review_allows_commit_witness :
  validateCommit Catalogue.patterns Examples.cleanEnv Examples.cleanWorld
  = (Exit 0%Z, Examples.cleanWorld).
Proof.
  apply clean_review_allows_commit.
  - discriminate.
  - reflexivity.
  - vm_compute. reflexivity.
Defined.

End CleanFacts.

(** ** Grouping and saving the fixes *)

Module ApplyFacts.
Import StringFacts PatchFacts.
Import Proc Feedback Patch Validate Terms.
#[local] Arguments String.append !_ _ / : simpl nomatch.

(** *** Grouping the fixes by file *)


Lemma pushFix_keys f groups :
  map fst (pushFix f groups)
  = if existsb (String.eqb (filename f)) (map fst groups)
    then map fst groups else map fst groups ++ [filename f].
Proof.
  induction groups as [|[g fs] groups IH]; [done|]. cbn.
  rewrite (String.eqb_sym (filename f) g).
  destruct (String.eqb g (filename f)) eqn:E; cbn; [done|].
  rewrite IH. by destruct (existsb _ _).
Qed.

Lemma pushFix_NoDup f groups :
  NoDup (map fst groups) → NoDup (map fst (pushFix f groups)).
Proof.
  intros H. rewrite pushFix_keys.
  destruct (existsb _ _) eqn:E; [done|].
  apply NoDup_app. split; [done|]. split; [|apply NoDup_singleton].
  intros x Hx [<-|[]]%list_elem_of_In.
  assert (existsb (String.eqb (filename f)) (map fst groups) = true); [|congruence].
  apply existsb_exists. exists (filename f). split; [by apply list_elem_of_In|].
  apply String.eqb_refl.
Qed.

Lemma groupOf_pushFix f groups g :
  groupOf g (pushFix f groups)
  = if String.eqb (filename f) g
    then Some (default [] (groupOf g groups) ++ [f])
    else groupOf g groups.
Proof.
  induction groups as [|[h hs] groups IH]; cbn.
  - rewrite (String.eqb_sym (filename f) g). by destruct (String.eqb g (filename f)).
  - destruct (String.eqb_spec h (filename f)) as [->|Hne]; cbn.
    + by destruct (String.eqb (filename f) g).
    + destruct (String.eqb_spec h g) as [->|Hhg].
      * destruct (String.eqb_spec (filename f) g); [congruence|done].
      * apply IH.
Qed.

Lemma groupOf_In g fs groups :
  NoDup (map fst groups) → (In (g, fs) groups ↔ groupOf g groups = Some fs).
Proof.
  induction groups as [|[h hs] groups IH]; cbn; [intros _; split; [done|done]|].
  intros [Hh Hnd]%NoDup_cons. specialize (IH Hnd).
  destruct (String.eqb_spec h g) as [->|Hne].
  - split.
    + intros [[= ->]|Hin]; [done|]. exfalso. apply Hh.
      apply list_elem_of_In. by apply (in_map fst) in Hin.
    + intros [= ->]. by left.
  - split.
    + intros [[= -> _]|Hin]; [done|]. by apply IH.
    + intros H. right. by apply IH.
Qed.


Lemma grouped_step seen groups f :
  grouped seen groups → grouped (seen ++ [f]) (pushFix f groups).
Proof.
  intros [Hnd Hg]. split; [by apply pushFix_NoDup|].
  intros g. rewrite groupOf_pushFix, List.filter_app, Hg. cbn [List.filter].
  change (String.eqb (filename f) g) with (ofFile g f).
  destruct (ofFile g f); destruct (List.filter (ofFile g) seen);
    cbn; rewrite ?app_nil_r; done.
Qed.

Lemma grouped_fold rest : ∀ seen groups,
  grouped seen groups →
  grouped (seen ++ rest) (fold_left (fun groups f => pushFix f groups) rest groups).
Proof.
  induction rest as [|f rest IH]; intros seen groups H; cbn.
  - by rewrite app_nil_r.
  - replace (seen ++ f :: rest) with ((seen ++ [f]) ++ rest)
      by (by rewrite <- app_assoc).
    apply IH. by apply grouped_step.
Qed.

(** X15: the grouping of the fixes by file, which every apply function
    starts with, loses nothing and mixes nothing: each file name met has one
    group, which holds the fixes of that file in the order received; no
    group is empty *)
Theorem groupByFile_partition (fixes : list autoFix) :
  NoDup (map fst (groupByFile fixes))
  ∧ (∀ g fs, In (g, fs) (groupByFile fixes) ↔
             fs = List.filter (ofFile g) fixes ∧ fs ≠ [])
  ∧ (∀ f, In f fixes → In (filename f) (map fst (groupByFile fixes))).
Proof.
  destruct (grouped_fold fixes [] []) as [Hnd Hg].
  { split; [constructor|done]. }
  cbn in Hg. fold (groupByFile fixes) in *.
  assert (Hin : ∀ g fs, In (g, fs) (groupByFile fixes) ↔
                        fs = List.filter (ofFile g) fixes ∧ fs ≠ []).
  { intros g fs. rewrite (groupOf_In _ _ _ Hnd), Hg.
    destruct (List.filter (ofFile g) fixes) eqn:E.
    - split; [done|]. by intros [-> ?].
    - split; [by intros [= <-]|]. by intros [-> _]. }
  split; [done|]. split; [done|].
  intros f Hf.
  assert (In (filename f, List.filter (ofFile (filename f)) fixes) (groupByFile fixes)).
  { apply Hin. split; [done|]. intros Hnil.
    assert (In f (List.filter (ofFile (filename f)) fixes)).
    { apply filter_In. split; [done|]. apply String.eqb_refl. }
    by rewrite Hnil in *. }
  by apply (in_map fst) in H.
Qed.

(** *** Saving the fixes without a commit *)

Lemma applyNoCommitFile_cases e staged name fixes w :
  applyNoCommitFile e staged tt (name, fixes) w = (Ret tt, w)
  ∨ (∃ content,
       isStagedFile staged name = true
       ∧ fs w !! resolve e name = Some content
       ∧ applyNoCommitFile e staged tt (name, fixes) w
         = (Ret tt,
            addGit [GitAdd name]
              (setFs (<[resolve e name := patched content fixes]> (fs w)) w))).
Proof.
  destruct (isStagedFile staged name) eqn:Hst.
  - destruct (fs w !! resolve e name) as [content|] eqn:Hf.
    + right. exists content. split; [done|]. split; [done|].
      by apply applyNoCommitFile_applied.
    + left. unfold applyNoCommitFile. rewrite Hst. cbn [negb].
      unfold tryCatch, bind, readFile. by rewrite Hf.
  - left. unfold applyNoCommitFile. by rewrite Hst.
Qed.

Lemma savedOnly_loop e staged groups : ∀ w,
  ∃ w', forEach groups (applyNoCommitFile e staged) tt w = (Ret tt, w')
        ∧ savedOnly e staged (map fst groups) w w'.
Proof.
  induction groups as [|[name fixes] groups IH]; intros w.
  - exists w. split; [done|]. repeat split; try done.
    exists []. split; [by rewrite app_nil_r|done].
  - cbn [forEach]. unfold bind at 1.
    destruct (applyNoCommitFile_cases e staged name fixes w)
      as [->|(content & Hst & Hf & ->)].
    + destruct (IH w) as (w' & -> & Hr & Ha & (added & Hg & Hadd) & Hdom & Hfr).
      exists w'. split; [done|]. split; [done|]. split; [done|].
      split; [|split; [done|]].
      * exists added. split; [done|]. intros n Hn. destruct (Hadd n Hn).
        split; [done|]. by right.
      * intros p Hp. apply Hfr. intros n Hn. apply Hp. by right.
    + set (w1 := addGit _ _).
      destruct (IH w1) as (w' & -> & Hr & Ha & (added & Hg & Hadd) & Hdom & Hfr).
      exists w'. split; [done|]. split; [done|]. split; [done|].
      split; [|split].
      * exists (name :: added). split.
        -- rewrite Hg. subst w1. cbn. by rewrite <- app_assoc.
        -- intros n [<-|Hn]; [split; [done|by left]|].
           destruct (Hadd n Hn). split; [done|]. by right.
      * intros p. rewrite Hdom. subst w1. cbn [fs addGit setFs].
        destruct (decide (p = resolve e name)) as [->|Hne].
        -- rewrite lookup_insert_eq, Hf. split; eauto.
        -- by rewrite lookup_insert_ne.
      * intros p Hp. rewrite Hfr by (intros n Hn; apply Hp; by right).
        subst w1. cbn [fs addGit setFs]. rewrite lookup_insert_ne; [done|].
        apply Hp; [by left|done].
Qed.

(** X16: [applyAutoFixesNoCommit] always returns.  A staged file that the
    fixes name and that can be read is overwritten with its patched content
    and staged again; the run asks nothing, commits nothing, creates and
    removes no file, stages only staged files that the fixes name, and leaves
    every other path as it was *)
Theorem applyAutoFixesNoCommit_saves_only (e : env) (autoFixes : list autoFix)
  (staged : list string) (w : world) :
  (∀ name fixes content,
     isStagedFile staged name = true →
     fs w !! resolve e name = Some content →
     applyNoCommitFile e staged tt (name, fixes) w
     = (Ret tt,
        addGit [GitAdd name]
          (setFs (<[resolve e name := patched content fixes]> (fs w)) w)))
  ∧ ∃ w', applyAutoFixesNoCommit e autoFixes staged w = (Ret tt, w')
      ∧ responses w' = responses w ∧ asked w' = asked w
      ∧ (∃ added, git w' = git w ++ map GitAdd added
                  ∧ ∀ n, In n added →
                         isStagedFile staged n = true
                         ∧ In n (namesOf autoFixes))
      ∧ (∀ p, is_Some (fs w' !! p) ↔ is_Some (fs w !! p))
      ∧ (∀ p, (∀ n, In n (namesOf autoFixes) →
                    isStagedFile staged n = true → resolve e n ≠ p) →
              fs w' !! p = fs w !! p).
Proof.
  split.
  - intros name fixes content Hst Hf. by apply applyNoCommitFile_applied.
  - apply savedOnly_loop.
Qed.

End ApplyFacts.

(** ** Keeping the local changes *)

Module NewFileFacts.
Import StringFacts PatchFacts.
Import Proc Feedback Patch Validate.
#[local] Arguments String.append !_ _ / : simpl nomatch.

Lemma no_backslash_cons c t :
  Js.includes (String c t) backslash = false →
  Ascii.eqb "092" c = false ∧ Js.includes t backslash = false.
Proof.
  cbn [Js.includes]. unfold backslash at 1. rewrite prefix_cons, prefix_nil.
  intros [H1 H2]%orb_false_iff. split; [|done].
  by destruct (Ascii.eqb "092" c).
Qed.

Lemma extensionRe_no_match (p : string) : ∀ prev idx,
  Js.includes p backslash = false →
  Re.search_from extensionRe prev p idx = None.
Proof.
  induction p as [|c t IH]; intros prev idx H.
  - done.
  - apply no_backslash_cons in H as [Hc Ht].
    cbn [Re.search_from]. 
    assert (Hm : Re.rmatch extensionRe prev (String c t) []
                   (fun _ s' c' => Some (s', c')) = None).
    { unfold extensionRe, backslash. cbn -[Ascii.eqb]. by rewrite Hc. }
    rewrite Hm. by apply IH.
Qed.

(** A path without a backslash has no extension that the expression of
    [applyToNewFiles] recognises: the path of the improved version is the
    path itself *)
Lemma improvedPathOf_same (p : string) :
  Js.includes p backslash = false → improvedPathOf p = p.
Proof.
  intros H. unfold improvedPathOf, Re.exec.
  by rewrite extensionRe_no_match.
Qed.

Lemma applyToNewFile_cases e staged name fixes w :
  applyToNewFile e staged tt (name, fixes) w = (Ret tt, w)
  ∨ (∃ content,
       isStagedFile staged name = true
       ∧ fs w !! resolve e name = Some content
       ∧ applyToNewFile e staged tt (name, fixes) w
         = (Ret tt,
            setFs (<[improvedPathOf (resolve e name) := patched content fixes]>
                     (fs w)) w)).
Proof.
  unfold applyToNewFile.
  destruct (isStagedFile staged name) eqn:Hst; [|by left].
  unfold tryCatch, bind, readFile.
  destruct (fs w !! resolve e name) as [content|] eqn:Hf; [|by left].
  right. exists content. done.
Qed.

Lemma applyToNewFiles_loop e staged groups : ∀ w,
  (∀ n, In n (map fst groups) → Js.includes (resolve e n) backslash = false) →
  ∃ w', forEach groups (applyToNewFile e staged) tt w = (Ret tt, w')
        ∧ responses w' = responses w ∧ asked w' = asked w ∧ git w' = git w
        ∧ (∀ p, is_Some (fs w' !! p) ↔ is_Some (fs w !! p))
        ∧ (∀ p, (∀ n, In n (map fst groups) → isStagedFile staged n = true →
                      resolve e n ≠ p) →
                fs w' !! p = fs w !! p).
Proof.
  induction groups as [|[name fixes] groups IH]; intros w Hp.
  - exists w. done.
  - cbn [forEach]. unfold bind at 1.
    destruct (applyToNewFile_cases e staged name fixes w)
      as [->|(content & Hst & Hf & ->)].
    + destruct (IH w) as (w' & -> & Hr & Ha & Hg & Hdom & Hfr).
      { intros n Hn. apply Hp. by right. }
      exists w'. repeat (split; [done|]).
      intros p Hq. apply Hfr. intros n Hn. apply Hq. by right.
    + rewrite improvedPathOf_same by (apply Hp; by left).
      set (w1 := setFs _ _).
      destruct (IH w1) as (w' & -> & Hr & Ha & Hg & Hdom & Hfr).
      { intros n Hn. apply Hp. by right. }
      exists w'. repeat (split; [done|]). split.
      * intros p. rewrite Hdom. subst w1. cbn [fs setFs].
        destruct (decide (p = resolve e name)) as [->|Hne].
        -- rewrite lookup_insert_eq, Hf. split; eauto.
        -- by rewrite lookup_insert_ne.
      * intros p Hq. rewrite Hfr by (intros n Hn; apply Hq; by right).
        subst w1. cbn [fs setFs]. rewrite lookup_insert_ne; [done|].
        apply Hq; [by left|done].
Qed.

(** X17: keeping the local changes does not make new files.  The pattern
    that should put [.copilot] before the extension looks for backslashes,
    so for a path without one the improved path is the path itself: every
    staged file that the fixes name and that can be read is overwritten in
    place with its patched content.  The run returns, asks nothing, runs no
    git command, creates no file and leaves every other path as it was. *)
Theorem applyToNewFiles_writes_in_place (e : env) (autoFixes : list autoFix)
  (staged : list string) (w : world)
  (Hpaths : ∀ n, In n (namesOf autoFixes) →
                 Js.includes (resolve e n) backslash = false) :
  (∀ name fixes content,
     In (name, fixes) (groupByFile autoFixes) →
     isStagedFile staged name = true →
     fs w !! resolve e name = Some content →
     applyToNewFile e staged tt (name, fixes) w
     = (Ret tt, setFs (<[resolve e name := patched content fixes]> (fs w)) w))
  ∧ ∃ w', applyToNewFiles e autoFixes staged w = (Ret tt, w')
          ∧ responses w' = responses w ∧ asked w' = asked w ∧ git w' = git w
          ∧ (∀ p, is_Some (fs w' !! p) ↔ is_Some (fs w !! p))
          ∧ (∀ p, (∀ n, In n (namesOf autoFixes) → isStagedFile staged n = true →
                        resolve e n ≠ p) →
                  fs w' !! p = fs w !! p).
Proof.
  split.
  - intros name fixes content Hin Hst Hf.
    destruct (applyToNewFile_cases e staged name fixes w)
      as [Hsame|(c & _ & Hc & ->)].
    + unfold applyToNewFile, tryCatch, bind, readFile in Hsame.
      rewrite Hst, Hf in Hsame. injection Hsame as Hsame.
      unfold applyToNewFile, tryCatch, bind, readFile. rewrite Hst, Hf.
      rewrite improvedPathOf_same; [done|].
      apply Hpaths. unfold namesOf. by apply (in_map fst) in Hin.
    + rewrite Hf in Hc. injection Hc as <-.
      rewrite improvedPathOf_same; [done|].
      apply Hpaths. unfold namesOf. by apply (in_map fst) in Hin.
  - by apply applyToNewFiles_loop.
Qed.

Lemma applyToNewFiles_writes_in_place_witness :
  applyToNewFiles (Examples.plainEnv "" ["a.js"]) [Examples.evalFix] ["a.js"]
    Examples.unanswered
  = (Ret tt, Proc.mkWorld {["a.js" := "run(x)"]} [] [] []).
Proof.
  destruct (applyToNewFiles_writes_in_place (Examples.plainEnv "" ["a.js"])
              [Examples.evalFix] ["a.js"] Examples.unanswered) as [_ (w' & H & _)].
  - intros n [<-|[]]. reflexivity.
  - vm_compute. reflexivity.
Defined.

End NewFileFacts.

(** ** The ticket of the commit message *)

Module TicketFacts.
Import StringFacts RegexFacts NumFacts RegexEval DiffLines.
Import Re Terms Feedback Patch.
#[local] Arguments String.append !_ _ / : simpl nomatch.

Lemma search_from_miss r c t prev idx :
  rmatch r prev (String c t) [] (fun _ s' c => Some (s', c)) = None →
  search_from r prev (String c t) idx = search_from r (Some c) t (S idx).
Proof. intros H. cbn [search_from]. by rewrite H. Qed.

Lemma ticketRe_skips (pre : string) : ∀ rest prev idx,
  every (fun c => negb (in_range "A" "Z" c)) pre = true →
  search_from ticketRe prev (pre +:+ rest) idx
  = search_from ticketRe (lastChar prev pre) rest (idx + String.length pre).
Proof.
  induction pre as [|c pre IH]; intros rest prev idx Hpre.
  - cbn. by rewrite Nat.add_0_r.
  - cbn [every] in Hpre. apply andb_true_iff in Hpre as [Hc Hpre].
    apply negb_true_iff in Hc. rewrite app_cons, search_from_miss.
    + rewrite IH by done. cbn [lastChar String.length]. f_equal. lia.
    + unfold ticketRe. cbn [seqs]. unfold plus at 1.
      by rewrite rmatch_grp, !rmatch_seq, rmatch_chr, Hc.
Qed.

(** X18: the ticket of the commit message is the first token of capital
    letters, a dash and digits of the branch name, when no capital letter
    comes before it; a branch name without capital letters gives the
    default ticket *)
Theorem ticketId_of_branch (pre L D post : string)
  (Hpre : every (fun c => negb (in_range "A" "Z" c)) pre = true)
  (HL : L ≠ "" ∧ every (in_range "A" "Z") L = true)
  (HD : D ≠ "" ∧ every Js.is_digit D = true)
  (Hpost : stopsAt Js.is_digit post = true) :
  ticketId (pre +:+ L +:+ "-" +:+ D +:+ post) = L +:+ "-" +:+ D
  ∧ ticketId pre = "SHOP-0000".
Proof.
  destruct HL as [HL1 HL2], HD as [HD1 HD2]. split.
  - unfold ticketId, Re.group, exec. rewrite ticketRe_skips by done.
    erewrite search_from_hit.
    2:{ unfold ticketRe. cbn [seqs]. rewrite rmatch_grp, rmatch_seq.
        change ("-" +:+ ?x) with (String "-" x).
        apply plus_chr; [done..|].
        rewrite rmatch_seq. unfold chr at 1. rewrite rmatch_chr, Ascii.eqb_refl.
        apply plus_chr; [done..|]. reflexivity. }
    cbn [m_caps]. rewrite get_cap_set_same.
    change (String "-" (D +:+ post)) with ("-" +:+ D +:+ post).
    rewrite <- (app_assoc_s "-" D post), <- (app_assoc_s L).
    by rewrite take_matched.
  - unfold ticketId, Re.group, exec.
    rewrite <- (app_empty_r pre) at 1. by rewrite ticketRe_skips.
Qed.

Lemma ticketId_of_branch_witness :
  ticketId "feature/ABC-123-login" = "ABC-123".
Proof.
  destruct (ticketId_of_branch "feature/" "ABC" "123" "-login") as [H _];
    [done..|]. exact H.
Defined.

End TicketFacts.

(** ** The guided recommit *)

Module RecommitFacts.
Import Recommit.
Import Proc Cli Terms.

(** A prompt returns an answer or throws: it never ends the process and
    never waits for ever *)
Lemma safePrompt_outcome e q w o w' :
  safePrompt e q w = (o, w') → (∃ r, o = Ret r) ∨ (∃ err, o = Throw err).
Proof.
  unfold safePrompt, bind, ask, ret, throw.
  destruct (AI_AUTO_SELECT e) as [[|c s]|];
    [destruct (_ && _)| |destruct (_ && _)];
    try (intros [= <- <-]; eauto; fail);
    (destruct (responses w) as [|[a| | |msg] rest];
     try (intros [= <- <-]; eauto; fail);
     destruct (Re.test _ _); intros [= <- <-]; eauto).
Qed.


Lemma gitCommit_cases e m fl w :
  (commitError e = None
   ∧ gitCommit e m fl w = (Ret tt, addGit [GitCommit m fl] w))
  ∨ (∃ err, commitError e = Some err ∧ gitCommit e m fl w = (Throw (OtherError err), w)).
Proof.
  unfold gitCommit. destruct (commitError e) as [err|]; [right; eauto|left; done].
Qed.

Ltac prompt :=
  match goal with
  | |- context [safePrompt ?e ?q ?w] =>
      let o := fresh "o" in
      let w1 := fresh "w" in
      let H := fresh "Hp" in
      let Hf := fresh "Hfs" in
      let Hg := fresh "Hgit" in
      destruct (safePrompt e q w) as [o w1] eqn:H;
      pose proof (safePrompt_frame _ _ _ _ _ H) as [Hf Hg];
      destruct (safePrompt_outcome _ _ _ _ _ H) as [[? ->]|[? ->]]
  end.

Ltac commit :=
  match goal with
  | |- context [gitCommit ?e ?m ?fl ?w] =>
      let Hc := fresh "Hc" in
      destruct (gitCommit_cases e m fl w) as [[Hc ->]|(? & Hc & ->)]
  end.

Ltac gitgoal :=
  cbn [git fs addGit];
  repeat match goal with H : git _ = _ |- _ => rewrite H end;
  cbn [git fs addGit].

Ltac fin :=
  cbn [fs git addGit] in *;
  eexists _, _; split; [reflexivity|];
  split; [by auto|];
  split; [cbn [fs addGit]; congruence|];
  split;
    [first [ exists []; rewrite app_nil_r; gitgoal; done
           | eexists; split;
               [gitgoal; rewrite <- ?app_assoc; reflexivity
               |repeat constructor; unfold allowedCmd; eauto] ]|];
  split; [intros; first [done|congruence]|];
  intros;
  first [ discriminate
        | eexists _, []; cbn; gitgoal; reflexivity
        | eexists _, [_]; cbn; gitgoal; rewrite <- ?app_assoc; reflexivity ].

Ltac handler :=
  match goal with
  | |- context [if (match ?err with ExitPromptError => _ | _ => _ end) then _ else _] =>
      destruct err as [|?msg]; [|destruct (Re.test cancelRe msg)]
  | |- context [Re.test cancelRe ?msg] => destruct (Re.test cancelRe msg)
  end.

(** X19: the guided recommit always ends the process, with exit code 0 or
    1, and never touches a file.  Its only git commands are the staging of
    all changes and commits made with [--no-verify].  With something to
    commit, exit 0 means that the last command was such a commit, and a
    commit that fails gives exit 1. *)
Theorem guidedRecommit_outcome (e : env) (hasStaged hasUnstaged : bool) (w : world) :
  ∃ c w',
    guidedRecommit e hasStaged hasUnstaged w = (Exit c, w')
    ∧ (c = 0%Z ∨ c = 1%Z)
    ∧ fs w' = fs w
    ∧ (∃ cmds, git w' = git w ++ cmds ∧ Forall allowedCmd cmds)
    ∧ (commitError e ≠ None → hasStaged || hasUnstaged = true → c = 1%Z)
    ∧ (c = 0%Z → hasStaged || hasUnstaged = true →
       ∃ m cmds, git w' = git w ++ cmds ++ [GitCommit m ["--no-verify"]]).
Proof.
  unfold guidedRecommit, tryCatch, bind.
  destruct hasStaged, hasUnstaged; cbn [negb andb orb];
    unfold ret, exit; cbv beta iota.
  - prompt; cbv beta iota.
    + commit; cbv beta iota; [fin|].
      handler; cbv beta iota; try commit; cbv beta iota; try congruence; fin.
    + handler; cbv beta iota; try commit; cbv beta iota; fin.
  - prompt; cbv beta iota.
    + commit; cbv beta iota; [fin|].
      handler; cbv beta iota; try commit; cbv beta iota; try congruence; fin.
    + handler; cbv beta iota; try commit; cbv beta iota; fin.
  - prompt; cbv beta iota zeta.
    + destruct (if fst x then true else asBool (snd x)).
      * unfold gitAdd. cbv beta iota.
        prompt; cbv beta iota.
        -- commit; cbv beta iota; [fin|].
           handler; cbv beta iota; try commit; cbv beta iota; try congruence; fin.
        -- handler; cbv beta iota; try commit; cbv beta iota; fin.
      * fin.
    + handler; cbv beta iota; try commit; cbv beta iota; fin.
  - fin.
Qed.

End RecommitFacts.
